(** * Doctor: a shallow embedding of the comment-to-document pipeline

    The development follows the Python sources of the [doctor] package:
    [getter.py], [parser.py], [comment_tree.py], [comment_block.py],
    [comment_line.py], [markdown_tree.py], [mistree.py], [output_tree.py]
    and [doctor_class.py].  Python strings are modelled as
    [string] (characters are code points below 256), generators as the list
    of the items they yield, exceptions as the [Raise] branch of [result],
    and [xml.etree.ElementTree] elements as the record [Element]. *)

From Stdlib Require Import List String Ascii Bool Arith Lia PeanoNat.
From Stdlib Require Import DecimalString Sorted.
Import ListNotations.
Local Open Scope string_scope.
Local Open Scope list_scope.

Set Implicit Arguments.

(** ** Exceptions and results *)

Inductive exn : Type :=
| AssertionError
| AttributeError
| IndexError
| IOError
| NotImplementedError
| RuntimeError
| TypeError
| ValueError.

Inductive result (A : Type) : Type :=
| Ok (a : A)
| Raise (e : exn).

Arguments Ok {A} a.
Arguments Raise {A} e.

Definition bind {A B : Type} (r : result A) (k : A -> result B) : result B :=
  match r with
  | Ok a => k a
  | Raise e => Raise e
  end.

Notation "x <- r ;; k" := (bind r (fun x => k))
  (at level 61, r at next level, right associativity).

(** ** Python string helpers *)

Module PyStr.

(** [str.isspace] on one character, for code points below 256. *)
Definition isspace (c : ascii) : bool :=
  let n := nat_of_ascii c in
  (Nat.leb 9 n && Nat.leb n 13) || (Nat.leb 28 n && Nat.leb n 32)
  || Nat.eqb n 133 || Nat.eqb n 160.

Definition is_eol (c : ascii) : bool :=
  Nat.eqb (nat_of_ascii c) 10 || Nat.eqb (nat_of_ascii c) 13.

Definition LF : string := String (ascii_of_nat 10) EmptyString.
Definition CR : string := String (ascii_of_nat 13) EmptyString.

(** [s.startswith(p)] *)
Definition startswith (p s : string) : bool := String.prefix p s.

(** [s[n:]] *)
Fixpoint drop (n : nat) (s : string) : string :=
  match n, s with
  | 0, _ => s
  | S _, EmptyString => EmptyString
  | S m, String _ t => drop m t
  end.

(** [s[:n]] *)
Fixpoint take (n : nat) (s : string) : string :=
  match n, s with
  | 0, _ => EmptyString
  | S _, EmptyString => EmptyString
  | S m, String c t => String c (take m t)
  end.

(** [s.lstrip(chars)] with the set of characters given as a predicate. *)
Fixpoint lstrip_by (f : ascii -> bool) (s : string) : string :=
  match s with
  | EmptyString => EmptyString
  | String c t => if f c then lstrip_by f t else s
  end.

(** [s.rstrip(chars)]: the result is empty when every character from here
    to the end is stripped. *)
Fixpoint rstrip_by (f : ascii -> bool) (s : string) : string :=
  match s with
  | EmptyString => EmptyString
  | String c t =>
      match rstrip_by f t with
      | EmptyString => if f c then EmptyString else String c EmptyString
      | r => String c r
      end
  end.

(** [s.strip()] *)
Definition strip (s : string) : string := rstrip_by isspace (lstrip_by isspace s).

(** [''.join(l)] *)
Definition join (l : list string) : string := String.concat "" l.

(** [' ' * n] *)
Fixpoint spaces (n : nat) : string :=
  match n with
  | 0 => EmptyString
  | S m => String " " (spaces m)
  end.

End PyStr.

(** ** xml.etree.ElementTree elements *)

Module ET.

(** An element: tag, attribute dictionary (in insertion order), text and
    children.  Tails are not used by the document tree. *)
#[local] Unset Elimination Schemes.
Inductive Element : Type :=
| Elem (tag : string) (attrib : list (string * string))
       (text : option string) (children : list Element).
#[local] Set Elimination Schemes.

Definition tag (e : Element) : string :=
  match e with Elem t _ _ _ => t end.
Definition attrib (e : Element) : list (string * string) :=
  match e with Elem _ a _ _ => a end.
Definition text (e : Element) : option string :=
  match e with Elem _ _ x _ => x end.
Definition children (e : Element) : list Element :=
  match e with Elem _ _ _ c => c end.

Definition set_children (e : Element) (c : list Element) : Element :=
  Elem (tag e) (attrib e) (text e) c.
Definition set_text (e : Element) (x : option string) : Element :=
  Elem (tag e) (attrib e) x (children e).

(** [dict.get] and [dict.__setitem__] on an attribute dictionary. *)
Fixpoint lookup (k : string) (a : list (string * string)) : option string :=
  match a with
  | [] => None
  | (k', v) :: rest => if String.eqb k' k then Some v else lookup k rest
  end.

Fixpoint update (k v : string) (a : list (string * string))
    : list (string * string) :=
  match a with
  | [] => [(k, v)]
  | (k', v') :: rest =>
      if String.eqb k' k then (k, v) :: rest else (k', v') :: update k v rest
  end.

(** [element.get(name)] and [element.set(name, value)] *)
Definition get (e : Element) (k : string) : option string :=
  lookup k (attrib e).
Definition set (e : Element) (k v : string) : Element :=
  Elem (tag e) (update k v (attrib e)) (text e) (children e).

(** [ET_copy_attr(source, destination, names)] *)
Fixpoint ET_copy_attr (source destination : Element) (names : list string)
    : Element :=
  match names with
  | [] => destination
  | name :: rest =>
      match get source name with
      | Some value => ET_copy_attr source (set destination name value) rest
      | None => ET_copy_attr source destination rest
      end
  end.

(** [ET_copy_attr(source, destination)]: every key of the source. *)
Definition ET_copy_attr_all (source destination : Element) : Element :=
  ET_copy_attr source destination (map fst (attrib source)).

(** [parent.insert(index, x)] for an index that is not negative. *)
Definition insert_at (i : nat) (x : Element) (l : list Element)
    : list Element :=
  firstn i l ++ x :: skipn i l.

(** [del parent[index]] *)
Definition delete_at (i : nat) (l : list Element) : list Element :=
  firstn i l ++ skipn (S i) l.

(** A place in a tree: the child indices from the root down. *)
Definition path := list nat.

Fixpoint get_at (p : path) (e : Element) : option Element :=
  match p with
  | [] => Some e
  | i :: rest =>
      match nth_error (children e) i with
      | Some c => get_at rest c
      | None => None
      end
  end.

(** Replace the child at an index. *)
Fixpoint replace_nth (i : nat) (x : Element) (l : list Element)
    : list Element :=
  match i, l with
  | _, [] => []
  | 0, _ :: t => x :: t
  | S j, h :: t => h :: replace_nth j x t
  end.

(** Apply an in-place modification to the element at a path. *)
Fixpoint update_at (f : Element -> result Element) (p : path) (e : Element)
    : result Element :=
  match p with
  | [] => f e
  | i :: rest =>
      match nth_error (children e) i with
      | Some c =>
          c' <- update_at f rest c ;;
          Ok (set_children e (replace_nth i c' (children e)))
      | None => Raise IndexError
      end
  end.

(** The first element of a list, in order, on which [f] finds a path,
    with the index of the element in front of the path. *)
Definition first_hit (f : Element -> option path)
    : list Element -> nat -> option path :=
  fix go (l : list Element) (i : nat) : option path :=
    match l with
    | [] => None
    | c :: l' =>
        match f c with
        | Some p => Some (i :: p)
        | None => go l' (S i)
        end
    end.

(** The first element, in document order, among [e] and its descendants
    that satisfies [pred]. *)
Fixpoint find_self (pred : Element -> bool) (e : Element) : option path :=
  match e with
  | Elem _ _ _ cs =>
      if pred e then Some [] else first_hit (find_self pred) cs 0
  end.

(** The first strict descendant, in document order, that satisfies [pred]:
    [element.find(".//*[pred]")]. *)
Definition find_desc (pred : Element -> bool) (e : Element) : option path :=
  first_hit (find_self pred) (children e) 0.

(** The first strict descendant that satisfies [pred] and has a
    grandparent below or at [e], that is, of depth two or more:
    the element whose grandparent [element.find(".//*[pred]/../..")]
    returns. *)
Definition find_desc2 (pred : Element -> bool) (e : Element) : option path :=
  first_hit (find_desc pred) (children e) 0.

(** Index of the first element of a list that satisfies [pred]. *)
Fixpoint find_index (pred : Element -> bool) (l : list Element) : option nat :=
  match l with
  | [] => None
  | c :: l' =>
      if pred c then Some 0
      else match find_index pred l' with
           | Some i => Some (S i)
           | None => None
           end
  end.

(** All strict descendants in document order: [element.findall(".//*")]. *)
Fixpoint descendants (e : Element) : list Element :=
  match e with
  | Elem _ _ _ cs => flat_map (fun c => c :: descendants c) cs
  end.

(** [element.iter()]: the element and its descendants. *)
Definition iter (e : Element) : list Element := e :: descendants e.

Definition has_attr (k : string) (e : Element) : bool :=
  match get e k with Some _ => true | None => false end.

Definition attr_is (k v : string) (e : Element) : bool :=
  match get e k with Some v' => String.eqb v' v | None => false end.

End ET.

(** ** getter.py *)

Module DocGetter.

(** [DocGetter.Cache]: one fragment of a content file. *)
Record Cache : Type := mkCache {
  absPath : string;
  fragment : string;
  contentLines : list string
}.

(** [contentLines[-1] = contentLines[-1].rstrip("\n\r")], where the
    [IndexError] of an empty list is passed over. *)
Fixpoint rstrip_last (l : list string) : list string :=
  match l with
  | [] => []
  | [x] => [PyStr.rstrip_by PyStr.is_eol x]
  | x :: t => x :: rstrip_last t
  end.

(** The body of the [for line in docFile] loop of [Cache.read].  The pair
    [cur] holds the local variables [fragment] and [contentLines], which are
    [None] together. *)
Definition read_line (path : string) (cur : option (string * list string))
    (line : string) : list Cache * option (string * list string) :=
  let '(yielded, cur1) :=
    match cur with
    | Some (frag, content) =>
        if PyStr.startswith "#" line && negb (PyStr.startswith "##" line)
        then ([mkCache path frag (rstrip_last content)], None)
        else ([], Some (frag, content ++ [line]))
    | None => ([], None)
    end in
  let cur2 :=
    match cur1 with
    | Some _ => cur1
    | None =>
        if PyStr.startswith "#" line then
          let frag := PyStr.strip (PyStr.drop 1 line) in
          if String.eqb frag "" || PyStr.startswith "#" frag
          then None
          else Some (frag, [])
        else None
    end in
  (yielded, cur2).

Fixpoint read_from (path : string) (cur : option (string * list string))
    (lines : list string) : list Cache :=
  match lines with
  | [] =>
      match cur with
      | Some (frag, content) => [mkCache path frag content]
      | None => []
      end
  | line :: rest =>
      let '(yielded, cur') := read_line path cur line in
      yielded ++ read_from path cur' rest
  end.

(** [Cache.read(absPath)], on the lines of the opened file. *)
Definition Cache_read (path : string) (lines : list string) : list Cache :=
  read_from path None lines.

(** The state of a [DocGetter] instance. *)
Record State : Type := mkState {
  cachedFragments : list Cache;
  cachedFiles : list string
}.

Definition empty : State := mkState [] [].

Definition mem (x : string) (l : list string) : bool :=
  existsb (String.eqb x) l.

(** The loop of [load_file] over the caches yielded by [Cache.read];
    [fragments] is the local list of names seen in this file. *)
Fixpoint load_caches (path : string) (caches : list Cache)
    (fragments : list string) (st : State) : result State :=
  match caches with
  | [] => Ok st
  | cache :: rest =>
      if mem (fragment cache) fragments then Raise RuntimeError
      else
        load_caches path rest (fragments ++ [fragment cache])
          (mkState (cache :: cachedFragments st) (cachedFiles st ++ [path]))
  end.

Section WithFiles.

(** The file system: the lines of the file at a path, [None] when it cannot
    be opened. *)
Variable files : string -> option (list string).

Definition load_file (path : string) (st : State) : result State :=
  if mem path (cachedFiles st) then Ok st
  else
    match files path with
    | None => Raise IOError
    | Some lines => load_caches path (Cache_read path lines) [] st
    end.


(** The search loop of [_get_content]: the last matching cache wins. *)
Fixpoint search (frag : string) (path : option string) (caches : list Cache)
    (cached : option Cache) : option Cache :=
  match caches with
  | [] => cached
  | cache :: rest =>
      if String.eqb (fragment cache) frag
         && match path with
            | None => true
            | Some p => String.eqb (absPath cache) p
            end
      then search frag path rest (Some cache)
      else search frag path rest cached
  end.

(** The result of [urllib.parse.urlparse], as far as it is used. *)
Record ParseResult : Type := mkParse {
  netloc : string;
  urlpath : string;
  urlfragment : string
}.

(** [urlparse(uri.replace("\\", '/'))] *)
Variable urlparse : string -> ParseResult.

(** [os.path.abspath(''.join((path, parsed.path)))] where [path] is the
    directory of [basePath] (host [.], first argument [false]) or the
    directory above it (host [..], first argument [true]). *)
Variable file_path : bool -> option string -> string -> result string.

Definition get_content_ (uri : string) (basePath : option string)
    (st : State) : result (Cache * State) :=
  let parsed := urlparse uri in
  path <-
    (if String.eqb (netloc parsed) "." || String.eqb (netloc parsed) ".."
     then
       p <- file_path (String.eqb (netloc parsed) "..") basePath
              (urlpath parsed) ;;
       Ok (Some p)
     else if String.eqb (netloc parsed) "" then Ok None
     else Raise ValueError) ;;
  st' <-
    match path with
    | Some p => load_file p st
    | None => Ok st
    end ;;
  match search (urlfragment parsed) path (cachedFragments st') None with
  | None => Raise ValueError
  | Some cached => Ok (cached, st')
  end.

(** [os.path.relpath] *)
Variable relpath : string -> string.

(** [TreeParser.__call__]: the Markdown parser, which returns the
    [markdown] element of the parsed text. *)
Variable treeParser : string -> ET.Element.

Definition str_of_nat (n : nat) : string :=
  NilEmpty.string_of_uint (Nat.to_uint n).

(** [DocGetter.resolve(element)]: the element with its [contentLines] and
    [content] attributes set, and the returned source path. *)
Definition resolve (element : ET.Element) (st : State)
    : result (ET.Element * string * State) :=
  match ET.get element "uri" with
  | None => Raise AttributeError
  | Some uri =>
      r <- get_content_ uri (ET.get element "source") st ;;
      let '(cache, st') := r in
      let e1 := ET.set element "contentLines"
                  (str_of_nat (List.length (contentLines cache))) in
      let e2 := ET.set e1 "content" (PyStr.join (contentLines cache)) in
      Ok (e2, relpath (absPath cache), st')
  end.

(** [for docInner in markdownInner.findall(".//doc_uri"):
     docInner.set('source', source)], on one element of the forest below
    [markdownInner]. *)
Fixpoint set_source (source : string) (e : ET.Element) : ET.Element :=
  match e with
  | ET.Elem t a x cs =>
      let e' := ET.Elem t a x (map (set_source source) cs) in
      if String.eqb t "doc_uri" then ET.set e' "source" source else e'
  end.

(** The body of the loop over the unresolved elements, for one of them:
    its resolved self. *)
Definition resolve_one (docOuter : ET.Element) (st : State)
    : result (ET.Element * State) :=
  r <- resolve docOuter st ;;
  let '(d1, source, st1) := r in
  match ET.get d1 "content" with
  | None => Raise TypeError
  | Some content =>
      let markdownInner := treeParser content in
      let inner := map (set_source source) (ET.children markdownInner) in
      let d2 := ET.set_children d1 (ET.children d1 ++ inner) in
      Ok (ET.set d2 "resolved" "True", st1)
  end.

Definition unresolved (e : ET.Element) : bool :=
  ET.attr_is "resolved" "False" e.

(** A function on an element, a state and a counter, run on the elements
    of a list in order. *)
Definition thread
    (f : ET.Element -> State -> nat -> result (ET.Element * State * nat))
    : list ET.Element -> State -> nat
      -> result (list ET.Element * State * nat) :=
  fix go (l : list ET.Element) (st : State) (count : nat)
    : result (list ET.Element * State * nat) :=
    match l with
    | [] => Ok ([], st, count)
    | c :: l' =>
        rc <- f c st count ;;
        let '(c', st', count') := rc in
        rl <- go l' st' count' ;;
        let '(l'', st'', count'') := rl in
        Ok (c' :: l'', st'', count'')
    end.

(** One pass of the [for docOuter in element.findall(...)] loop, on one
    element of the list and then on the elements below it that were there
    when the list was made.  The elements that the pass adds are not in
    the list.  The counter is the number of elements resolved so far. *)
Fixpoint pass_node (e : ET.Element) (st : State) (count : nat)
    : result (ET.Element * State * nat) :=
  match e with
  | ET.Elem t a x cs =>
      r <- (if unresolved e
            then r1 <- resolve_one e st ;;
                 let '(e1, st1) := r1 in Ok (e1, st1, S count)
            else Ok (e, st, count)) ;;
      let '(e1, st1, count1) := r in
      r2 <- thread pass_node cs st1 count1 ;;
      let '(cs', st2, count2) := r2 in
      Ok (ET.set_children e1
            (cs' ++ skipn (List.length cs) (ET.children e1)), st2, count2)
  end.

Definition pass_list : list ET.Element -> State -> nat
    -> result (list ET.Element * State * nat) :=
  thread pass_node.

(** One turn of the [while True] loop of [read] on an element: the pass
    over its strict descendants and the count of elements resolved. *)
Definition pass (element : ET.Element) (st : State)
    : result (ET.Element * State * nat) :=
  r <- pass_list (ET.children element) st 0 ;;
  let '(cs, st', count) := r in
  Ok (ET.set_children element cs, st', count).

(** [read] on one element of the iterator.  The [while True] loop runs
    on fuel; [None] is the loop still running when the fuel is spent. *)
Fixpoint read (fuel : nat) (element : ET.Element) (st : State)
    : option (result (ET.Element * State)) :=
  match fuel with
  | 0 => None
  | S fuel' =>
      match pass element st with
      | Raise e => Some (Raise e)
      | Ok (element', st', count) =>
          if Nat.eqb count 0 then Some (Ok (element', st'))
          else read fuel' element' st'
      end
  end.

End WithFiles.

End DocGetter.

(** ** markdown_tree.py *)

Module MarkdownTree.

Import ET.

Definition count_if (pred : Element -> bool) (l : list Element) : nat :=
  List.length (filter pred l).

(** The body of the [while True] loop of [lift_singles], on the element
    that [find] returned. *)
Definition lift_found (tagRemove countAttribute : string) (found : Element)
    : result Element :=
  match children found with
  | [] => Ok (set found countAttribute "zero")
  | [child] =>
      if negb (String.eqb (tag child) tagRemove) then Raise NotImplementedError
      else
        let found1 := set_children found (children child) in
        let found2 := set found1 countAttribute "lifted" in
        match children found2 with
        | [] => Raise IndexError
        | first :: rest =>
            Ok (set_children found2 (set first "liftedSingle" "True" :: rest))
        end
  | _ => Raise NotImplementedError
  end.

(** The loop of [lift_singles] on one element, on fuel. *)
Fixpoint lift_singles_loop (fuel : nat) (element : Element)
    : option (result Element) :=
  match fuel with
  | 0 => None
  | S fuel' =>
      match find_desc (attr_is "contentLines" "1") element with
      | None => Some (Ok element)
      | Some p =>
          match update_at (lift_found "paragraph" "contentLines") p element
          with
          | Raise e => Some (Raise e)
          | Ok element' => lift_singles_loop fuel' element'
          end
      end
  end.

(** [lift_singles] on one element of the iterator.  Each turn of the loop
    takes the value [1] off one element, so one turn for each of them and one
    more are enough. *)
Definition lift_singles (element : Element) : option (result Element) :=
  lift_singles_loop
    (S (count_if (attr_is "contentLines" "1") (descendants element))) element.

Definition opt_is (o : option string) (v : string) : bool :=
  match o with Some x => String.eqb x v | None => false end.

Definition can_contain (parentElement childElement : Element) : result bool :=
  let layout := get childElement "layout" in
  let docURI := has_attr "resolved" childElement in
  if opt_is layout "span" || opt_is layout "marker" || docURI then Ok true
  else
    let parent := tag parentElement in
    if String.eqb parent "paragraph" || String.eqb parent "header"
    then Ok false
    else
      let child := tag childElement in
      if String.eqb parent "list_item"
         && (String.eqb child "paragraph" || String.eqb child "list")
      then Ok true
      else if String.eqb parent "list_item" && String.eqb child parent
      then Ok false
      else if String.eqb parent "list"
      then Ok (String.eqb child "list_item")
      else Raise NotImplementedError.

(** [ET_grandparent(element, '*[@resolved]')], with places for elements:
    the path of the grandparent, the index of the parent in it, and the index
    of the found element in the parent. *)
Definition ET_grandparent (element : Element)
    : result (option (path * nat * nat)) :=
  match find_desc2 (has_attr "resolved") element with
  | None => Ok None
  | Some p =>
      let gp := removelast (removelast p) in
      match get_at gp element with
      | None => Raise AssertionError
      | Some grandparent =>
          match find_index
                  (fun c => existsb (has_attr "resolved") (children c))
                  (children grandparent) with
          | None => Raise AssertionError
          | Some parentIndex =>
              match nth_error (children grandparent) parentIndex with
              | None => Raise AssertionError
              | Some parent =>
                  match find_index (has_attr "resolved") (children parent)
                  with
                  | None => Raise AssertionError
                  | Some docIndex => Ok (Some (gp, parentIndex, docIndex))
                  end
              end
          end
      end
  end.

(** The variables of the splice loop: the children of the parent and of
    the grandparent, whether [insertParent is parent], [insertIndex], and
    the start marker while it waits to be inserted. *)
Record Splice : Type := mkSplice {
  inParent : list Element;
  inGrand : list Element;
  atParent : bool;
  insertIndex : nat;
  docStart : option Element
}.

(** [insertParent.insert(insertIndex, x); insertIndex += 1] *)
Definition insert_here (x : Element) (s : Splice) : Splice :=
  if atParent s
  then mkSplice (insert_at (insertIndex s) x (inParent s)) (inGrand s)
         true (S (insertIndex s)) (docStart s)
  else mkSplice (inParent s) (insert_at (insertIndex s) x (inGrand s))
         false (S (insertIndex s)) (docStart s).

Definition insert_start (s : Splice) : Splice :=
  match docStart s with
  | Some d =>
      let s' := insert_here d s in
      mkSplice (inParent s') (inGrand s') (atParent s') (insertIndex s') None
  | None => s
  end.

(** The [for child in docElement] loop. *)
Fixpoint splice_children (parent : Element) (parentIndex : nat)
    (l : list Element) (s : Splice) : result Splice :=
  match l with
  | [] => Ok s
  | child :: rest =>
      s1 <- (if atParent s
             then b <- can_contain parent child ;;
                  if b then Ok s
                  else Ok (mkSplice (inParent s) (inGrand s) false
                             (S parentIndex) (docStart s))
             else Ok s) ;;
      let s2 := insert_start s1 in
      let child' :=
        set child "liftedTree"
          (if atParent s2 then "parent" else "grandparent") in
      splice_children parent parentIndex rest (insert_here child' s2)
  end.

Section Lift.

(** [ET.tostring(element, encoding="unicode")] *)
Variable ET_string : Element -> string.

Variable leaveMarkers : bool.

(** The start and end markers of a [doc_uri] element. *)
Definition doc_markers (docElement : Element)
    : result (option Element * option Element) :=
  if leaveMarkers then
    let start0 :=
      ET_copy_attr docElement (Elem "doc" [("layout", "marker")] None [])
        ["source"; "uri"] in
    let startText := ET_string start0 in
    if String.eqb (PyStr.drop (String.length startText - 3) startText) " />"
       && Nat.leb 3 (String.length startText)
    then
      let start1 :=
        set_text start0
          (Some (String.append
                   (PyStr.take (String.length startText - 3) startText)
                   (PyStr.drop (String.length startText - 1) startText))) in
      let end0 :=
        ET_copy_attr docElement (Elem "doc" [("layout", "marker")] None [])
          ["source"; "uri"] in
      Ok (Some start1, Some (set_text end0 (Some "</doc>")))
    else Raise AssertionError
  else Ok (None, None).

(** The body of the [while True] loop of [lift_trees], from the indices
    on: the new grandparent. *)
Definition lift_at (parentIndex docIndex : nat) (grandparent : Element)
    : result Element :=
  match nth_error (children grandparent) parentIndex with
  | None => Raise IndexError
  | Some parent =>
      match nth_error (children parent) docIndex with
      | None => Raise IndexError
      | Some docElement =>
          m <- doc_markers docElement ;;
          let '(start, docEnd) := m in
          s <- splice_children parent parentIndex (children docElement)
                 (mkSplice (delete_at docIndex (children parent))
                    (children grandparent) true docIndex start) ;;
          let s1 := insert_start s in
          let s2 :=
            match docEnd with
            | Some d => insert_here d s1
            | None => s1
            end in
          let s3 :=
            if negb (atParent s2)
               && Nat.ltb docIndex (List.length (inParent s2))
            then
              let tailParent :=
                set_children
                  (set (ET_copy_attr_all parent
                          (Elem (tag parent) [] None []))
                     "liftedTree" "tailParent")
                  (skipn docIndex (inParent s2)) in
              insert_here tailParent
                (mkSplice (firstn docIndex (inParent s2)) (inGrand s2)
                   (atParent s2) (insertIndex s2) (docStart s2))
            else s2 in
          let grand :=
            replace_nth parentIndex (set_children parent (inParent s3))
              (inGrand s3) in
          Ok (set_children grandparent
                (if Nat.eqb docIndex 0
                    && Nat.eqb (List.length (inParent s3)) 0
                 then delete_at parentIndex grand
                 else grand))
      end
  end.

(** [element.find(".//paragraph//paragraph")] finds something. *)
Definition nested_paragraph (element : Element) : bool :=
  existsb
    (fun p =>
       String.eqb (tag p) "paragraph"
       && existsb (fun q => String.eqb (tag q) "paragraph") (descendants p))
    (descendants element).

Fixpoint lift_trees_loop (fuel : nat) (element : Element)
    : option (result Element) :=
  match fuel with
  | 0 => None
  | S fuel' =>
      match ET_grandparent element with
      | Raise e => Some (Raise e)
      | Ok None => Some (Ok element)
      | Ok (Some (gp, parentIndex, docIndex)) =>
          match update_at (lift_at parentIndex docIndex) gp element with
          | Raise e => Some (Raise e)
          | Ok element' => lift_trees_loop fuel' element'
          end
      end
  end.

(** [lift_trees] on one element of the iterator.  Each turn of the loop
    removes an element with a [resolved] attribute that has a grandparent,
    so there are at most as many turns as such elements. *)
Definition lift_trees (element : Element) : option (result Element) :=
  match lift_trees_loop
          (S (count_if (has_attr "resolved") (descendants element)))
          element with
  | Some (Ok element') =>
      if nested_paragraph element' then Some (Raise AssertionError)
      else Some (Ok element')
  | r => r
  end.

End Lift.

End MarkdownTree.

(** ** parser.py: the regular expressions of [SlashStarsParser] *)

Module SlashStarsParser.

(** A named capture group that took part in a match, with its span. *)
Record Group : Type := mkGroup {
  g_name : string;
  g_start : nat;
  g_end : nat
}.

(** A match object: the string searched and the named groups that matched,
    in the order of their start positions, which is the order that
    [matched_groups] returns. *)
Record Match : Type := mkMatch {
  m_string : string;
  m_groups : list Group
}.

(** Length of the longest prefix whose characters satisfy [f]. *)
Fixpoint span_len (f : ascii -> bool) (s : string) : nat :=
  match s with
  | EmptyString => 0
  | String c t => if f c then S (span_len f t) else 0
  end.

Definition is_space (c : ascii) : bool := Ascii.eqb c " ".
Definition is_space_or_tab (c : ascii) : bool :=
  Ascii.eqb c " " || Nat.eqb (nat_of_ascii c) 9.

(** Position of the first occurrence of [p] in [s]. *)
Fixpoint find_sub (p s : string) : option nat :=
  if String.prefix p s then Some 0
  else match s with
       | EmptyString => None
       | String _ t =>
           match find_sub p t with
           | Some i => Some (S i)
           | None => None
           end
       end.

(** [_commentStart.search(s)].  The pattern is anchored at the start of the
    string: white space (group [indent]), slash star star (group [symbol]),
    at most one space (group [margin]), and then the end of the string or a
    look-ahead to a character that is not a slash. *)
Definition commentStart (s : string) : option Match :=
  let n := span_len PyStr.isspace s in
  let r := PyStr.drop n s in
  if PyStr.startswith "/**" r then
    let r3 := PyStr.drop 3 r in
    if PyStr.startswith " " r3 && negb (PyStr.startswith "/" (PyStr.drop 1 r3))
    then Some (mkMatch s [mkGroup "indent" 0 n; mkGroup "symbol" n (n + 3);
                          mkGroup "margin" (n + 3) (n + 4)])
    else if negb (PyStr.startswith "/" r3)
    then Some (mkMatch s [mkGroup "indent" 0 n; mkGroup "symbol" n (n + 3);
                          mkGroup "margin" (n + 3) (n + 3)])
    else None
  else None.

(** [_commentFinish.search(s)].  The pattern is an optional group [indent]
    of spaces and tabs, which can only match at the start of the string, and
    then star slash (group [symbol]); the search returns the leftmost
    match. *)
Definition commentFinish (s : string) : option Match :=
  let n := span_len is_space_or_tab s in
  if PyStr.startswith "*/" (PyStr.drop n s)
  then Some (mkMatch s [mkGroup "indent" 0 n; mkGroup "symbol" n (n + 2)])
  else match find_sub "*/" s with
       | Some i => Some (mkMatch s [mkGroup "symbol" i (i + 2)])
       | None => None
       end.

(** [_commentContinue.search(s)].  The pattern is anchored at the start of
    the string: spaces (group [indent]) and then the first that matches of:
    a star at the end of the line (group [symbolEOL]); a star and a space
    (groups [symbolMargin] and [margin]); a star before a character that is
    not a slash (group [symbolNonSlash]); the end of the line (empty group
    [EOL]); a look-ahead to a character that is neither a star nor a space
    (empty group [nonSymbol]).  The end of the line is the end of the string
    or the place before a line feed that ends the string. *)
Definition commentContinue (s : string) : option Match :=
  let n := span_len is_space s in
  let r := PyStr.drop n s in
  match r with
  | EmptyString => Some (mkMatch s [mkGroup "indent" 0 n; mkGroup "EOL" n n])
  | String c r' =>
      if Ascii.eqb c "*" then
        if String.eqb r' "" || String.eqb r' PyStr.LF
        then Some (mkMatch s [mkGroup "indent" 0 n;
                              mkGroup "symbolEOL" n (n + 1)])
        else if PyStr.startswith " " r'
        then Some (mkMatch s [mkGroup "indent" 0 n;
                              mkGroup "symbolMargin" n (n + 1);
                              mkGroup "margin" (n + 1) (n + 2)])
        else if PyStr.startswith "/" r' then None
        else Some (mkMatch s [mkGroup "indent" 0 n;
                              mkGroup "symbolNonSlash" n (n + 1)])
      else if String.eqb r PyStr.LF
      then Some (mkMatch s [mkGroup "indent" 0 n; mkGroup "EOL" n n])
      else Some (mkMatch s [mkGroup "indent" 0 n; mkGroup "nonSymbol" n n])
  end.

(** Start of the match that [_commentEOL.search(s)] finds: the pattern is
    any number of carriage returns and line feeds before the end of the
    string, so the match is the trailing run of these characters. *)
Definition eol_start (s : string) : nat :=
  String.length (PyStr.rstrip_by PyStr.is_eol s).

End SlashStarsParser.

(** ** comment_tree.py: lines and comment blocks *)

Module CommentTree.

Import SlashStarsParser.

(** A [line] element as [line_elements] makes it: its number and its text. *)
Record Line : Type := mkLine {
  l_number : nat;
  l_text : string
}.

(** One of the children [indent], [symbol], [margin] and [eol] of an
    analysed line: its text and its tail. *)
Record Child : Type := mkChild {
  c_text : option string;
  c_tail : option string
}.

Definition no_child : Child := mkChild None None.

(** A line element that [_analyse_line] made: the [number] and [part]
    attributes, the three children, and the [eol] child that
    [_analyse_child_tail] appends. *)
Record Analysed : Type := mkAnalysed {
  a_number : nat;
  a_part : string;
  a_indent : Child;
  a_symbol : Child;
  a_margin : Child;
  a_eol : option Child
}.

(** An element of the stream after [line_star_slash]. *)
Inductive Item : Type :=
| Plain (l : Line)
| Part (a : Analysed).

(** [line_elements]: numbered from one. *)
Fixpoint line_elements (lineNumber : nat) (lines : list string) : list Line :=
  match lines with
  | [] => []
  | line :: rest => mkLine (S lineNumber) line :: line_elements (S lineNumber) rest
  end.

(** [str.expandtabs(tabSize)], from a column. *)
Fixpoint expandtabs_from (tabSize column : nat) (s : string) : string :=
  match s with
  | EmptyString => EmptyString
  | String c t =>
      if Nat.eqb (nat_of_ascii c) 9 then
        if Nat.ltb 0 tabSize then
          let incr := tabSize - Nat.modulo column tabSize in
          String.append (PyStr.spaces incr)
            (expandtabs_from tabSize (column + incr) t)
        else expandtabs_from tabSize column t
      else
        String c (expandtabs_from tabSize
                    (if PyStr.is_eol c then 0 else S column) t)
  end.

Definition expandtabs (tabSize : nat) (s : string) : string :=
  expandtabs_from tabSize 0 s.

Definition line_expand_tabs (tabSize : nat) (l : list Line) : list Line :=
  map (fun e => mkLine (l_number e) (expandtabs tabSize (l_text e))) l.

(** [s[a:b]] *)
Definition slice (s : string) (a b : nat) : string :=
  PyStr.take (b - a) (PyStr.drop a s).

(** [_set_tail] *)
Definition set_tail (c : Child) (tail : string) : result Child :=
  match c_tail c with
  | None => Ok (mkChild (c_text c) (Some tail))
  | Some _ => Raise AssertionError
  end.

(** The variables of the loop over the groups in [_analyse_line]. *)
Record Scan : Type := mkScan {
  sc_indent : Child;
  sc_symbol : Child;
  sc_margin : Child;
  sc_tailElement : option nat;
  sc_texts : list string;
  sc_cursor : nat
}.

Definition span_index (name : string) : option nat :=
  if String.eqb name "indent" then Some 0
  else if PyStr.startswith "symbol" name then Some 1
  else if String.eqb name "margin" then Some 2
  else None.

Definition get_kid (i : nat) (sc : Scan) : Child :=
  match i with
  | 0 => sc_indent sc
  | 1 => sc_symbol sc
  | _ => sc_margin sc
  end.

Definition set_kid (i : nat) (c : Child) (sc : Scan) : Scan :=
  match i with
  | 0 => mkScan c (sc_symbol sc) (sc_margin sc) (sc_tailElement sc)
           (sc_texts sc) (sc_cursor sc)
  | 1 => mkScan (sc_indent sc) c (sc_margin sc) (sc_tailElement sc)
           (sc_texts sc) (sc_cursor sc)
  | _ => mkScan (sc_indent sc) (sc_symbol sc) c (sc_tailElement sc)
           (sc_texts sc) (sc_cursor sc)
  end.

Fixpoint analyse_groups (s : string) (groups : list Group) (sc : Scan)
    : result Scan :=
  match groups with
  | [] => Ok sc
  | g :: rest =>
      match span_index (g_name g) with
      | None => analyse_groups s rest sc
      | Some spanIndex =>
          if Nat.ltb (g_start g) (sc_cursor sc) then Raise AssertionError
          else
            let prefix := slice s (sc_cursor sc) (g_start g) in
            sc1 <- match sc_tailElement sc with
                   | None =>
                       Ok (mkScan (sc_indent sc) (sc_symbol sc) (sc_margin sc)
                             None (sc_texts sc ++ [prefix]) (sc_cursor sc))
                   | Some t =>
                       c <- set_tail (get_kid t sc) prefix ;;
                       Ok (set_kid t c sc)
                   end ;;
            let sc2 :=
              if Nat.ltb (g_start g) (g_end g)
              then set_kid spanIndex
                     (mkChild (Some (slice s (g_start g) (g_end g)))
                        (c_tail (get_kid spanIndex sc1))) sc1
              else sc1 in
            analyse_groups s rest
              (mkScan (sc_indent sc2) (sc_symbol sc2) (sc_margin sc2)
                 (Some spanIndex) (sc_texts sc2) (g_end g))
      end
  end.

(** [_analyse_line(element, regularExpression, commentPart)]: [None] when
    the search fails, and otherwise the analysed element and the line
    element with the text that is left to it. *)
Definition analyse_line (search : string -> option Match)
    (commentPart : string) (element : Line)
    : result (option (Analysed * Line)) :=
  match search (l_text element) with
  | None => Ok None
  | Some m =>
      sc <- analyse_groups (m_string m) (m_groups m)
              (mkScan no_child no_child no_child None [] 0) ;;
      margin <- set_tail (sc_margin sc)
                  (PyStr.drop (sc_cursor sc) (m_string m)) ;;
      Ok (Some (mkAnalysed (l_number element) commentPart
                  (sc_indent sc) (sc_symbol sc) margin None,
                mkLine (l_number element) (PyStr.join (sc_texts sc))))
  end.

Definition match_start := analyse_line commentStart "start".
Definition match_continue := analyse_line commentContinue "continue".
Definition match_finish := analyse_line commentFinish "finish".

(** [_analyse_child_tail(parent)], where the last child is the margin. *)
Definition analyse_child_tail (parent : Analysed) : result Analysed :=
  match c_tail (a_margin parent) with
  | None => Raise TypeError
  | Some tail =>
      let start := eol_start tail in
      Ok (mkAnalysed (a_number parent) (a_part parent)
            (a_indent parent) (a_symbol parent)
            (mkChild (c_text (a_margin parent)) (Some (PyStr.take start tail)))
            (Some (mkChild (Some (PyStr.drop start tail)) None)))
  end.

(** The part of a turn of the [while True] loop of [line_star_slash] under
    [if inComment], with the elements yielded so far in the turn, the line
    element, and [analysisElement]. *)
Definition turn_in_comment (yielded : list Item) (lineElement1 : Line)
    (analysisElement : option Analysed)
    : result (list Item * option Line * bool) :=
  f <- match_finish lineElement1 ;;
  let finishElement := option_map fst f in
  let lineElement2 :=
    match f with Some (_, l) => l | None => lineElement1 end in
  r2 <- match analysisElement with
        | None =>
            a <- (if negb (String.eqb (l_text lineElement2) "")
                  then match_continue lineElement2
                  else Ok None) ;;
            match a with
            | None =>
                match finishElement with
                | None => Raise AssertionError
                | Some _ => Ok (None, lineElement2)
                end
            | Some (analysisElement1, lineElement3) =>
                if negb (String.eqb (l_text lineElement3) "")
                then Raise AssertionError
                else
                  a' <- analyse_child_tail analysisElement1 ;;
                  Ok (Some a', lineElement3)
            end
        | Some analysisElement0 =>
            margin <- set_tail (a_margin analysisElement0)
                        (l_text lineElement2) ;;
            a' <- analyse_child_tail
                    (mkAnalysed (a_number analysisElement0)
                       (a_part analysisElement0)
                       (a_indent analysisElement0)
                       (a_symbol analysisElement0) margin
                       (a_eol analysisElement0)) ;;
            Ok (Some a', mkLine (l_number lineElement2) "")
        end ;;
  let '(analysed, lineElement4) := r2 in
  let yielded1 :=
    yielded ++ match analysed with Some a => [Part a] | None => [] end in
  r3 <- match finishElement with
        | None => Ok (yielded1, lineElement4, true)
        | Some fin =>
            if negb (String.eqb (l_text lineElement4) "")
            then Raise AssertionError
            else
              match c_tail (a_margin fin) with
              | None => Raise TypeError
              | Some tail =>
                  Ok (yielded1
                        ++ [Part (mkAnalysed (a_number fin) (a_part fin)
                                    (a_indent fin) (a_symbol fin)
                                    (mkChild (c_text (a_margin fin)) None)
                                    (a_eol fin))],
                      mkLine (l_number lineElement4) tail, false)
              end
        end ;;
  let '(yielded2, lineElement5, inComment') := r3 in
  Ok (yielded2,
      if String.eqb (l_text lineElement5) "" then None
      else Some lineElement5,
      inComment').

(** The part of a turn under [if not inComment], when the line starts a
    comment: the prefix element if there is one, the line element with the
    text after the margin, and the start element without that text. *)
Definition turn_start (analysisElement : Analysed) (lineElement1 : Line)
    : result (list Item * Line * option Analysed) :=
  let prefix :=
    if negb (String.eqb (l_text lineElement1) "")
    then [Plain (mkLine (l_number lineElement1) (l_text lineElement1))]
    else [] in
  match c_tail (a_margin analysisElement) with
  | None => Raise TypeError
  | Some tail =>
      Ok (prefix,
          mkLine (l_number lineElement1) tail,
          Some (mkAnalysed (a_number analysisElement)
                  (a_part analysisElement)
                  (a_indent analysisElement)
                  (a_symbol analysisElement)
                  (mkChild (c_text (a_margin analysisElement)) None)
                  (a_eol analysisElement)))
  end.

(** One turn of the [while True] loop of [line_star_slash] with a line
    element in hand: the elements yielded, the line element if text is left
    in it, and [inComment]. *)
Definition star_slash_turn (lineElement : Line) (inComment : bool)
    : result (list Item * option Line * bool) :=
  if negb inComment then
    a <- match_start lineElement ;;
    match a with
    | None =>
        if String.eqb (l_text lineElement) ""
        then Raise AssertionError
        else Ok ([Plain lineElement], None, false)
    | Some (analysisElement, lineElement1) =>
        r <- turn_start analysisElement lineElement1 ;;
        let '(yielded, lineElement2, analysis) := r in
        turn_in_comment yielded lineElement2 analysis
    end
  else turn_in_comment [] lineElement None.

(** The turns of the loop on one line element read from the iterator, until
    the next one is read.  Each turn shortens the text of the element, so
    the fuel is its length. *)
Fixpoint star_slash_line (fuel : nat) (lineElement : Line) (inComment : bool)
    : option (result (list Item * bool)) :=
  match fuel with
  | 0 => None
  | S fuel' =>
      match star_slash_turn lineElement inComment with
      | Raise e => Some (Raise e)
      | Ok (yielded, None, inComment') => Some (Ok (yielded, inComment'))
      | Ok (yielded, Some lineElement', inComment') =>
          match star_slash_line fuel' lineElement' inComment' with
          | Some (Ok (more, inComment'')) =>
              Some (Ok (yielded ++ more, inComment''))
          | r => r
          end
      end
  end.

(** [line_star_slash] from a state of [inComment]: the elements yielded and
    [inComment] at the end of the input. *)
Fixpoint star_slash_from (inComment : bool) (l : list Line)
    : option (result (list Item * bool)) :=
  match l with
  | [] => Some (Ok ([], inComment))
  | lineElement :: rest =>
      match star_slash_line (S (String.length (l_text lineElement)))
              lineElement inComment with
      | Some (Ok (yielded, inComment')) =>
          match star_slash_from inComment' rest with
          | Some (Ok (more, inComment'')) =>
              Some (Ok (yielded ++ more, inComment''))
          | r => r
          end
      | r => r
      end
  end.

Definition line_star_slash (l : list Line) : option (result (list Item)) :=
  match star_slash_from false l with
  | Some (Ok (yielded, _)) => Some (Ok yielded)
  | Some (Raise e) => Some (Raise e)
  | None => None
  end.

(** [read_lines(path, tabSize)], on the lines of the file. *)
Definition read_lines (tabSize : nat) (lines : list string)
    : option (result (list Item)) :=
  line_star_slash (line_expand_tabs tabSize (line_elements 0 lines)).

(** An element of the stream after [comment_blocks]: a line element passed
    on, or a [comment] element with its [lineFirst] attribute and the
    children of its [lines] child. *)
Inductive Block : Type :=
| Line_ (l : Line)
| Comment (lineFirst : nat) (lines : list Analysed).

(** The body of the [for element in iterator] loop of [comment_blocks]:
    the elements yielded and the new [commentElement]. *)
Definition comment_blocks_turn (commentElement : option (nat * list Analysed))
    (element : Item) : list Block * option (nat * list Analysed) :=
  match element with
  | Part a =>
      let '(lineFirst, lines) :=
        match commentElement with
        | None => (a_number a, [])
        | Some c => c
        end in
      if String.eqb (a_part a) "finish"
      then ([Comment lineFirst (lines ++ [a])], None)
      else ([], Some (lineFirst, lines ++ [a]))
  | Plain l =>
      match commentElement with
      | Some (lineFirst, lines) => ([Comment lineFirst lines; Line_ l], None)
      | None => ([Line_ l], None)
      end
  end.

Fixpoint comment_blocks_from (commentElement : option (nat * list Analysed))
    (l : list Item) : list Block :=
  match l with
  | [] =>
      match commentElement with
      | Some (lineFirst, lines) => [Comment lineFirst lines]
      | None => []
      end
  | element :: rest =>
      let '(yielded, commentElement') :=
        comment_blocks_turn commentElement element in
      yielded ++ comment_blocks_from commentElement' rest
  end.

Definition comment_blocks (l : list Item) : list Block :=
  comment_blocks_from None l.

End CommentTree.

(** ** The at-command pattern of output_tree.py and comment_block.py *)

Module AtCommand.

Import SlashStarsParser.

(** What the code reads from a match of [atCommand]: the first named group
    that matched, which is one of the [command] groups, its value, the value
    of the group [name], and the end of the match. *)
Record AtMatch : Type := mkAtMatch {
  at_group : string;
  at_value : string;
  at_name : option string;
  at_end : nat
}.

(** The class [\w] for code points below 256. *)
Definition is_word (c : ascii) : bool :=
  let n := nat_of_ascii c in
  (Nat.leb 48 n && Nat.leb n 57) || (Nat.leb 65 n && Nat.leb n 90)
  || (Nat.leb 97 n && Nat.leb n 122) || Nat.eqb n 95
  || Nat.eqb n 170 || Nat.eqb n 178 || Nat.eqb n 179 || Nat.eqb n 181
  || Nat.eqb n 185 || Nat.eqb n 186 || (Nat.leb 188 n && Nat.leb n 190)
  || (Nat.leb 192 n && Nat.leb n 214) || (Nat.leb 216 n && Nat.leb n 246)
  || (Nat.leb 248 n && Nat.leb n 255).

(** A keyword and then one or more spaces, at the start of [r]: the number
    of characters matched. *)
Definition keyword_spaces (kw r : string) : option nat :=
  if PyStr.startswith kw r then
    let k := span_len is_space (PyStr.drop (String.length kw) r) in
    if Nat.eqb k 0 then None else Some (String.length kw + k)
  else None.

Fixpoint first_some {A : Type} (l : list (option A)) : option A :=
  match l with
  | [] => None
  | Some a :: _ => Some a
  | None :: rest => first_some rest
  end.

(** [atCommand.match(s)].  The pattern is an at sign and then the first
    that matches of: [brief], [description] or [details] (group
    [commandDrop]) and spaces; [return] (group [commandReturn]), an optional
    [s], and spaces; [version] (group [commandCapitalise]) and spaces;
    [param] (group [commandParameter]), an optional [eter], spaces, one or
    more word characters (group [name]) and any number of spaces; [file]
    (group [commandIgnore]) and spaces.  Spaces are one or more. *)
Definition atCommand (s : string) : option AtMatch :=
  if PyStr.startswith "@" s then
    let r := PyStr.drop 1 s in
      first_some
        [ option_map (fun n => mkAtMatch "commandDrop" "brief" None (S n))
            (keyword_spaces "brief" r);
          option_map (fun n => mkAtMatch "commandDrop" "description" None (S n))
            (keyword_spaces "description" r);
          option_map (fun n => mkAtMatch "commandDrop" "details" None (S n))
            (keyword_spaces "details" r);
          option_map (fun n => mkAtMatch "commandReturn" "return" None (S n))
            (first_some [keyword_spaces "returns" r;
                         keyword_spaces "return" r]);
          option_map (fun n => mkAtMatch "commandCapitalise" "version" None (S n))
            (keyword_spaces "version" r);
          match first_some [keyword_spaces "parameter" r;
                            keyword_spaces "param" r] with
          | Some n =>
              let after := PyStr.drop n r in
              let w := span_len is_word after in
              if Nat.eqb w 0 then None
              else
                let k := span_len is_space (PyStr.drop w after) in
                Some (mkAtMatch "commandParameter" "param"
                        (Some (PyStr.take w after)) (S (n + w + k)))
          | None => None
          end;
          option_map (fun n => mkAtMatch "commandIgnore" "file" None (S n))
            (keyword_spaces "file" r) ]
  else None.

Definition lower_char (c : ascii) : ascii :=
  let n := nat_of_ascii c in
  if Nat.leb 65 n && Nat.leb n 90 then ascii_of_nat (n + 32) else c.

Definition upper_char (c : ascii) : ascii :=
  let n := nat_of_ascii c in
  if Nat.leb 97 n && Nat.leb n 122 then ascii_of_nat (n - 32) else c.

(** [str.lower] and [str.capitalize], on the keywords, which are ASCII. *)
Fixpoint lower (s : string) : string :=
  match s with
  | EmptyString => EmptyString
  | String c t => String (lower_char c) (lower t)
  end.

Definition capitalize (s : string) : string :=
  match s with
  | EmptyString => EmptyString
  | String c t => String (upper_char c) (lower t)
  end.

(** The chain of tests on the group in [_at_command_hanging] and in
    [_at_line]: the prefix, [None] for the group that is ignored, and the
    assertion when no test fits. *)
Definition prefix_of (swift : bool) (m : AtMatch)
    : result (option string) :=
  let value := at_value m in
  let lowered := String.append "@" (String.append (lower value) " ") in
  let group := at_group m in
  if String.eqb group "commandParameter" then
    match at_name m with
    | None => Raise TypeError
    | Some name =>
        Ok (Some (PyStr.join
                    [if swift then "- Parameter " else lowered; name;
                     if swift then ":" else ""; " "]))
    end
  else if String.eqb group "commandDrop" then
    Ok (Some (if swift then "" else lowered))
  else if String.eqb group "commandCapitalise" then
    Ok (Some (if swift
              then String.append "- "
                     (String.append (capitalize value) ": ")
              else lowered))
  else if String.eqb group "commandReturn" then
    Ok (Some (if swift then "- Returns: " else lowered))
  else if String.eqb group "commandIgnore" then Ok None
  else Raise AssertionError.

End AtCommand.

(** ** output_tree.py *)

Module OutputTree.

Import AtCommand.

(** An [output] element as [_indent_outputs] makes it and as
    [_at_command_hanging] changes it: the [hanging] attribute, the text, the
    [atPrefix] attribute, and whether a [warning] child was inserted. *)
Record Output : Type := mkOutput {
  o_hanging : option nat;
  o_text : string;
  o_atPrefix : option string;
  o_warning : bool
}.

(** [_at_command_hanging(element, swift)]: the value returned and the
    element as it is left. *)
Definition at_command_hanging (element : Output) (swift : bool)
    : result (option nat * Output) :=
  match o_hanging element with
  | None => Ok (None, element)
  | Some hanging =>
      match atCommand (PyStr.drop hanging (o_text element)) with
      | None =>
          if PyStr.startswith "@" (o_text element)
          then Ok (Some hanging,
                   mkOutput (o_hanging element) (o_text element)
                     (o_atPrefix element) true)
          else Ok (Some hanging, element)
      | Some m =>
          if negb (PyStr.startswith "command" (at_group m))
          then Raise AssertionError
          else
            p <- prefix_of swift m ;;
            match p with
            | None => Ok (Some hanging, element)
            | Some prefix =>
                Ok (Some (hanging + String.length prefix),
                    mkOutput (o_hanging element)
                      (PyStr.join
                         [PyStr.take hanging (o_text element); prefix;
                          PyStr.drop (at_end m)
                            (PyStr.drop hanging (o_text element))])
                      (Some prefix) (o_warning element))
            end
      end
  end.

Section Write.

(** What the stages from [manipulate_comment_lines] to
    [_comment_outputs] make [write_lines] write for a [comment] element.
    An element without children goes through these stages as it is. *)
Variable comment_outputs :
  nat -> list CommentTree.Analysed -> result (list string).

(** [write_lines]: what is written to the writer. *)
Fixpoint write_lines (l : list CommentTree.Block) : result (list string) :=
  match l with
  | [] => Ok []
  | CommentTree.Line_ e :: rest =>
      more <- write_lines rest ;;
      Ok (CommentTree.l_text e :: more)
  | CommentTree.Comment lineFirst lines :: rest =>
      out <- comment_outputs lineFirst lines ;;
      more <- write_lines rest ;;
      Ok (out ++ more)
  end.

End Write.

End OutputTree.

(** ** comment_block.py: the legacy path *)

Module CommentBlock.

Import AtCommand.

(** The line types of comment_line.py. *)
Inductive CommentLineType : Type := START | CONTINUE | FINISH.

(** An item of the legacy stream: a [SourceLine], whose [lineType] is
    [None], or a [CommentLine]. *)
Record CommentLine : Type := mkCommentLine {
  lineNumber : nat;
  lineType : CommentLineType;
  indent : option nat;
  symbol : option string;
  margin : option nat;
  text : option string;
  eol : option string
}.

Inductive Item : Type :=
| Source (lineNumber : nat) (line : string)
| Comment (c : CommentLine).

(** What [read] yields: an item passed on, or the lines handed to the
    constructor of [CommentBlock]. *)
Inductive Yield : Type :=
| Passed (lineNumber : nat) (line : string)
| Block (lines : list CommentLine).

Definition is_finish (t : CommentLineType) : bool :=
  match t with FINISH => true | _ => false end.

(** The body of the loop of [CommentBlock.read]. *)
Definition read_turn (comment : option (list CommentLine)) (item : Item)
    : list Yield * option (list CommentLine) :=
  match item with
  | Comment c =>
      let lines :=
        match comment with
        | None => []
        | Some l => l
        end in
      if is_finish (lineType c)
      then ([Block (lines ++ [c])], None)
      else ([], Some (lines ++ [c]))
  | Source n line =>
      match comment with
      | Some lines => ([Block lines; Passed n line], None)
      | None => ([Passed n line], None)
      end
  end.

Fixpoint read_from (comment : option (list CommentLine)) (l : list Item)
    : list Yield :=
  match l with
  | [] =>
      match comment with
      | Some lines => [Block lines]
      | None => []
      end
  | item :: rest =>
      let '(yielded, comment') := read_turn comment item in
      yielded ++ read_from comment' rest
  end.

Definition read (l : list Item) : list Yield := read_from None l.

(** [_at_line(line)]: the pair returned and whether the warning was
    printed. *)
Definition at_line (swiftSource : bool) (line : string)
    : result (option string * string * bool) :=
  match atCommand line with
  | None => Ok (None, line, PyStr.startswith "@" line)
  | Some m =>
      p <- prefix_of swiftSource m ;;
      match p with
      | None => Ok (None, line, false)
      | Some prefix => Ok (Some prefix, PyStr.drop (at_end m) line, false)
      end
  end.

End CommentBlock.

(** ** processing.py *)

Module Processing.

Section Outputs.

Variable comment_outputs :
  nat -> list CommentTree.Analysed -> result (list string).

(** [path_to_comments] up to [comment_blocks], with the tab size of four
    that it passes to [read_lines]. *)
Definition path_to_comments (lines : list string)
    : option (result (list CommentTree.Block)) :=
  match CommentTree.read_lines 4 lines with
  | Some (Ok items) => Some (Ok (CommentTree.comment_blocks items))
  | Some (Raise e) => Some (Raise e)
  | None => None
  end.

(** [comments_to_outputs] after [path_to_comments]: what is written to
    the temporary file that replaces the source file. *)
Definition outputs (lines : list string) : option (result (list string)) :=
  match path_to_comments lines with
  | Some (Ok blocks) => Some (OutputTree.write_lines comment_outputs blocks)
  | Some (Raise e) => Some (Raise e)
  | None => None
  end.

End Outputs.

End Processing.

(** ** comment_line.py: the properties of [CommentLine] *)

Module CommentLine.

Import CommentBlock.

Definition opt_str (o : option string) : string :=
  match o with
  | Some x => x
  | None => ""
  end.

(** [s.count(' ')] *)
Fixpoint count_spaces (s : string) : nat :=
  match s with
  | EmptyString => 0
  | String c t => (if Ascii.eqb c " " then 1 else 0) + count_spaces t
  end.

(** The getter of [indentStr]. *)
Definition indentStr (line : CommentLine) : option string :=
  option_map PyStr.spaces (indent line).

(** The setter of [indentStr]. *)
Definition set_indentStr (line : CommentLine) (value : option string)
    : result CommentLine :=
  match value with
  | None =>
      Ok (mkCommentLine (lineNumber line) (lineType line) None
            (symbol line) (margin line) (text line) (eol line))
  | Some s =>
      if negb (Nat.eqb (String.length s) (count_spaces s))
      then Raise ValueError
      else Ok (mkCommentLine (lineNumber line) (lineType line)
                 (Some (String.length s)) (symbol line) (margin line)
                 (text line) (eol line))
  end.

(** The getter of [marginStr]. *)
Definition marginStr (line : CommentLine) : option string :=
  option_map PyStr.spaces (margin line).

(** The getter of [textEOL]. *)
Definition textEOL (line : CommentLine) : option string :=
  match text line, eol line with
  | None, None => None
  | t, e => Some (String.append (opt_str t) (opt_str e))
  end.

(** The setter of [textEOL]: the value is cut where the pattern of the
    trailing carriage returns and line feeds matches. *)
Definition set_textEOL (line : CommentLine) (value : option string)
    : CommentLine :=
  match value with
  | None =>
      mkCommentLine (lineNumber line) (lineType line) (indent line)
        (symbol line) (margin line) None None
  | Some s =>
      let start := SlashStarsParser.eol_start s in
      mkCommentLine (lineNumber line) (lineType line) (indent line)
        (symbol line) (margin line)
        (Some (PyStr.take start s)) (Some (PyStr.drop start s))
  end.

(** What a line stands for in the source file: the strings that
    [write_replacement] writes for a line, with its text. *)
Definition content (line : CommentLine) : string :=
  PyStr.join
    [opt_str (indentStr line); opt_str (symbol line);
     opt_str (marginStr line); opt_str (text line); opt_str (eol line)].

(** The second loop of [CommentBlock._shuffle], on one line whose type
    is [CONTINUE], when not all lines have a symbol. *)
Definition shuffle (indentStart : nat) (line : CommentLine) : CommentLine :=
  let indentLoss :=
    match indent line with
    | Some i => if Nat.ltb (indentStart + 1) i
                then i - (indentStart + 1) else 0
    | None => 0
    end in
  let indent1 := option_map (fun i => i - indentLoss) (indent line) in
  let symbol1 := opt_str (symbol line) in
  let margin1 :=
    match margin line with
    | Some m => m
    | None => 0
    end in
  if Nat.eqb indentLoss 0 && String.eqb symbol1 "" && Nat.eqb margin1 0
  then mkCommentLine (lineNumber line) (lineType line) indent1
         (symbol line) (margin line) (text line) (eol line)
  else mkCommentLine (lineNumber line) (lineType line) indent1 None None
         (Some (PyStr.join
                  [PyStr.spaces indentLoss; symbol1; PyStr.spaces margin1;
                   opt_str (text line)]))
         (eol line).

End CommentLine.

(** ** comment_tree.py: [_shuffle_lines] *)

Module CommentShuffle.

Import CommentTree.

Definition ET_text (c : Child) : string :=
  match c_text c with
  | Some t => t
  | None => ""
  end.

Definition ET_tail (c : Child) : string :=
  match c_tail c with
  | Some t => t
  | None => ""
  end.

Definition ET_text_len (c : Child) : nat :=
  match c_text c with
  | Some t => String.length t
  | None => 0
  end.

(** The body of the loop of [_shuffle_lines], on one line whose [part]
    is [continue].  [indentLossNeg] is negative when the indent is longer
    than [indentStart + 1]; the slices from and to a negative index take
    and leave that many characters at the end.  The [shuffles] attribute,
    which is set for the record, is left out. *)
Definition shuffle_line (indentStart : nat) (line : Analysed) : Analysed :=
  let indentLen := ET_text_len (a_indent line) in
  let negative := Nat.ltb (indentStart + 1) indentLen in
  let kept := indentLen - (indentLen - (indentStart + 1)) in
  let moved :=
    if negative then PyStr.drop kept (ET_text (a_indent line)) else "" in
  mkAnalysed (a_number line) (a_part line)
    (mkChild
       (if negative then Some (PyStr.take kept (ET_text (a_indent line)))
        else c_text (a_indent line))
       (c_tail (a_indent line)))
    (mkChild None (c_tail (a_symbol line)))
    (mkChild None
       (Some (PyStr.join
                [moved; ET_text (a_symbol line); ET_text (a_margin line);
                 ET_tail (a_margin line)])))
    (a_eol line).

(** [_shuffle_lines(element, indentStart)] on the lines of a comment. *)
Definition shuffle_lines (indentStart : nat) (lines : list Analysed)
    : list Analysed :=
  map (fun line =>
         if String.eqb (a_part line) "continue"
         then shuffle_line indentStart line
         else line) lines.

End CommentShuffle.

(** ** output_tree.py: [_text_outputs] *)

Module OutputTexts.

(** [re.sub(r'\s+', ' ', text)], from a place after a white space or
    not. *)
Fixpoint collapse (inSpace : bool) (s : string) : string :=
  match s with
  | EmptyString => EmptyString
  | String c t =>
      if PyStr.isspace c then
        if inSpace then collapse true t else String " " (collapse true t)
      else String c (collapse false t)
  end.

(** [_text_outputs(element)]: the text and the [verbatim] attribute of
    each [output] element yielded. *)
Definition text_outputs (text verbatim : option string)
    : list (string * option string) :=
  match text with
  | None => []
  | Some t =>
      match verbatim with
      | None => [(collapse false t, None)]
      | Some v => [(t, Some v)]
      end
  end.

End OutputTexts.

(** ** markdown_tree.py: [join_texts] and [strip_leading_newlines] *)

Module MarkdownTexts.

Import ET.

Definition is_text (e : Element) : bool := String.eqb (tag e) "text".

Definition opt_list (o : option Element) : list Element :=
  match o with
  | Some e => [e]
  | None => []
  end.

(** The loop over the children of [found] in [join_texts], from the
    child at [index] on: the children that are left when those in
    [removals] are deleted, and [removals], with the text of each,
    highest index first.  [consolidated] is an element of the list, so
    that its text is changed in the list. *)
Fixpoint join_loop (index : nat) (l : list Element)
    (consolidated : option Element) (removals : list (nat * option string))
    : result (list Element * list (nat * option string)) :=
  match l with
  | [] => Ok (opt_list consolidated, removals)
  | child :: rest =>
      if is_text child then
        match consolidated with
        | None => join_loop (S index) rest (Some child) removals
        | Some c =>
            match text c, text child with
            | Some a, Some b =>
                join_loop (S index) rest
                  (Some (set_text c (Some (String.append a b))))
                  ((index, text child) :: removals)
            | _, _ => Raise TypeError
            end
        end
      else
        r <- join_loop (S index) rest None removals ;;
        Ok (opt_list consolidated ++ child :: fst r, snd r)
  end.

Section Join.

(** [str([[removal, found[removal].text] for removal in removals])] *)
Variable str_removals : list (nat * option string) -> string.

(** The body of the loop of [join_texts] over the elements found, on
    one of them. *)
Definition join_found (found : Element) : result Element :=
  r <- join_loop 0 (children found) None [] ;;
  match snd r with
  | [] => Ok found
  | removals =>
      Ok (set_children (set found "consolidated" (str_removals removals))
            (fst r))
  end.

End Join.

(** The body of the loop of [strip_leading_newlines], on the children
    of a paragraph: the first child with the tag [text] loses the
    carriage returns and line feeds that its text starts with. *)
Fixpoint strip_first_text (l : list Element) : list Element :=
  match l with
  | [] => []
  | c :: rest =>
      if is_text c then
        match text c with
        | None => l
        | Some t =>
            let stripped := PyStr.lstrip_by PyStr.is_eol t in
            if String.eqb stripped t then l
            else
              set_text
                (set c "stripped"
                   (DocGetter.str_of_nat
                      (String.length t - String.length stripped)))
                (Some stripped) :: rest
        end
      else c :: strip_first_text rest
  end.

End MarkdownTexts.

(** ** doctor_class.py: [add_fragment], and the lines of a text file *)

Module Doctor.

(** [f"line-{startLine}-{finishLine}"] *)
Definition fragment_name (startLine finishLine : nat) : string :=
  String.append "line-"
    (String.append (DocGetter.str_of_nat startLine)
       (String.append "-" (DocGetter.str_of_nat finishLine))).

(** [add_fragment(path, startLine, finishLine, texts)] with a path and
    without [dryRun]: the name that it returns, and the content of the
    extract file after it has appended to it. *)
Definition add_fragment (startLine finishLine : nat) (texts : string)
    (file : string) : string * string :=
  let fragment := fragment_name startLine finishLine in
  (fragment,
   String.append file
     (PyStr.join ["# "; fragment; PyStr.LF; texts; PyStr.LF])).

(** The extract file after the fragments of a list were added, each
    with its first line, its last line and its texts. *)
Fixpoint add_fragments (l : list (nat * nat * string)) (file : string)
    : string :=
  match l with
  | [] => file
  | (startLine, finishLine, texts) :: rest =>
      add_fragments rest (snd (add_fragment startLine finishLine texts file))
  end.

(** The lines that reading a text file gives, for a content without
    carriage returns: each line ends with its line feed, but perhaps the
    last one. *)
Fixpoint file_lines (content : string) : list string :=
  match content with
  | EmptyString => []
  | String c t =>
      if Nat.eqb (nat_of_ascii c) 10 then String c EmptyString :: file_lines t
      else
        match file_lines t with
        | [] => [String c EmptyString]
        | l :: ls => String c l :: ls
        end
  end.

End Doctor.

(** ** markdown_tree.py: resolve_splitters *)

Module Splitters.

Import ET MarkdownTree.

(** [ET_grandparent(element, xpath)] for an [xpath] that is a condition
    on one element, as [*[@splitter="True"]] is: the path of the
    grandparent, the index of the parent in it, and the index of the found
    element in the parent. *)
Definition ET_grandparent_by (pred : Element -> bool) (element : Element)
    : result (option (path * nat * nat)) :=
  match find_desc2 pred element with
  | None => Ok None
  | Some p =>
      let gp := removelast (removelast p) in
      match get_at gp element with
      | None => Raise AssertionError
      | Some grandparent =>
          match find_index (fun c => existsb pred (children c))
                  (children grandparent) with
          | None => Raise AssertionError
          | Some parentIndex =>
              match nth_error (children grandparent) parentIndex with
              | None => Raise AssertionError
              | Some parent =>
                  match find_index pred (children parent) with
                  | None => Raise AssertionError
                  | Some index => Ok (Some (gp, parentIndex, index))
                  end
              end
          end
      end
  end.

(** The pattern [*[@splitter="True"]]. *)
Definition is_splitter (e : Element) : bool := attr_is "splitter" "True" e.

Section Split.

(** [ET.tostring(element, encoding="unicode")] *)
Variable ET_string : Element -> string.

(** The body of the [while True] loop of [resolve_splitters], from the
    indices on: the new grandparent. *)
Definition split_at (parentIndex splitterIndex : nat) (grandparent : Element)
    : result Element :=
  match nth_error (children grandparent) parentIndex with
  | None => Raise ValueError
  | Some parent =>
      match nth_error (children parent) splitterIndex with
      | None => Raise ValueError
      | Some splitter =>
          let splitter1 := set splitter "splitter" "False" in
          let kids := replace_nth splitterIndex splitter1 (children parent) in
          let parent1 :=
            set (set_children parent kids) "split"
              (String.append (DocGetter.str_of_nat splitterIndex)
                 (String.append " " (ET_string splitter1))) in
          if Nat.ltb 0 splitterIndex then
            match nth_error kids (splitterIndex - 1) with
            | None => Raise IndexError
            | Some before =>
                let parent2 :=
                  set parent1 "split"
                    (String.append (DocGetter.str_of_nat splitterIndex)
                       (String.append " " (ET_string before))) in
                let splitParent :=
                  ET_copy_attr parent2
                    (set (Elem (tag parent) [] None
                            (skipn splitterIndex kids)) "split" "new")
                    ["newlines"] in
                let parent3 :=
                  set_children parent2 (firstn splitterIndex kids) in
                Ok (set_children grandparent
                      (insert_at (S parentIndex) splitParent
                         (replace_nth parentIndex parent3
                            (children grandparent))))
            end
          else
            Ok (set_children grandparent
                  (replace_nth parentIndex parent1 (children grandparent)))
      end
  end.

Fixpoint resolve_splitters_loop (fuel : nat) (element : Element)
    : option (result Element) :=
  match fuel with
  | 0 => None
  | S fuel' =>
      match ET_grandparent_by is_splitter element with
      | Raise e => Some (Raise e)
      | Ok None => Some (Ok element)
      | Ok (Some (gp, parentIndex, splitterIndex)) =>
          match update_at (split_at parentIndex splitterIndex) gp element with
          | Raise e => Some (Raise e)
          | Ok element' => resolve_splitters_loop fuel' element'
          end
      end
  end.

(** [resolve_splitters] on one element of the iterator.  Each turn of
    the loop sets the attribute of one splitter to [False], so there are
    at most as many turns as splitters. *)
Definition resolve_splitters (element : Element) : option (result Element) :=
  resolve_splitters_loop
    (S (count_if is_splitter (descendants element))) element.

End Split.

End Splitters.

(** ** comment_tree.py: [_shuffle_comment] and [_analyse_indentation] *)

Module CommentManipulate.

Import CommentTree CommentShuffle.

(** The [for character in ET_tail(line[2])] loop: [spaceOnly]. *)
Definition space_only (s : string) : bool :=
  forallb (fun c => Ascii.eqb c " ") (list_ascii_of_string s).

(** A line that [_analyse_indentation] passes over: a blank or
    space-only line of a comment in which not all lines have a symbol.
    The [spaceOnly] attribute, which is set for the record, is left
    out. *)
Definition passed_over (allHaveSymbol : bool) (line : Analysed) : bool :=
  negb allHaveSymbol && Nat.eqb (ET_text_len (a_symbol line)) 0
  && space_only (ET_tail (a_margin line)).

(** The loop of [_analyse_indentation] over the lines, from a value of
    [indentContinue]: [allIndentedOK] and [indentContinue]. *)
Fixpoint analyse_indentation_from (allHaveSymbol : bool) (indentStart : nat)
    (indentContinue : option nat) (lines : list Analysed)
    : bool * option nat :=
  match lines with
  | [] => (true, indentContinue)
  | line :: rest =>
      if negb (String.eqb (a_part line) "continue")
      then analyse_indentation_from allHaveSymbol indentStart
             indentContinue rest
      else if passed_over allHaveSymbol line
      then analyse_indentation_from allHaveSymbol indentStart
             indentContinue rest
      else
        let indentLen := ET_text_len (a_indent line) in
        match indentContinue with
        | None =>
            if Nat.eqb indentLen indentStart
               || Nat.eqb indentLen (indentStart + 1)
            then analyse_indentation_from allHaveSymbol indentStart
                   (Some indentLen) rest
            else (false, None)
        | Some k =>
            if negb (Nat.eqb indentLen k) then (false, Some k)
            else analyse_indentation_from allHaveSymbol indentStart
                   (Some k) rest
        end
  end.

Definition analyse_indentation (allHaveSymbol : bool) (indentStart : nat)
    (lines : list Analysed) : bool * option nat :=
  analyse_indentation_from allHaveSymbol indentStart None lines.

(** What [_shuffle_comment] leaves: the lines, and the attributes that
    it sets on the comment element. *)
Record Shuffled : Type := mkShuffled {
  s_lines : list Analysed;
  s_indentStart : nat;
  s_allHaveSymbol : bool;
  s_allIndentedOK : bool;
  s_indentContinue : option nat;
  s_lineLast : nat
}.

(** [_shuffle_comment(commentElement, linesElement)], on the value of
    [lineFirst] and the children of the [lines] element.  Every child has
    an [indent] child first and a [number] attribute. *)
Definition shuffle_comment (lineFirst : nat) (lines : list Analysed)
    : result Shuffled :=
  match lines with
  | [] => Raise AssertionError
  | first :: _ =>
      let indentStart := ET_text_len (a_indent first) in
      let allHaveSymbol :=
        negb (existsb (fun l => String.eqb (ET_text (a_symbol l)) "")
                lines) in
      let lines1 :=
        if allHaveSymbol then lines else shuffle_lines indentStart lines in
      let '(allIndentedOK, indentContinue) :=
        analyse_indentation allHaveSymbol indentStart lines1 in
      Ok (mkShuffled lines1 indentStart allHaveSymbol allIndentedOK
            indentContinue (last (map a_number lines1) lineFirst))
  end.

End CommentManipulate.

(** ** comment_tree.py: [write_replacement] *)

Module Replacement.

Import CommentTree CommentShuffle.

(** [commentElement.find(".//*[@part='...']/child")]: the first such
    child of the lines with the part, in order. *)
Definition find_part_child (part : string)
    (child : Analysed -> option Child) (lines : list Analysed)
    : option Child :=
  hd_error
    (flat_map
       (fun l =>
          if String.eqb (a_part l) part
          then match child l with
               | Some c => [c]
               | None => []
               end
          else [])
       lines).

(** [ET_text] of what [find] returned: [None] has no attribute
    [text]. *)
Definition found_text (found : option Child) : result string :=
  match found with
  | Some c => Ok (ET_text c)
  | None => Raise AttributeError
  end.

(** [tuple(_replacement_components(commentElement, path, fragment))]:
    the strings that [write_replacement] writes, all or none. *)
Definition replacement_components (lines : list Analysed)
    (path fragment : string) : result (list string) :=
  startIndent <-
    found_text (find_part_child "start" (fun l => Some (a_indent l)) lines) ;;
  startSymbol <-
    found_text (find_part_child "start" (fun l => Some (a_symbol l)) lines) ;;
  startMargin <-
    found_text (find_part_child "start" (fun l => Some (a_margin l)) lines) ;;
  startEOL <- found_text (find_part_child "start" a_eol lines) ;;
  finishIndent <-
    found_text (find_part_child "finish" (fun l => Some (a_indent l)) lines) ;;
  finishSymbol <-
    found_text (find_part_child "finish" (fun l => Some (a_symbol l)) lines) ;;
  Ok [startIndent; startSymbol; startMargin; "[doc://"; path; "#"; fragment;
      "]"; startEOL; finishIndent; finishSymbol].

End Replacement.

(** ** mistree.py: [split_elements] and [TreeRenderer.text] *)

Module Mistree.

Import ET.

(** The alternatives of [patternAtCommand] after the at sign, in the
    order in which the expression tries them; [returns?] takes the [s]
    when it is there. *)
Definition keywords : list string :=
  ["returns"; "return"; "param"; "brief"; "description"; "details";
   "version"].

(** The length of the match of [patternAtCommand] at the start of a
    string. *)
Definition at_command_at (s : string) : option nat :=
  match s with
  | String c t =>
      if Ascii.eqb c "@"
      then option_map (fun k => S (String.length k))
             (find (fun k => PyStr.startswith k t) keywords)
      else None
  | EmptyString => None
  end.

Fixpoint search_from (s : string) (i : nat) : option (nat * nat) :=
  match at_command_at s with
  | Some n => Some (i, i + n)
  | None =>
      match s with
      | String _ t => search_from t (S i)
      | EmptyString => None
      end
  end.

(** [patternAtCommand.search(text)]: the span of the group
    [at_command], which is the only named group and the whole match. *)
Definition patternAtCommand (text : string) : option (nat * nat) :=
  search_from text 0.

Section Split.

(** [regularExpression.search], for an expression with one named group,
    whose name starts with the one tag: the span of the group. *)
Variable search : string -> option (nat * nat).

(** [split_elements(text, 'text', regularExpression, ['at_command'])],
    without tailing.  The recursion is on the text after the match, on
    fuel. *)
Fixpoint split_elements (fuel : nat) (text : string)
    : option (list Element) :=
  match fuel with
  | 0 => None
  | S fuel' =>
      let first := set (Elem "text" [] None []) "layout" "span" in
      match search text with
      | None =>
          Some (if String.eqb text "" then []
                else [set_text first (Some text)])
      | Some (start, end_) =>
          let elementText := PyStr.take start text in
          let matched :=
            set (Elem "at_command" [] 
                   (if Nat.ltb start end_
                    then Some (PyStr.take (end_ - start)
                                 (PyStr.drop start text))
                    else None) [])
              "layout" "span" in
          let transcript :=
            PyStr.join
              ["text:'"; text; "' groups:at_command at_command:";
               DocGetter.str_of_nat start; ",";
               DocGetter.str_of_nat end_] in
          match split_elements fuel' (PyStr.drop end_ text) with
          | None => None
          | Some more =>
              Some (if String.eqb elementText ""
                    then set matched "transcript" transcript :: more
                    else set (set_text first (Some elementText))
                           "transcript" transcript
                         :: matched :: more)
          end
      end
  end.

End Split.

(** [TreeRenderer.text(text)] *)
Definition TreeRenderer_text (text : string) : option (list Element) :=
  split_elements patternAtCommand (S (String.length text)) text.

End Mistree.

(** * Properties *)

(** ** Strings *)

Section StringFacts.

Lemma take_drop (n : nat) (s : string) :
  String.append (PyStr.take n s) (PyStr.drop n s) = s.
Proof.
  revert s; induction n as [|n IH]; intros [|c t]; simpl; auto.
  now rewrite IH.
Qed.

Lemma append_nil_r (s : string) : String.append s "" = s.
Proof. induction s; simpl; congruence. Qed.

Lemma append_assoc (a b c : string) :
  String.append (String.append a b) c = String.append a (String.append b c).
Proof. induction a; simpl; congruence. Qed.

Lemma drop_drop (a b : nat) (s : string) :
  PyStr.drop b (PyStr.drop a s) = PyStr.drop (a + b) s.
Proof.
  revert s; induction a as [|a IH]; intros s; simpl; auto.
  destruct s; simpl; auto. now destruct b.
Qed.

Lemma take_take_drop (a b : nat) (s : string) :
  String.append (PyStr.take a s) (PyStr.take b (PyStr.drop a s))
  = PyStr.take (a + b) s.
Proof.
  revert s; induction a as [|a IH]; intros s; simpl; auto.
  destruct s; simpl; [now destruct b|]. now rewrite IH.
Qed.

Lemma length_append (a b : string) :
  String.length (String.append a b) = String.length a + String.length b.
Proof. induction a; simpl; auto. Qed.

Lemma length_drop (n : nat) (s : string) :
  String.length (PyStr.drop n s) = String.length s - n.
Proof.
  revert s; induction n as [|n IH]; intros [|c t]; simpl; auto.
Qed.

Lemma join_cons (x : string) (l : list string) :
  PyStr.join (x :: l) = String.append x (PyStr.join l).
Proof.
  unfold PyStr.join. destruct l; simpl; auto. now rewrite append_nil_r.
Qed.

Lemma join_app (l1 l2 : list string) :
  PyStr.join (l1 ++ l2) = String.append (PyStr.join l1) (PyStr.join l2).
Proof.
  induction l1 as [|x l1 IH]; auto.
  change ((x :: l1) ++ l2) with (x :: (l1 ++ l2)).
  now rewrite !join_cons, IH, append_assoc.
Qed.

End StringFacts.

(** ** Content files and the cache (getter.py) *)

Section GetterFacts.

Import DocGetter.

(** C8, at the input where the code and the claim part.  A fragment that
    ends at the next header line has the end of line of its last body
    line stripped; the same fragment ending at the end of the file keeps
    it: that branch of [Cache.read] yields the lines as they were read. *)
Theorem Cache_read_last_fragment_keeps_eol :
  Cache_read "notes.md"
    [String.append "# intro" PyStr.LF; String.append "Hello world" PyStr.LF]
  = [mkCache "notes.md" "intro" [String.append "Hello world" PyStr.LF]]
  /\ Cache_read "notes.md"
       [String.append "# intro" PyStr.LF;
        String.append "Hello world" PyStr.LF;
        String.append "# next" PyStr.LF]
     = [mkCache "notes.md" "intro" ["Hello world"];
        mkCache "notes.md" "next" []].
Proof. split; reflexivity. Qed.

Variable files : string -> option (list string).



Lemma search_some_acc frag l c0 :
  exists c, search frag None l (Some c0) = Some c.
Proof.
  revert c0; induction l as [|c l IH]; intros c0; simpl; eauto.
  destruct (_ && _); apply IH.
Qed.


Lemma mem_In x l : mem x l = true <-> In x l.
Proof.
  unfold mem. rewrite existsb_exists. split.
  - intros [y [Hy E]]. apply String.eqb_eq in E. now subst.
  - intros H. exists x. split; auto. apply String.eqb_refl.
Qed.

(** What the loop of [load_file] does to the state when it ends. *)
Lemma load_caches_ok path caches seen st st' :
  load_caches path caches seen st = Ok st' ->
  cachedFragments st' = rev caches ++ cachedFragments st
  /\ cachedFiles st' = cachedFiles st ++ repeat path (List.length caches)
  /\ NoDup (map fragment caches).
Proof.
  revert seen st. induction caches as [|c caches IH]; intros seen st H.
  - simpl in H. inversion H; subst. simpl. rewrite app_nil_r.
    repeat split; auto. constructor.
  - simpl in H. destruct (mem (fragment c) seen) eqn:Em; [discriminate|].
    destruct (IH _ _ H) as (Hf & Hp & Hnd). simpl in Hf, Hp.
    repeat split.
    + rewrite Hf. simpl. now rewrite <- app_assoc.
    + rewrite Hp. simpl. now rewrite <- app_assoc.
    + simpl. constructor; auto.
      intros Hin. apply in_map_iff in Hin as (c' & Ec & Hc').
      clear - H Ec Hc'. revert seen st H.
      assert (G : forall rest seen st,
                 In c' rest -> mem (fragment c') seen = true ->
                 load_caches path rest seen st <> Ok st').
      { induction rest as [|r rest IHr]; intros seen st Hin Hm; [easy|].
        simpl. destruct Hin as [->|Hin].
        - now rewrite Hm.
        - destruct (mem (fragment r) seen); [easy|].
          apply IHr; auto. apply mem_In. apply in_or_app. left.
          now apply mem_In. }
      intros seen st H. apply (G caches _ _ Hc') in H; auto.
      apply mem_In. apply in_or_app. right. rewrite Ec. simpl; auto.
Qed.






Variable urlparse : string -> ParseResult.
Variable file_path : bool -> option string -> string -> result string.


End GetterFacts.



(** ** At-commands (output_tree.py and comment_block.py) *)

Section AtCommandFacts.

Import SlashStarsParser AtCommand OutputTree.

(** The prefix that the specification gives for a keyword: in the
    convention of Doxygen an at sign, the keyword and a space, and for a
    parameter its name and a space more; in the convention of Swift
    nothing for the keywords that are dropped, and the list items
    [Returns], [Version] and [Parameter] for the others. *)
Definition spec_prefix (swift : bool) (keyword : string)
    (name : option string) : string :=
  let n := match name with Some x => x | None => "" end in
  if swift then
    if String.eqb keyword "return" then "- Returns: "
    else if String.eqb keyword "version" then "- Version: "
    else if String.eqb keyword "param"
    then String.append "- Parameter " (String.append n ": ")
    else ""
  else
    String.append "@"
      (String.append keyword
         (String.append " "
            (if String.eqb keyword "param" then String.append n " "
             else ""))).

Lemma keyword_spaces_some kw r n :
  keyword_spaces kw r = Some n ->
  PyStr.startswith kw r = true.
Proof.
  unfold keyword_spaces. destruct (PyStr.startswith kw r); [auto|easy].
Qed.

Lemma first_some_two {A : Type} (a b : option A) x :
  first_some [a; b] = Some x -> a = Some x \/ b = Some x.
Proof. destruct a; simpl; auto; destruct b; simpl; auto. Qed.

Lemma prefix_shorter a b s :
  String.prefix (String.append a b) s = true -> String.prefix a s = true.
Proof.
  revert s; induction a as [|c a IH]; intros [|d s] H; simpl in *; auto.
  destruct (Ascii.ascii_dec c d); [eauto|easy].
Qed.

Lemma prefix_drop1 c r s :
  PyStr.startswith (String c EmptyString) s = true ->
  PyStr.startswith r (PyStr.drop 1 s) = true ->
  PyStr.startswith (String c r) s = true.
Proof.
  unfold PyStr.startswith. destruct s as [|d s]; simpl; [easy|].
  destruct (Ascii.ascii_dec c d); [|easy]. now destruct s.
Qed.

(** The groups that a match of [atCommand] can have, with the value of
    the command group, and the text that was matched. *)
Inductive recognised (line : string) : AtMatch -> Prop :=
| rec_drop keyword n :
    In keyword ["brief"; "description"; "details"] ->
    PyStr.startswith (String.append "@" keyword) line = true ->
    recognised line (mkAtMatch "commandDrop" keyword None n)
| rec_return n :
    PyStr.startswith "@return" line = true ->
    recognised line (mkAtMatch "commandReturn" "return" None n)
| rec_version n :
    PyStr.startswith "@version" line = true ->
    recognised line (mkAtMatch "commandCapitalise" "version" None n)
| rec_param name n :
    PyStr.startswith "@param" line = true ->
    recognised line (mkAtMatch "commandParameter" "param" (Some name) n)
| rec_file n :
    PyStr.startswith "@file" line = true ->
    recognised line (mkAtMatch "commandIgnore" "file" None n).

Lemma atCommand_recognised line m :
  atCommand line = Some m -> recognised line m.
Proof.
  unfold atCommand. destruct (PyStr.startswith "@" line) eqn:Eat; [|easy].
  set (r := PyStr.drop 1 line).
  assert (P : forall kw n, keyword_spaces kw r = Some n ->
              PyStr.startswith (String "@" kw) line = true).
  { intros kw n H. apply prefix_drop1; auto.
    eapply keyword_spaces_some; eauto. }
  remember (first_some [keyword_spaces "parameter" r;
                        keyword_spaces "param" r]) as pp eqn:E7.
  remember (first_some [keyword_spaces "returns" r;
                        keyword_spaces "return" r]) as rr eqn:E4.
  symmetry in E7, E4.
  simpl first_some.
  destruct (keyword_spaces "brief" r) eqn:E1; simpl.
  { intros H; inversion H; subst. apply rec_drop; simpl; eauto. }
  destruct (keyword_spaces "description" r) eqn:E2; simpl.
  { intros H; inversion H; subst. apply rec_drop; simpl; eauto. }
  destruct (keyword_spaces "details" r) eqn:E3; simpl.
  { intros H; inversion H; subst. apply rec_drop; simpl; eauto 6. }
  destruct rr as [n|]; simpl.
  { intros H; inversion H; subst. apply rec_return.
    apply first_some_two in E4 as [E4|E4].
    - apply (prefix_shorter "@return" "s"). simpl. eapply P; eauto.
    - eapply P; eauto. }
  destruct (keyword_spaces "version" r) eqn:E6; simpl.
  { intros H; inversion H; subst. apply rec_version. eapply P; eauto. }
  destruct pp as [n|].
  { destruct (Nat.eqb (span_len is_word (PyStr.drop n r)) 0); simpl.
    - destruct (keyword_spaces "file" r) eqn:E8; simpl; [|easy].
      intros H; inversion H; subst. apply rec_file. eapply P; eauto.
    - intros H; inversion H; subst. apply rec_param.
      apply first_some_two in E7 as [E7|E7].
      + apply (prefix_shorter "@param" "eter"). simpl. eapply P; eauto.
      + eapply P; eauto. }
  simpl. destruct (keyword_spaces "file" r) eqn:E8; simpl; [|easy].
  intros H; inversion H; subst. apply rec_file. eapply P; eauto.
Qed.

(** C5.  For a text that starts, after the hanging indent, with an
    at-command of the groups that are rewritten, the prefix that
    [_at_command_hanging] puts in its place is the one of the
    specification for the keyword captured, in both conventions; the
    legacy [_at_line] returns the same prefix. *)
Theorem at_command_prefix
    (swift : bool) (element : Output) (hanging : nat) (m : AtMatch) :
  o_hanging element = Some hanging ->
  atCommand (PyStr.drop hanging (o_text element)) = Some m ->
  at_group m <> "commandIgnore" ->
  let line := PyStr.drop hanging (o_text element) in
  let prefix := spec_prefix swift (at_value m) (at_name m) in
  In (at_value m)
     ["brief"; "description"; "details"; "return"; "version"; "param"]
  /\ PyStr.startswith (String.append "@" (at_value m)) line = true
  /\ (at_value m = "param" <-> at_name m <> None)
  /\ at_command_hanging element swift
     = Ok (Some (hanging + String.length prefix),
           mkOutput (Some hanging)
             (PyStr.join [PyStr.take hanging (o_text element); prefix;
                          PyStr.drop (at_end m) line])
             (Some prefix) (o_warning element))
  /\ CommentBlock.at_line swift line
     = Ok (Some prefix, PyStr.drop (at_end m) line, false).
Proof.
  intros Hh Hm Hg line prefix. subst line prefix.
  unfold at_command_hanging, CommentBlock.at_line. rewrite Hh, Hm.
  apply atCommand_recognised in Hm.
  destruct Hm as [keyword n Hk Hs|n Hs|n Hs|name n Hs|n Hs]; simpl in *.
  - destruct Hk as [<-|[<-|[<-|[]]]]; destruct swift; simpl;
      repeat split; auto 7; try easy; intros H; discriminate.
  - destruct swift; simpl; repeat split; auto 7; try easy;
      intros H; discriminate.
  - destruct swift; simpl; repeat split; auto 7; try easy;
      intros H; discriminate.
  - destruct swift; simpl; repeat split; auto 7; try easy.
  - now contradiction Hg.
Qed.

(** C5, at an input: the parameter of scenario B in the convention of
    Swift. *)
Lemma at_command_prefix_witness :
  at_command_hanging
    (mkOutput (Some 1) " @parameter foo the foo value" None false) true
  = Ok (Some 18,
        mkOutput (Some 1) " - Parameter foo: the foo value"
          (Some "- Parameter foo: ") false).
Proof.
  exact (proj1 (proj2 (proj2 (proj2
    (at_command_prefix true
       (mkOutput (Some 1) " @parameter foo the foo value" None false)
       (m := mkAtMatch "commandParameter" "param" (Some "foo") 15)
       eq_refl eq_refl
       (fun H => ltac:(discriminate H))))))).
Defined.




End AtCommandFacts.

(** ** The line analyser (parser.py and comment_tree.py) *)

Section LineFacts.

Import SlashStarsParser CommentTree.

Definition opt (o : option string) : string :=
  match o with Some x => x | None => "" end.

(** The text that a child stands for: its text and then its tail. *)
Definition render_child (c : Child) : string :=
  String.append (opt (c_text c)) (opt (c_tail c)).

(** The text that an analysed line stands for: indent, symbol, margin,
    the text of the comment, which is the tail of the margin, and the end
    of line. *)
Definition render_analysed (a : Analysed) : string :=
  String.append (render_child (a_indent a))
    (String.append (render_child (a_symbol a))
       (String.append (render_child (a_margin a))
          (match a_eol a with
           | Some c => render_child c
           | None => ""
           end))).

Definition render_item (i : Item) : string :=
  match i with
  | Plain l => l_text l
  | Part a => render_analysed a
  end.

Definition item_number (i : Item) : nat :=
  match i with
  | Plain l => l_number l
  | Part a => a_number a
  end.

Definition render_items (l : list Item) : string :=
  PyStr.join (map render_item l).

Definition render_scan (sc : Scan) : string :=
  String.append (PyStr.join (sc_texts sc))
    (String.append (render_child (sc_indent sc))
       (String.append (render_child (sc_symbol sc))
          (render_child (sc_margin sc)))).

(** Groups as the three patterns give them: the groups with an element
    come in the order of the elements, and each starts where the one
    before ended or later. *)
Fixpoint ok_groups (cursor : nat) (t : option nat) (groups : list Group)
    : Prop :=
  match groups with
  | [] => True
  | g :: rest =>
      match span_index (g_name g) with
      | None => ok_groups cursor t rest
      | Some i =>
          match t with Some j => j < i | None => True end
          /\ cursor <= g_start g <= g_end g
          /\ ok_groups (g_end g) (Some i) rest
      end
  end.

Definition scan_inv (s : string) (sc : Scan) : Prop :=
  render_scan sc = PyStr.take (sc_cursor sc) s
  /\ match sc_tailElement sc with
     | None =>
         sc_indent sc = no_child /\ sc_symbol sc = no_child
         /\ sc_margin sc = no_child
     | Some t =>
         t <= 2 /\ c_tail (get_kid t sc) = None
         /\ forall j, t < j -> j <= 2 -> get_kid j sc = no_child
     end.

Lemma slice_take (s : string) (a b : nat) :
  a <= b ->
  String.append (PyStr.take a s) (slice s a b) = PyStr.take b s.
Proof.
  intros H. unfold slice. rewrite take_take_drop. f_equal. lia.
Qed.

Lemma span_index_le name i : span_index name = Some i -> i <= 2.
Proof.
  unfold span_index.
  destruct (String.eqb name "indent"); [intros H; inversion H; lia|].
  destruct (PyStr.startswith "symbol" name); [intros H; inversion H; lia|].
  destruct (String.eqb name "margin"); [intros H; inversion H; lia|easy].
Qed.

Ltac kid_cases :=
  repeat match goal with
         | H : forall j, _ < j -> j <= 2 -> get_kid j _ = no_child |- _ =>
             pose proof (H 1); pose proof (H 2); clear H
         end;
  simpl in *;
  repeat match goal with
         | H : ?a < ?b -> ?c <= 2 -> _ |- _ =>
             first [ specialize (H ltac:(lia) ltac:(lia))
                   | clear H ]
         end.

Lemma analyse_groups_inv s groups sc sc' :
  analyse_groups s groups sc = Ok sc' ->
  scan_inv s sc ->
  ok_groups (sc_cursor sc) (sc_tailElement sc) groups ->
  scan_inv s sc'.
Proof.
  revert sc. induction groups as [|g groups IH]; intros sc H Hinv Hok.
  - simpl in H. now inversion H; subst.
  - simpl in H, Hok.
    destruct (span_index (g_name g)) as [i|] eqn:Ei; [|eauto].
    destruct Hok as (Hlt & [Hcs Hse] & Hok).
    destruct (Nat.ltb (g_start g) (sc_cursor sc)) eqn:El;
      [discriminate|].
    pose proof (span_index_le _ Ei) as Hi.
    destruct sc as [ci cs cm t texts cursor]. simpl in *.
    destruct Hinv as [Hr Ht].
    assert (Hslice : forall x,
               String.append (PyStr.take cursor s)
                 (String.append (slice s cursor (g_start g))
                    (String.append
                       (if Nat.ltb (g_start g) (g_end g)
                        then slice s (g_start g) (g_end g) else "") x))
               = String.append (PyStr.take (g_end g) s) x).
    { intros x. rewrite <- !append_assoc. rewrite slice_take by lia.
      destruct (Nat.ltb_spec (g_start g) (g_end g)).
      - rewrite slice_take by lia. reflexivity.
      - replace (g_end g) with (g_start g) by lia.
        now rewrite append_nil_r. }
    specialize (Hslice "").
    rewrite !append_nil_r in Hslice.
    destruct t as [t|].
    + destruct Ht as (Ht2 & Htail & Hrest).
      unfold set_tail in H.
      destruct (c_tail (get_kid t _)) eqn:Etail; [discriminate|].
      simpl in H. eapply IH; [exact H| |exact Hok]. clear H IH Hok.
      unfold scan_inv, render_scan, render_child in *. simpl.
      destruct t as [|[|[|t]]]; try lia;
        destruct i as [|[|[|i]]]; try lia;
        kid_cases;
        destruct ci as [cit cil], cs as [cst csl], cm as [cmt cml];
        simpl in *; subst;
        unfold no_child in *;
        repeat match goal with
               | H : mkChild _ _ = mkChild _ _ |- _ =>
                   inversion H; subst; clear H
               end;
        simpl in *;
        (split;
         [ destruct (Nat.ltb (g_start g) (g_end g)); simpl;
           rewrite <- Hslice, <- Hr;
           rewrite ?append_nil_r, ?append_assoc; simpl;
           rewrite ?append_nil_r, ?append_assoc; reflexivity
         | repeat split; auto; try lia;
           destruct (Nat.ltb (g_start g) (g_end g)); simpl; auto;
           intros j Hj1 Hj2;
           destruct j as [|[|[|j]]]; try lia;
           destruct (Nat.ltb (g_start g) (g_end g)); reflexivity ]).
    + destruct Ht as (E1 & E2 & E3). simpl in E1, E2, E3. subst ci cs cm.
      simpl in H.
      eapply IH; [exact H| |exact Hok]. clear H IH Hok.
      unfold scan_inv, render_scan, render_child in *. simpl in *.
      rewrite !append_nil_r in Hr.
      destruct i as [|[|[|i]]]; try lia;
        (split;
         [ destruct (Nat.ltb (g_start g) (g_end g)); simpl;
           rewrite <- Hslice, <- Hr, join_app;
           rewrite join_cons; unfold PyStr.join at 2; simpl;
           rewrite ?append_nil_r, ?append_assoc; reflexivity
         | repeat split; auto; try lia;
           destruct (Nat.ltb (g_start g) (g_end g)); simpl; auto;
           intros j Hj1 Hj2;
           destruct j as [|[|[|j]]]; try lia; reflexivity ]).
Qed.

Lemma analyse_line_round_trip search commentPart element a element' :
  (forall s m, search s = Some m ->
               m_string m = s /\ ok_groups 0 None (m_groups m)) ->
  analyse_line search commentPart element = Ok (Some (a, element')) ->
  String.append (l_text element') (render_analysed a) = l_text element
  /\ l_number element' = l_number element
  /\ a_number a = l_number element
  /\ a_part a = commentPart
  /\ a_eol a = None
  /\ c_tail (a_margin a) <> None.
Proof.
  intros Hs H. unfold analyse_line in H.
  destruct (search (l_text element)) as [m|] eqn:Em; [|discriminate].
  destruct (Hs _ _ Em) as [Hstr Hok].
  destruct (analyse_groups _ _ _) as [sc|] eqn:Eg; [|discriminate].
  simpl in H.
  apply analyse_groups_inv in Eg; auto.
  2:{ split; simpl; auto. }
  destruct Eg as [Hr Ht].
  assert (Hm : c_tail (sc_margin sc) = None).
  { destruct (sc_tailElement sc) as [t|].
    - destruct Ht as (Ht2 & Htail & Hrest).
      destruct t as [|[|[|t]]]; try lia.
      + pose proof (Hrest 2 ltac:(lia) ltac:(lia)) as E.
        simpl in E. now rewrite E.
      + pose proof (Hrest 2 ltac:(lia) ltac:(lia)) as E.
        simpl in E. now rewrite E.
      + exact Htail.
    - destruct Ht as (_ & _ & ->). reflexivity. }
  unfold set_tail in H. rewrite Hm in H. simpl in H.
  inversion H; subst; clear H. simpl.
  repeat split; auto; try discriminate.
  unfold render_analysed, render_scan, render_child in *. simpl.
  rewrite Hm in Hr. simpl in Hr. rewrite append_nil_r in *.
  rewrite <- Hstr.
  etransitivity; [|apply (take_drop (sc_cursor sc))].
  rewrite <- Hr. rewrite !append_assoc. reflexivity.
Qed.

Lemma commentStart_ok s m :
  commentStart s = Some m ->
  m_string m = s /\ ok_groups 0 None (m_groups m).
Proof.
  unfold commentStart. destruct (PyStr.startswith "/**" _); [|easy].
  destruct (_ && _).
  - intros H; inversion H; subst; simpl. repeat split; auto; lia.
  - destruct (negb _); [|easy].
    intros H; inversion H; subst; simpl. repeat split; auto; lia.
Qed.

Lemma commentFinish_ok s m :
  commentFinish s = Some m ->
  m_string m = s /\ ok_groups 0 None (m_groups m).
Proof.
  unfold commentFinish. destruct (PyStr.startswith "*/" _).
  - intros H; inversion H; subst; simpl. repeat split; auto; lia.
  - destruct (find_sub "*/" s); [|easy].
    intros H; inversion H; subst; simpl. repeat split; auto; lia.
Qed.

Lemma commentContinue_ok s m :
  commentContinue s = Some m ->
  m_string m = s /\ ok_groups 0 None (m_groups m).
Proof.
  unfold commentContinue. destruct (PyStr.drop _ s) as [|c r'].
  - intros H; inversion H; subst; simpl. repeat split; auto; lia.
  - destruct (Ascii.eqb c "*").
    + destruct (_ || _).
      { intros H; inversion H; subst; simpl. repeat split; auto; lia. }
      destruct (PyStr.startswith " " r').
      { intros H; inversion H; subst; simpl. repeat split; auto; lia. }
      destruct (PyStr.startswith "/" r'); [easy|].
      intros H; inversion H; subst; simpl. repeat split; auto; lia.
    + destruct (String.eqb _ _);
        intros H; inversion H; subst; simpl; repeat split; auto; lia.
Qed.


Lemma prefix_take p x :
  String.prefix p x = true -> PyStr.take (String.length p) x = p.
Proof.
  revert x; induction p as [|c p IH]; intros [|d x] H; simpl in *;
    try easy.
  destruct (Ascii.ascii_dec c d); [|easy]. subst. now rewrite IH.
Qed.

Lemma find_sub_prefix p s i :
  find_sub p s = Some i -> String.prefix p (PyStr.drop i s) = true.
Proof.
  revert i; induction s as [|c s IH]; intros i H.
  - unfold find_sub in H.
    destruct (String.prefix p "") eqn:E; [|easy].
    inversion H; subst. exact E.
  - unfold find_sub in H; fold find_sub in H.
    destruct (String.prefix p (String c s)) eqn:E.
    + inversion H; subst. exact E.
    + destruct (find_sub p s) as [j|]; [|easy].
      inversion H; subst. simpl. auto.
Qed.

Lemma slice_prefix p s i :
  String.prefix p (PyStr.drop i s) = true ->
  slice s i (i + String.length p) = p.
Proof.
  intros H. unfold slice.
  replace (i + String.length p - i) with (String.length p) by lia.
  now apply prefix_take.
Qed.

Ltac bind_inv H :=
  match type of H with
  | bind ?r _ = Ok _ =>
      let E := fresh "E" in
      destruct r eqn:E; simpl in H; [|discriminate H]
  | (if ?b then _ else _) = Ok _ =>
      let E := fresh "E" in destruct b eqn:E; try discriminate H
  | (let '(_, _) := ?x in _) = Ok _ => destruct x
  | match ?x with _ => _ end = Ok _ =>
      let E := fresh "E" in destruct x eqn:E; try discriminate H
  end.

(** The finish element always holds the two characters of its symbol. *)
Lemma match_finish_symbol element fin element' :
  match_finish element = Ok (Some (fin, element')) ->
  c_text (a_symbol fin) = Some "*/".
Proof.
  unfold match_finish, analyse_line, commentFinish.
  set (s := l_text element). set (n := span_len is_space_or_tab s).
  destruct (PyStr.startswith "*/" (PyStr.drop n s)) eqn:E.
  - assert (L : Nat.ltb n (n + 2) = true) by (apply Nat.ltb_lt; lia).
    simpl. rewrite Nat.ltb_irrefl.
    destruct (Nat.ltb 0 n); simpl; rewrite L; simpl;
      intros H; inversion H; simpl; f_equal;
      apply (slice_prefix "*/" s n E).
  - destruct (find_sub "*/" s) as [i|] eqn:Ef; [|easy].
    assert (L : Nat.ltb i (i + 2) = true) by (apply Nat.ltb_lt; lia).
    simpl. rewrite L. simpl.
    intros H; inversion H; simpl; f_equal.
    apply (slice_prefix "*/" s i (find_sub_prefix _ _ Ef)).
Qed.

Lemma analyse_child_tail_render a a' :
  analyse_child_tail a = Ok a' ->
  a_eol a = None ->
  render_analysed a' = render_analysed a
  /\ a_number a' = a_number a /\ a_part a' = a_part a.
Proof.
  unfold analyse_child_tail. intros H He.
  destruct (c_tail (a_margin a)) as [tail|] eqn:Et; [|discriminate].
  inversion H; subst; clear H.
  unfold render_analysed, render_child. simpl. rewrite He, Et. simpl.
  rewrite append_nil_r. repeat split.
  do 2 f_equal. rewrite !append_assoc. f_equal.
  rewrite append_nil_r. apply take_drop.
Qed.

Lemma render_items_app l1 l2 :
  render_items (l1 ++ l2)
  = String.append (render_items l1) (render_items l2).
Proof. unfold render_items. now rewrite map_app, join_app. Qed.

Lemma render_items_one i : render_items [i] = render_item i.
Proof. unfold render_items. simpl. reflexivity. Qed.

Definition rest_text (rest : option Line) : string :=
  match rest with Some l => l_text l | None => "" end.

Lemma eqb_empty s : String.eqb s "" = true -> s = "".
Proof. apply String.eqb_eq. Qed.


(** What the part of a turn that runs in a comment yields. *)
Lemma render_items_cons i l :
  render_items (i :: l) = String.append (render_item i) (render_items l).
Proof. unfold render_items. simpl map. apply join_cons. Qed.

Ltac ri :=
  cbn [app l_text String.append];
  repeat rewrite render_items_cons;
  change (render_items []) with "";
  simpl render_item;
  rewrite ?append_nil_r.

Lemma turn_in_comment_spec yielded line analysis items rest ic' :
  turn_in_comment yielded line analysis = Ok (items, rest, ic') ->
  (forall a0, analysis = Some a0 ->
     a_eol a0 = None /\ a_number a0 = l_number line
     /\ a_part a0 = "start") ->
  exists more,
    items = yielded ++ more
    /\ String.append (render_items more) (rest_text rest)
       = String.append
           (match analysis with
            | Some a0 => render_analysed a0
            | None => ""
            end) (l_text line)
    /\ Forall (fun i => item_number i = l_number line) more
    /\ (forall l', rest = Some l' ->
          l_number l' = l_number line /\ l_text l' <> ""
          /\ 2 <= String.length (render_items more))
    /\ (ic' = true ->
          rest = None
          /\ exists more' a,
               more = more' ++ [Part a]
               /\ (a_part a = "start" \/ a_part a = "continue"))
    /\ (ic' = false ->
          exists more' a,
            more = more' ++ [Part a] /\ a_part a = "finish").
Proof.
  intros H Ha. unfold turn_in_comment in H.
  bind_inv H. destruct a as [[fin l2]|]; simpl in H.
  - (* a finish on this line *)
    pose proof (match_finish_symbol _ E) as Hsym.
    apply (@analyse_line_round_trip commentFinish "finish" _ _ _
             commentFinish_ok) in E.
    destruct E as (Hrt & Hn2 & Hnf & Hpf & Hef & Htf).
    bind_inv H. destruct a as [analysed l4].
    bind_inv H. destruct a as [[yielded2 l5] ic2].
    inversion H; subst; clear H.
    bind_inv E0. bind_inv E0. inversion E0; subst; clear E0.
    apply negb_false_iff, eqb_empty in E1.
    exists (match analysed with Some a => [Part a] | None => [] end
            ++ [Part (mkAnalysed (a_number fin) (a_part fin) (a_indent fin)
                        (a_symbol fin)
                        (mkChild (c_text (a_margin fin)) None)
                        (a_eol fin))]).
    assert (Hfin : String.append
                     (render_analysed
                        (mkAnalysed (a_number fin) (a_part fin)
                           (a_indent fin) (a_symbol fin)
                           (mkChild (c_text (a_margin fin)) None)
                           (a_eol fin))) s
                   = render_analysed fin).
    { unfold render_analysed, render_child. simpl. rewrite Hef, E2. simpl.
      rewrite !append_nil_r, !append_assoc. reflexivity. }
    assert (Hlen : 2 <= String.length
                          (render_analysed
                             (mkAnalysed (a_number fin) (a_part fin)
                                (a_indent fin) (a_symbol fin)
                                (mkChild (c_text (a_margin fin)) None)
                                (a_eol fin)))).
    { unfold render_analysed, render_child. simpl. rewrite Hsym. simpl.
      rewrite !length_append. simpl. lia. }
    assert (Hrest : rest_text
                      (if String.eqb s "" then None
                       else Some (mkLine (l_number l4) s)) = s).
    { destruct (String.eqb_spec s ""); subst; reflexivity. }
    destruct analysis as [a0|].
    + (* the start is on this line too *)
      destruct (Ha a0 eq_refl) as (He0 & Hn0 & Hp0).
      bind_inv E. bind_inv E.
      inversion E; subst; clear E. simpl in *.
      apply analyse_child_tail_render in E3 as (Hr & Hn & Hp); auto.
      simpl in Hn, Hp. unfold set_tail in E0.
      destruct (c_tail (a_margin a0)) eqn:Et0; [discriminate|].
      inversion E0; subst; clear E0.
      repeat split.
      * now rewrite <- app_assoc.
      * ri.
        rewrite append_assoc, Hrest, Hfin, Hr, <- Hrt.
        unfold render_analysed, render_child; simpl.
        rewrite He0, Et0; simpl.
        rewrite !append_nil_r, !append_assoc. reflexivity.
      * repeat constructor; simpl; congruence.
      * destruct (String.eqb s ""); inversion H; subst; simpl; congruence.
      * destruct (String.eqb_spec s ""); inversion H; subst; simpl; auto.
      * ri. rewrite ?length_append. lia.
      * discriminate.
      * discriminate.
      * eexists [_]; eexists. split; [reflexivity|exact Hpf].
    + bind_inv E.
      destruct (negb (String.eqb (l_text l2) "")) eqn:Ene.
      * (* text before the finish: a continuation *)
        destruct a as [[a1 l3]|].
        -- bind_inv E. bind_inv E. inversion E; subst; clear E.
           apply negb_false_iff, eqb_empty in E3.
           apply (@analyse_line_round_trip commentContinue "continue" _ _ _
                    commentContinue_ok) in E0.
           destruct E0 as (Hrt1 & Hn3 & Hn1 & Hp1 & He1 & Ht1).
           apply analyse_child_tail_render in E4 as (Hr & Hn & Hp); auto.
           rewrite E3 in Hrt1. simpl in *.
           repeat split.
           ++ now rewrite <- app_assoc.
           ++ ri.
              rewrite append_assoc, Hrest, Hfin, Hr, Hrt1. exact Hrt.
           ++ repeat constructor; simpl; congruence.
           ++ destruct (String.eqb s ""); inversion H; subst; simpl;
                congruence.
           ++ destruct (String.eqb_spec s ""); inversion H; subst; simpl;
                auto.
           ++ ri. rewrite ?length_append. lia.
           ++ discriminate.
           ++ discriminate.
           ++ eexists [_]; eexists. split; [reflexivity|exact Hpf].
        -- inversion E; subst; clear E.
           apply negb_true_iff in Ene.
           rewrite E1 in Ene. discriminate.
      * inversion E0; subst; clear E0. inversion E; subst; clear E.
        rewrite E1 in Hrt. simpl in *.
        repeat split.
        -- now rewrite app_nil_r.
        -- ri.
           rewrite Hrest, Hfin. exact Hrt.
        -- repeat constructor; simpl; congruence.
        -- destruct (String.eqb s ""); inversion H; subst; simpl;
             congruence.
        -- destruct (String.eqb_spec s ""); inversion H; subst; simpl;
             auto.
        -- ri. rewrite ?length_append. lia.
        -- discriminate.
        -- discriminate.
        -- exists []; eexists. split; [reflexivity|exact Hpf].
  - (* no finish on this line *)
    bind_inv H. destruct a as [analysed l4]. simpl in H.
    inversion H; subst; clear H.
    destruct analysis as [a0|].
    + destruct (Ha a0 eq_refl) as (He0 & Hn0 & Hp0).
      bind_inv E0. bind_inv E0. inversion E0; subst; clear E0. simpl.
      apply analyse_child_tail_render in E2 as (Hr & Hn & Hp); auto.
      simpl in Hn, Hp. unfold set_tail in E1.
      destruct (c_tail (a_margin a0)) eqn:Et0; [discriminate|].
      inversion E1; subst; clear E1.
      exists [Part a1]. repeat split; auto.
      * ri. simpl. rewrite ?append_nil_r, Hr.
        unfold render_analysed, render_child; simpl.
        rewrite He0, Et0; simpl.
        rewrite !append_nil_r, !append_assoc. reflexivity.
      * repeat constructor; simpl; congruence.
      * discriminate.
      * discriminate.
      * discriminate.
      * exists [], a1. split; auto. left. congruence.
      * discriminate.
    + bind_inv E0.
      destruct a as [[a1 l3]|]; [|discriminate].
      bind_inv E0. bind_inv E0. inversion E0; subst; clear E0.
      apply negb_false_iff, eqb_empty in E2.
      destruct (negb (String.eqb (l_text line) "")) eqn:Ene;
        [|discriminate].
      apply (@analyse_line_round_trip commentContinue "continue" _ _ _
               commentContinue_ok) in E1.
      destruct E1 as (Hrt1 & Hn3 & Hn1 & Hp1 & He1 & Ht1).
      apply analyse_child_tail_render in E3 as (Hr & Hn & Hp); auto.
      rewrite E2 in *. simpl in *.
      exists [Part a]. repeat split; auto.
      * ri. simpl. rewrite ?append_nil_r, Hr.
        exact Hrt1.
      * repeat constructor; simpl; congruence.
      * discriminate.
      * discriminate.
      * discriminate.
      * exists [], a. split; auto. right. congruence.
      * discriminate.
Qed.


Lemma match_start_none line :
  match_start line = Ok None <-> commentStart (l_text line) = None.
Proof.
  unfold match_start, analyse_line. split.
  - destruct (commentStart (l_text line)); auto.
    destruct (analyse_groups _ _ _); simpl; [|easy].
    destruct (set_tail _ _); simpl; easy.
  - now intros ->.
Qed.

(** An element after which [comment_blocks] holds no open comment. *)
Definition closes (i : Item) : Prop :=
  match i with
  | Plain _ => True
  | Part a => a_part a = "finish"
  end.

(** What one turn of the loop yields: the elements of the turn stand for
    the text that the turn consumed. *)
Lemma star_slash_turn_spec line ic items rest ic' :
  star_slash_turn line ic = Ok (items, rest, ic') ->
  String.append (render_items items) (rest_text rest) = l_text line
  /\ Forall (fun i => item_number i = l_number line) items
  /\ (forall l', rest = Some l' ->
        l_number l' = l_number line
        /\ String.length (l_text l') < String.length (l_text line))
  /\ (ic' = true ->
        rest = None
        /\ exists items' a,
             items = items' ++ [Part a]
             /\ (a_part a = "start" \/ a_part a = "continue"))
  /\ (ic = false -> commentStart (l_text line) = None ->
        items = [Plain line] /\ rest = None /\ ic' = false)
  /\ (ic' = false ->
        exists items' x, items = items' ++ [x] /\ closes x).
Proof.
  unfold star_slash_turn. destruct ic; simpl.
  - intros H. apply turn_in_comment_spec in H; [|discriminate].
    destruct H as (more & -> & Hrt & Hn & Hrest & Hic & Hcl). simpl in *.
    repeat split; auto; try discriminate.
    + now apply Hrest.
    + destruct (Hrest _ H) as (_ & _ & Hlen).
      apply (f_equal String.length) in Hrt.
      rewrite length_append in Hrt. subst rest. simpl in Hrt. lia.
    + now apply Hic.
    + now apply Hic.
    + intros Hf. destruct (Hcl Hf) as (more' & a & -> & Hp).
      exists more', (Part a). split; auto.
  - intros H. bind_inv H. destruct a as [[a l1]|].
    + bind_inv H. destruct a0 as [[yielded l2] analysis].
      unfold turn_start in E0.
      destruct (c_tail (a_margin a)) as [tail|] eqn:Et; [|discriminate].
      inversion E0; subst; clear E0.
      pose proof E as Hsome.
      apply (@analyse_line_round_trip commentStart "start" _ _ _
               commentStart_ok) in E.
      destruct E as (Hrt0 & Hn1 & Hna & Hpa & Hea & _).
      apply turn_in_comment_spec in H.
      2:{ intros a0 Ha0. inversion Ha0; subst; simpl.
          repeat split; congruence. }
      destruct H as (more & -> & Hrt & Hn & Hrest & Hic & Hcl).
      simpl in *.
      assert (Hpre : render_items
                       (if negb (String.eqb (l_text l1) "")
                        then [Plain (mkLine (l_number l1) (l_text l1))]
                        else []) = l_text l1).
      { destruct (String.eqb_spec (l_text l1) ""); simpl; ri; auto. }
      assert (Hall : String.append (l_text l1)
                       (String.append (render_items more) (rest_text rest))
                     = l_text line).
      { rewrite Hrt, <- Hrt0. f_equal.
        unfold render_analysed, render_child; simpl.
        rewrite Hea, Et; simpl.
        rewrite !append_nil_r, !append_assoc. reflexivity. }
      repeat split; auto; try discriminate.
      * rewrite render_items_app, Hpre, append_assoc. exact Hall.
      * apply Forall_app. split.
        -- destruct (negb _); repeat constructor; simpl; congruence.
        -- eapply Forall_impl; [|exact Hn]. simpl. intros; congruence.
      * destruct (Hrest _ H) as (-> & _). simpl. congruence.
      * destruct (Hrest _ H) as (_ & _ & Hlen).
        apply (f_equal String.length) in Hall.
        rewrite !length_append in Hall. subst rest. simpl in Hall. lia.
      * now apply Hic.
      * destruct (Hic H) as (_ & more' & a' & -> & Hp).
        eexists; exists a'. split; [|exact Hp].
        rewrite app_assoc. reflexivity.
      * match goal with
        | Hc : commentStart _ = None |- _ =>
            apply match_start_none in Hc;
            rewrite Hc in Hsome; discriminate
        end.
      * match goal with
        | Hc : commentStart _ = None |- _ =>
            apply match_start_none in Hc;
            rewrite Hc in Hsome; discriminate
        end.
      * match goal with
        | Hc : commentStart _ = None |- _ =>
            apply match_start_none in Hc;
            rewrite Hc in Hsome; discriminate
        end.
      * intros Hf. destruct (Hcl Hf) as (more' & a' & -> & Hp).
        eexists; exists (Part a'). split; [|exact Hp].
        rewrite app_assoc. reflexivity.
    + destruct (String.eqb (l_text line) "") eqn:Ee; [discriminate|].
      inversion H; subst; clear H.
      repeat split; auto; try discriminate.
      * ri. reflexivity.
      * intros _. exists [], (Plain line). split; simpl; auto.
Qed.

(** The loop on one line element ends before its fuel, the length of the
    text and one more, is spent. *)
Lemma star_slash_line_total fuel line ic :
  String.length (l_text line) < fuel ->
  star_slash_line fuel line ic <> None.
Proof.
  revert line ic. induction fuel as [|fuel IH]; intros line ic Hlen;
    [lia|].
  simpl. destruct (star_slash_turn line ic) as [[[items rest] ic']|] eqn:E;
    [|easy].
  destruct rest as [l'|]; [|easy].
  apply star_slash_turn_spec in E as (_ & _ & Hrest & _).
  destruct (Hrest l' eq_refl) as (_ & Hl).
  specialize (IH l' ic' ltac:(lia)).
  destruct (star_slash_line fuel l' ic') as [[[more ic'']|]|]; easy.
Qed.

Lemma star_slash_line_spec fuel line ic items ic' :
  star_slash_line fuel line ic = Some (Ok (items, ic')) ->
  render_items items = l_text line
  /\ Forall (fun i => item_number i = l_number line) items
  /\ (ic' = true ->
        exists items' a,
          items = items' ++ [Part a]
          /\ (a_part a = "start" \/ a_part a = "continue"))
  /\ (ic = false -> commentStart (l_text line) = None ->
        items = [Plain line] /\ ic' = false)
  /\ (ic' = false ->
        exists items' x, items = items' ++ [x] /\ closes x).
Proof.
  revert line ic items ic'.
  induction fuel as [|fuel IH]; intros line ic items ic' H; [easy|].
  simpl in H.
  destruct (star_slash_turn line ic) as [[[yielded rest] ic1]|] eqn:E;
    [|easy].
  apply star_slash_turn_spec in E
    as (Hrt & Hn & Hrest & Hic & Hplain & Hcl).
  destruct rest as [l'|].
  - destruct (star_slash_line fuel l' ic1) as [[[more ic2]|]|] eqn:E2;
      try easy.
    inversion H; subst; clear H.
    apply IH in E2 as (Hrt2 & Hn2 & Hic2 & _ & Hcl2).
    destruct (Hrest l' eq_refl) as (Hnum & _). simpl in Hrt.
    split; [now rewrite render_items_app, Hrt2|].
    split.
    { apply Forall_app. split; auto.
      eapply Forall_impl; [|exact Hn2]. simpl. intros; congruence. }
    split.
    { intros Ht. destruct (Hic2 Ht) as (items' & a & -> & Hp).
      exists (yielded ++ items'), a. split; auto. now rewrite app_assoc. }
    split.
    { intros Hf Hc. destruct (Hplain Hf Hc) as (_ & Hr & _).
      discriminate. }
    intros Hf. destruct (Hcl2 Hf) as (items' & x & -> & Hx).
    exists (yielded ++ items'), x. split; auto. now rewrite app_assoc.
  - inversion H; subst; clear H. simpl in Hrt.
    rewrite append_nil_r in Hrt.
    split; [exact Hrt|]. split; [exact Hn|].
    split; [intros Ht; now apply Hic|].
    split; [intros Hf Hc; split; now apply Hplain|exact Hcl].
Qed.

(** The elements that [line_star_slash] yields, grouped by the line
    element that they come from. *)
Lemma star_slash_from_spec lines ic items ic' :
  star_slash_from ic lines = Some (Ok (items, ic')) ->
  exists groups,
    items = List.concat groups
    /\ Forall2
         (fun line g =>
            render_items g = l_text line
            /\ Forall (fun i => item_number i = l_number line) g)
         lines groups.
Proof.
  revert ic items. induction lines as [|line lines IH]; intros ic items H.
  - simpl in H. inversion H; subst. exists []. split; auto.
  - cbn [star_slash_from] in H.
    destruct (star_slash_line _ line ic) as [[[yielded ic1]|]|] eqn:E;
      try easy.
    destruct (star_slash_from ic1 lines) as [[[more ic2]|]|] eqn:E2;
      try easy.
    inversion H; subst; clear H.
    apply IH in E2 as (groups & -> & HF).
    apply star_slash_line_spec in E as (Hrt & Hn & _).
    exists (yielded :: groups). split; auto.
Qed.

Lemma star_slash_from_total lines ic : star_slash_from ic lines <> None.
Proof.
  revert ic.
  induction lines as [|line lines IH]; intros ic; cbn [star_slash_from];
    [easy|].
  pose proof (@star_slash_line_total (S (String.length (l_text line)))
                line ic ltac:(lia)) as Ht.
  destruct (star_slash_line _ line ic) as [[[yielded ic1]|]|]; try easy.
  specialize (IH ic1).
  destruct (star_slash_from ic1 lines) as [[[more ic2]|]|]; easy.
Qed.

(** An input that ends in a comment ends with an analysed line that is
    not a finish. *)
Lemma star_slash_from_open lines ic items :
  star_slash_from ic lines = Some (Ok (items, true)) ->
  (ic = true /\ lines = [] /\ items = [])
  \/ exists items' a,
       items = items' ++ [Part a]
       /\ (a_part a = "start" \/ a_part a = "continue").
Proof.
  revert ic items. induction lines as [|line lines IH]; intros ic items H.
  - simpl in H. inversion H; subst. auto.
  - right. cbn [star_slash_from] in H.
    destruct (star_slash_line _ line ic) as [[[yielded ic1]|]|] eqn:E;
      try easy.
    destruct (star_slash_from ic1 lines) as [[[more ic2]|]|] eqn:E2;
      try easy.
    inversion H; subst; clear H.
    apply IH in E2 as [(-> & -> & ->)|(items' & a & -> & Hp)].
    + apply star_slash_line_spec in E as (_ & _ & Hic & _).
      rewrite app_nil_r. now apply Hic.
    + exists (yielded ++ items'), a. split; auto. now rewrite app_assoc.
Qed.


(** An input that ends outside comments has yielded nothing, or ends
    with a line passed on or with a finish. *)
Lemma star_slash_from_closed lines ic items :
  star_slash_from ic lines = Some (Ok (items, false)) ->
  (ic = false /\ lines = [] /\ items = [])
  \/ exists items' x, items = items' ++ [x] /\ closes x.
Proof.
  revert ic items. induction lines as [|line lines IH]; intros ic items H.
  - simpl in H. inversion H; subst. auto.
  - right. cbn [star_slash_from] in H.
    destruct (star_slash_line _ line ic) as [[[yielded ic1]|]|] eqn:E;
      try easy.
    destruct (star_slash_from ic1 lines) as [[[more ic2]|]|] eqn:E2;
      try easy.
    inversion H; subst; clear H.
    apply IH in E2 as [(-> & -> & ->)|(items' & x & -> & Hx)].
    + apply star_slash_line_spec in E as (_ & _ & _ & _ & Hcl).
      rewrite app_nil_r. now apply Hcl.
    + exists (yielded ++ items'), x. split; auto. now rewrite app_assoc.
Qed.

Lemma star_slash_from_app l1 l2 ic items ic' :
  star_slash_from ic (l1 ++ l2) = Some (Ok (items, ic')) ->
  exists items1 ic1 items2,
    star_slash_from ic l1 = Some (Ok (items1, ic1))
    /\ star_slash_from ic1 l2 = Some (Ok (items2, ic'))
    /\ items = items1 ++ items2.
Proof.
  revert ic items. induction l1 as [|line l1 IH]; intros ic items H.
  - exists [], ic, items. auto.
  - change ((line :: l1) ++ l2) with (line :: (l1 ++ l2)) in H.
    cbn [star_slash_from] in *.
    destruct (star_slash_line _ line ic) as [[[yielded ic0]|]|] eqn:E;
      try easy.
    destruct (star_slash_from ic0 (l1 ++ l2)) as [[[more ic2]|]|] eqn:E2;
      try easy.
    inversion H; subst; clear H.
    apply IH in E2 as (items1 & ic1 & items2 & -> & E2 & ->).
    exists (yielded ++ items1), ic1, items2.
    repeat split; auto. now rewrite app_assoc.
Qed.

Lemma line_elements_app n l1 l2 :
  line_elements n (l1 ++ l2)
  = line_elements n l1 ++ line_elements (n + List.length l1) l2.
Proof.
  revert n. induction l1 as [|x l1 IH]; intros n; simpl.
  - now rewrite Nat.add_0_r.
  - rewrite IH. f_equal. f_equal. f_equal. lia.
Qed.

Lemma comment_blocks_from_open st items a :
  a_part a <> "finish" ->
  exists blocks lineFirst ls,
    comment_blocks_from st (items ++ [Part a])
    = blocks ++ [Comment lineFirst (ls ++ [a])].
Proof.
  intros Ha. revert st. induction items as [|i items IH]; intros st.
  - simpl. apply String.eqb_neq in Ha. rewrite Ha.
    destruct st as [[first ls]|]; simpl.
    + exists [], first, ls. reflexivity.
    + exists [], (a_number a), []. reflexivity.
  - change ((i :: items) ++ [Part a]) with (i :: (items ++ [Part a])).
    cbn [comment_blocks_from].
    destruct (comment_blocks_turn st i) as [yielded st'].
    destruct (IH st') as (blocks & first & ls & ->).
    exists (yielded ++ blocks), first, ls. now rewrite app_assoc.
Qed.

Lemma comment_blocks_from_closed st items x rest :
  closes x ->
  comment_blocks_from st (items ++ x :: rest)
  = comment_blocks_from st (items ++ [x]) ++ comment_blocks_from None rest.
Proof.
  intros Hx. revert st. induction items as [|i items IH]; intros st.
  - simpl. destruct x as [l|a]; simpl in *.
    + destruct st as [[first ls]|]; simpl; reflexivity.
    + rewrite Hx. destruct st as [[first ls]|]; simpl;
        rewrite ?app_nil_r; reflexivity.
  - change ((i :: items) ++ x :: rest) with (i :: (items ++ x :: rest)).
    change ((i :: items) ++ [x]) with (i :: (items ++ [x])).
    cbn [comment_blocks_from].
    destruct (comment_blocks_turn st i) as [yielded st'].
    now rewrite IH, app_assoc.
Qed.

Lemma expandtabs_no_tab tabSize column s :
  (forall c, In c (list_ascii_of_string s) -> nat_of_ascii c <> 9) ->
  expandtabs_from tabSize column s = s.
Proof.
  revert column. induction s as [|c s IH]; intros column H; simpl; auto.
  destruct (Nat.eqb_spec (nat_of_ascii c) 9) as [E|E].
  - exfalso. apply (H c); simpl; auto.
  - f_equal. apply IH. intros c' Hc'. apply H. simpl; auto.
Qed.

Lemma line_expand_tabs_app tabSize l1 l2 :
  line_expand_tabs tabSize (l1 ++ l2)
  = line_expand_tabs tabSize l1 ++ line_expand_tabs tabSize l2.
Proof. apply map_app. Qed.




Theorem read_lines_total tabSize file : read_lines tabSize file <> None.
Proof.
  unfold read_lines, line_star_slash.
  pose proof (star_slash_from_total
                (line_expand_tabs tabSize (line_elements 0 file)) false).
  destruct (star_slash_from false _) as [[[items ic]|]|]; easy.
Qed.


(** C1 as it is written fails: on a file whose comment is never closed
    the path of [Processing] raises nothing, and [comment_blocks] yields
    the comment with the one line that was read. *)
Lemma unterminated_comment_is_flushed :
  exists a,
    Processing.path_to_comments [String.append "/** abc" PyStr.LF]
    = Some (Ok [Comment 1 [a]])
    /\ a_part a = "start"
    /\ render_analysed a = String.append "/** abc" PyStr.LF.
Proof.
  match eval vm_compute in
        (Processing.path_to_comments [String.append "/** abc" PyStr.LF]) with
  | Some (Ok [Comment _ [?a]]) => exists a
  end.
  split; [|split]; vm_compute; reflexivity.
Qed.

Lemma read_from_open st items c :
  CommentBlock.lineType c <> CommentBlock.FINISH ->
  exists yields ls,
    CommentBlock.read_from st (items ++ [CommentBlock.Comment c])
    = yields ++ [CommentBlock.Block (ls ++ [c])].
Proof.
  intros Hc. revert st. induction items as [|i items IH]; intros st.
  - simpl. destruct (CommentBlock.lineType c); try easy;
      destruct st as [ls|]; simpl;
      solve [ exists [], ls; reflexivity | exists [], []; reflexivity ].
  - change ((i :: items) ++ [CommentBlock.Comment c])
      with (i :: (items ++ [CommentBlock.Comment c])).
    cbn [CommentBlock.read_from].
    destruct (CommentBlock.read_turn st i) as [yielded st'].
    destruct (IH st') as (yields & ls & ->).
    exists (yielded ++ yields), ls. now rewrite app_assoc.
Qed.

(** C1, amended.  For every file that ends inside a comment, that is,
    whose analysis ends with [inComment] set, the path of [Processing]
    does not raise: [comment_blocks] yields, as its last element, the
    comment that holds the lines read since the start, the last of them
    not a finish.  The legacy [CommentBlock.read] does the same with the
    lines that it has when its input ends after a line that is not a
    finish. *)
Theorem open_comment_is_flushed :
  (forall (file : list string) (items : list Item),
      star_slash_from false (line_expand_tabs 4 (line_elements 0 file))
      = Some (Ok (items, true)) ->
      exists blocks lineFirst ls a,
        Processing.path_to_comments file
        = Some (Ok (blocks ++ [Comment lineFirst (ls ++ [a])]))
        /\ a_part a <> "finish")
  /\ (forall (input : list CommentBlock.Item) (c : CommentBlock.CommentLine),
        CommentBlock.lineType c <> CommentBlock.FINISH ->
        exists yields ls,
          CommentBlock.read (input ++ [CommentBlock.Comment c])
          = yields ++ [CommentBlock.Block (ls ++ [c])]).
Proof.
  split.
  - intros file items H.
    unfold Processing.path_to_comments, read_lines, line_star_slash.
    rewrite H.
    apply star_slash_from_open in H as [(Hf & _)|(items' & a & -> & Hp)];
      [discriminate|].
    assert (Ha : a_part a <> "finish")
      by (destruct Hp as [-> | ->]; discriminate).
    destruct (@comment_blocks_from_open None items' a Ha)
      as (blocks & first & ls & E).
    exists blocks, first, ls, a. unfold comment_blocks. now rewrite E.
  - intros input c Hc. apply read_from_open; auto.
Qed.

Lemma open_comment_is_flushed_witness :
  exists blocks lineFirst ls a,
    Processing.path_to_comments
      [String.append "int x;" PyStr.LF; String.append "/** abc" PyStr.LF;
       String.append " * more" PyStr.LF]
    = Some (Ok (blocks ++ [Comment lineFirst (ls ++ [a])]))
    /\ a_part a <> "finish".
Proof.
  destruct (star_slash_from false
              (line_expand_tabs 4
                 (line_elements 0
                    [String.append "int x;" PyStr.LF;
                     String.append "/** abc" PyStr.LF;
                     String.append " * more" PyStr.LF])))
    as [[[items ic]|e]|] eqn:E.
  - destruct ic.
    + exact (proj1 open_comment_is_flushed _ items E).
    + vm_compute in E. discriminate.
  - vm_compute in E. discriminate.
  - vm_compute in E. discriminate.
Defined.

Section Writes.

Variable comment_outputs : nat -> list Analysed -> result (list string).

(** [Processing.outputs] for lines numbered from [n] on. *)
Definition outputs_from (n : nat) (lines : list string)
    : option (result (list string)) :=
  match line_star_slash (line_expand_tabs 4 (line_elements n lines)) with
  | Some (Ok items) =>
      Some (OutputTree.write_lines comment_outputs (comment_blocks items))
  | Some (Raise e) => Some (Raise e)
  | None => None
  end.

(** The lines end outside comments. *)
Definition ends_outside (lines : list string) : Prop :=
  exists items,
    star_slash_from false (line_expand_tabs 4 (line_elements 0 lines))
    = Some (Ok (items, false)).

Lemma write_lines_app b1 b2 out :
  OutputTree.write_lines comment_outputs (b1 ++ b2) = Ok out ->
  exists o1 o2,
    OutputTree.write_lines comment_outputs b1 = Ok o1
    /\ OutputTree.write_lines comment_outputs b2 = Ok o2
    /\ out = o1 ++ o2.
Proof.
  revert out. induction b1 as [|b b1 IH]; intros out H.
  - exists [], out. auto.
  - change ((b :: b1) ++ b2) with (b :: (b1 ++ b2)) in H.
    destruct b as [e|first ls]; cbn [OutputTree.write_lines] in *.
    + destruct (OutputTree.write_lines comment_outputs (b1 ++ b2))
        as [more|] eqn:E; [|discriminate].
      simpl in H. inversion H; subst; clear H.
      destruct (IH _ eq_refl) as (o1 & o2 & -> & E2 & ->).
      exists (l_text e :: o1), o2. auto.
    + destruct (comment_outputs first ls) as [o|]; [|discriminate].
      simpl in *.
      destruct (OutputTree.write_lines comment_outputs (b1 ++ b2))
        as [more|] eqn:E; [|discriminate].
      simpl in H. inversion H; subst; clear H.
      destruct (IH _ eq_refl) as (o1 & o2 & -> & E2 & ->).
      exists (o ++ o1), o2. simpl. repeat split; auto.
      now rewrite app_assoc.
Qed.

(** C6 as it is written fails: a line outside comments that holds a
    tab is written with the tab expanded. *)
Lemma tab_outside_comment_is_expanded :
  Processing.outputs (fun _ _ => Ok [])
    [String (ascii_of_nat 9) (String.append "int x;" PyStr.LF)]
  = Some (Ok [String.append "    int x;" PyStr.LF])
  /\ String.append "    int x;" PyStr.LF
     <> String (ascii_of_nat 9) (String.append "int x;" PyStr.LF).
Proof. split; [vm_compute; reflexivity|vm_compute; discriminate]. Qed.

(** C6, amended.  A line that is read outside comments and does not
    start one is written once, as its text with the tabs expanded,
    after all that is written for the lines before it and before all
    that is written for the lines after it; its text is written as it
    is when it holds no tab. *)
Theorem plain_line_written_in_place
    (pre post : list string) (raw : string) (out : list string) :
  ends_outside pre ->
  commentStart (expandtabs 4 raw) = None ->
  Processing.outputs comment_outputs (pre ++ raw :: post) = Some (Ok out) ->
  exists out1 out2,
    Processing.outputs comment_outputs pre = Some (Ok out1)
    /\ outputs_from (S (List.length pre)) post = Some (Ok out2)
    /\ out = out1 ++ expandtabs 4 raw :: out2
    /\ ((forall c, In c (list_ascii_of_string raw) ->
                   nat_of_ascii c <> 9) ->
        expandtabs 4 raw = raw).
Proof.
  intros [items1 Hpre] Hstart H.
  unfold Processing.outputs, Processing.path_to_comments, read_lines,
    line_star_slash in *.
  rewrite line_elements_app, line_expand_tabs_app in H.
  destruct (star_slash_from false _) as [[[items ic]|]|] eqn:E in H;
    try easy.
  apply star_slash_from_app in E
    as (items1' & ic1 & items2 & E1 & E2 & ->).
  rewrite Hpre in E1. inversion E1; subst items1' ic1; clear E1.
  rewrite Hpre.
  simpl line_elements in E2. simpl line_expand_tabs in E2.
  cbn [star_slash_from] in E2.
  destruct (star_slash_line _ _ false) as [[[yielded ic1]|]|] eqn:E3
    in E2; try easy.
  apply star_slash_line_spec in E3 as (_ & _ & _ & Hplain & _).
  destruct (Hplain eq_refl Hstart) as [-> ->].
  destruct (star_slash_from false _) as [[[more ic2]|]|] eqn:E4 in E2;
    try easy.
  inversion E2; subst items2 ic; clear E2.
  unfold outputs_from, line_star_slash.
  simpl Nat.add in E4. rewrite E4.
  inversion H as [Hw]; clear H.
  assert (Hblocks :
            comment_blocks
              (items1
               ++ Plain (mkLine (S (List.length pre)) (expandtabs 4 raw))
               :: more)
            = comment_blocks items1
              ++ Line_ (mkLine (S (List.length pre)) (expandtabs 4 raw))
              :: comment_blocks more).
  { unfold comment_blocks.
    apply star_slash_from_closed in Hpre
      as [(_ & _ & ->)|(items' & x & -> & Hx)].
    - reflexivity.
    - rewrite <- app_assoc. cbn [app].
      rewrite (@comment_blocks_from_closed None items' x _ Hx). reflexivity. }
  rewrite Hblocks in Hw.
  apply write_lines_app in Hw as (o1 & o2 & Ho1 & Ho2 & ->).
  cbn [app OutputTree.write_lines] in Ho2.
  destruct (OutputTree.write_lines comment_outputs (comment_blocks more))
    as [o3|] eqn:Eo3; [|discriminate].
  simpl in Ho2. inversion Ho2; subst o2; clear Ho2.
  exists o1, o3. rewrite Ho1. repeat split; auto.
  intros Hnt. unfold expandtabs. now apply expandtabs_no_tab.
Qed.

End Writes.

Lemma plain_line_written_in_place_witness :
  exists out out1 out2,
    Processing.outputs (fun _ _ => Ok ["/** doc */"])
      ([String.append "/** a */" PyStr.LF]
       ++ String.append "int x;" PyStr.LF
       :: [String.append "int y;" PyStr.LF])
    = Some (Ok out)
    /\ Processing.outputs (fun _ _ => Ok ["/** doc */"])
         [String.append "/** a */" PyStr.LF]
       = Some (Ok out1)
    /\ outputs_from (fun _ _ => Ok ["/** doc */"]) 2
         [String.append "int y;" PyStr.LF] = Some (Ok out2)
    /\ out = out1 ++ expandtabs 4 (String.append "int x;" PyStr.LF) :: out2.
Proof.
  destruct (Processing.outputs (fun _ _ => Ok ["/** doc */"])
              ([String.append "/** a */" PyStr.LF]
               ++ String.append "int x;" PyStr.LF
               :: [String.append "int y;" PyStr.LF]))
    as [[out|e]|] eqn:E.
  - assert (Hends : ends_outside [String.append "/** a */" PyStr.LF])
      by (unfold ends_outside;
          match eval vm_compute in
                (star_slash_from false
                   (line_expand_tabs 4
                      (line_elements 0 [String.append "/** a */" PyStr.LF])))
          with
          | Some (Ok (?i, false)) => exists i
          end; vm_compute; reflexivity).
    assert (Hstart : SlashStarsParser.commentStart
                       (expandtabs 4 (String.append "int x;" PyStr.LF))
                     = None)
      by (vm_compute; reflexivity).
    destruct (@plain_line_written_in_place _ _ _ _ _ Hends Hstart E)
      as (out1 & out2 & H1 & H2 & H3 & _).
    exists out, out1, out2. auto.
  - vm_compute in E. discriminate.
  - vm_compute in E. discriminate.
Defined.

End LineFacts.

(** ** Trees of elements *)

Section TreeFacts.

Import ET.

(** Induction on elements, with the property for the children. *)
Lemma Element_ind' (P : Element -> Prop)
    (H : forall t a x cs, Forall P cs -> P (Elem t a x cs)) :
  forall e, P e.
Proof.
  fix IH 1. intros [t a x cs]. apply H.
  induction cs as [|c cs IHcs]; constructor; auto.
Qed.

Lemma descendants_eq (e : Element) :
  descendants e = flat_map (fun c => c :: descendants c) (children e).
Proof. destruct e; reflexivity. Qed.

Lemma in_descendants d e :
  In d (descendants e) <->
  exists c, In c (children e) /\ (d = c \/ In d (descendants c)).
Proof.
  rewrite descendants_eq, in_flat_map. split.
  - intros (c & Hc & [E|Hd]); exists c; auto.
  - intros (c & Hc & [E|Hd]); exists c; simpl; auto.
Qed.

Lemma descendants_trans a b c :
  In a (descendants b) -> In b (descendants c) -> In a (descendants c).
Proof.
  revert b a. induction c as [t at_ x cs IH] using Element_ind'.
  intros b a Hab Hbc.
  apply in_descendants in Hbc as (k & Hk & [E|Hb]); simpl in Hk.
  - subst. apply in_descendants. exists k. auto.
  - apply in_descendants. exists k. split; auto. right.
    rewrite Forall_forall in IH. eapply IH; eauto.
Qed.

Lemma get_set_eq e k v : get (set e k v) k = Some v.
Proof.
  unfold get, set. simpl. induction (attrib e) as [|[k' v'] a IH]; simpl.
  - now rewrite String.eqb_refl.
  - destruct (String.eqb_spec k' k); simpl.
    + now rewrite String.eqb_refl.
    + destruct (String.eqb_spec k' k); [contradiction|auto].
Qed.

Lemma get_set_ne e k k' v : k <> k' -> get (set e k v) k' = get e k'.
Proof.
  intros Hk. unfold get, set. simpl.
  induction (attrib e) as [|[k0 v0] a IH]; simpl.
  - destruct (String.eqb_spec k k'); [contradiction|auto].
  - destruct (String.eqb_spec k0 k); simpl.
    + subst. destruct (String.eqb_spec k k'); [contradiction|auto].
    + destruct (String.eqb_spec k0 k'); auto.
Qed.

Lemma find_self_eq pred e :
  find_self pred e
  = if pred e then Some [] else first_hit (find_self pred) (children e) 0.
Proof. destruct e; reflexivity. Qed.

(** What [first_hit] finds: the first element on which [f] finds a
    path. *)
Lemma first_hit_some f l i p :
  first_hit f l i = Some p ->
  exists j c q,
    p = (i + j) :: q /\ nth_error l j = Some c /\ f c = Some q
    /\ forall k c', k < j -> nth_error l k = Some c' -> f c' = None.
Proof.
  revert i. induction l as [|c l IH]; intros i H; simpl in H; [easy|].
  destruct (f c) as [q|] eqn:E.
  - inversion H; subst. exists 0, c, q. rewrite Nat.add_0_r.
    repeat split; auto. intros k c' Hk. lia.
  - destruct (IH _ H) as (j & c' & q & -> & Hn & Hq & Hfirst).
    exists (S j), c', q. repeat split; auto.
    + f_equal. lia.
    + intros k c'' Hk Hn'. destruct k as [|k]; simpl in Hn'.
      * now inversion Hn'; subst.
      * apply (Hfirst k); auto. lia.
Qed.

Lemma first_hit_none f l i :
  first_hit f l i = None -> forall c, In c l -> f c = None.
Proof.
  revert i. induction l as [|c l IH]; intros i H c' Hc; simpl in *; [easy|].
  destruct (f c) as [q|] eqn:E; [discriminate|].
  destruct Hc as [<-|Hc]; eauto.
Qed.

(** What [find_self] finds satisfies the predicate. *)
Lemma find_self_some pred e p :
  find_self pred e = Some p ->
  exists d, get_at p e = Some d /\ pred d = true.
Proof.
  revert p. induction e as [t a x cs IH] using Element_ind'. intros p.
  rewrite find_self_eq. destruct (pred (Elem t a x cs)) eqn:Ep.
  - intros H. inversion H; subst. simpl. eauto.
  - intros H. apply first_hit_some in H
      as (j & c & q & -> & Hn & Hq & _). simpl in *.
    rewrite Hn. rewrite Forall_forall in IH.
    apply (IH c); auto. eapply nth_error_In; eauto.
Qed.

Lemma find_self_none pred e :
  find_self pred e = None ->
  pred e = false /\ forall d, In d (descendants e) -> pred d = false.
Proof.
  induction e as [t a x cs IH] using Element_ind'.
  rewrite find_self_eq. destruct (pred (Elem t a x cs)) eqn:Ep; [easy|].
  intros H. split; auto. intros d Hd.
  apply in_descendants in Hd as (c & Hc & Hd). simpl in Hc.
  rewrite Forall_forall in IH.
  destruct (IH c Hc (first_hit_none _ _ _ H c Hc)) as [H1 H2].
  destruct Hd as [->|Hd]; auto.
Qed.

(** What [find_desc] finds satisfies the predicate. *)
Lemma find_desc_some pred e p :
  find_desc pred e = Some p ->
  exists d, get_at p e = Some d /\ pred d = true /\ p <> [].
Proof.
  unfold find_desc. intros H.
  apply first_hit_some in H as (j & c & q & -> & Hn & Hq & _).
  apply find_self_some in Hq as (d & Hd & Hp).
  exists d. simpl. rewrite Hn. repeat split; auto. discriminate.
Qed.

(** When [find_desc] finds nothing, no descendant satisfies the
    predicate. *)
Lemma find_desc_none pred e :
  find_desc pred e = None ->
  forall d, In d (descendants e) -> pred d = false.
Proof.
  unfold find_desc. intros H d Hd.
  apply in_descendants in Hd as (c & Hc & Hd).
  destruct (find_self_none _ _ (first_hit_none _ _ _ H c Hc)) as [H1 H2].
  destruct Hd as [->|Hd]; auto.
Qed.

End TreeFacts.

(** ** Counting elements of a tree *)

Section CountFacts.

Import ET MarkdownTree.

Variable pred : Element -> bool.

(** The number of elements that satisfy [pred] among the elements of a
    list and their descendants. *)
Definition count_in (l : list Element) : nat :=
  count_if pred (flat_map iter l).

Definition count_self (e : Element) : nat := count_in [e].

Lemma count_if_app (l1 l2 : list Element) :
  count_if pred (l1 ++ l2) = count_if pred l1 + count_if pred l2.
Proof. unfold count_if. now rewrite filter_app, length_app. Qed.

Lemma count_in_app l1 l2 : count_in (l1 ++ l2) = count_in l1 + count_in l2.
Proof. unfold count_in. now rewrite flat_map_app, count_if_app. Qed.

Lemma count_in_cons c l : count_in (c :: l) = count_self c + count_in l.
Proof. apply (count_in_app [c] l). Qed.

Lemma count_in_nil : count_in [] = 0.
Proof. reflexivity. Qed.

Lemma count_descendants e :
  count_if pred (descendants e) = count_in (children e).
Proof. now rewrite descendants_eq. Qed.

Lemma count_self_eq e :
  count_self e = (if pred e then 1 else 0) + count_in (children e).
Proof.
  unfold count_self, count_in at 1. simpl. rewrite app_nil_r.
  unfold iter. rewrite <- count_descendants. unfold count_if. simpl.
  destruct (pred e); reflexivity.
Qed.

Lemma count_in_firstn_skipn n l :
  count_in (firstn n l) + count_in (skipn n l) = count_in l.
Proof. now rewrite <- count_in_app, firstn_skipn. Qed.

Lemma count_in_insert_at i x l :
  count_in (insert_at i x l) = count_self x + count_in l.
Proof.
  unfold insert_at. rewrite count_in_app, count_in_cons.
  pose proof (count_in_firstn_skipn i l). lia.
Qed.

Lemma count_in_delete_at i c l :
  nth_error l i = Some c ->
  count_in (delete_at i l) + count_self c = count_in l.
Proof.
  revert i. induction l as [|x l IH]; intros [|i] H; simpl in H; try easy.
  - inversion H; subst. unfold delete_at. simpl.
    rewrite count_in_cons. lia.
  - unfold delete_at in *. simpl. rewrite !count_in_cons.
    specialize (IH _ H). simpl in IH. lia.
Qed.

Lemma count_in_replace_nth i c c' l :
  nth_error l i = Some c ->
  count_in (replace_nth i c' l) + count_self c = count_in l + count_self c'.
Proof.
  revert i. induction l as [|x l IH]; intros [|i] H; simpl in H; try easy.
  - inversion H; subst. simpl. rewrite !count_in_cons. lia.
  - simpl. rewrite !count_in_cons. specialize (IH _ H). lia.
Qed.

End CountFacts.

Section UpdateFacts.

Import ET.

Lemma nth_error_replace_nth i (c c' : Element) l :
  nth_error l i = Some c -> nth_error (replace_nth i c' l) i = Some c'.
Proof.
  revert i. induction l as [|x l IH]; intros [|i] H; simpl in *; try easy.
  auto.
Qed.

Lemma In_replace_nth i (c' x : Element) l :
  In x (replace_nth i c' l) -> x = c' \/ In x l.
Proof.
  revert i. induction l as [|y l IH]; intros [|i] H; simpl in *; auto.
  - destruct H; auto.
  - destruct H as [H|H]; auto. apply IH in H. tauto.
Qed.

(** A modification at a path changes the element at the path and leaves
    the tag, the attributes and the text of the elements above it. *)
Lemma update_at_get f p :
  forall e c,
    get_at p e = Some c ->
    (exists c', f c = Ok c'
                /\ exists e', update_at f p e = Ok e'
                              /\ get_at p e' = Some c'
                              /\ (p <> [] ->
                                  tag e' = tag e /\ attrib e' = attrib e
                                  /\ text e' = text e))
    \/ (exists x, f c = Raise x /\ update_at f p e = Raise x).
Proof.
  induction p as [|i p IH]; intros e c H; simpl in *.
  - inversion H; subst. destruct (f c) as [c'|x] eqn:E.
    + left. exists c'. split; auto. exists c'. repeat split; easy.
    + right. eauto.
  - destruct (nth_error (children e) i) as [k|] eqn:En; [|easy].
    destruct (IH k c H) as [(c' & Hf & k' & Hu & Hg & _)|(x & Hf & Hu)].
    + left. exists c'. split; auto. rewrite Hu. simpl.
      eexists. split; [reflexivity|]. simpl.
      rewrite (nth_error_replace_nth _ k' _ En). repeat split; auto.
    + right. exists x. rewrite Hu. auto.
Qed.

Variable pred : Element -> bool.

Hypothesis pred_attrib :
  forall e e', attrib e = attrib e' -> pred e = pred e'.

(** A modification that lowers the count of the modified element lowers
    the count of the tree. *)
Lemma update_at_count f p :
  forall e e' c c',
    get_at p e = Some c -> f c = Ok c' -> update_at f p e = Ok e' ->
    count_self pred c' < count_self pred c ->
    count_self pred e' < count_self pred e.
Proof.
  induction p as [|i p IH]; intros e e' c c' H Hf Hu Hlt; simpl in *.
  - inversion H; subst. rewrite Hf in Hu. now inversion Hu; subst.
  - destruct (nth_error (children e) i) as [k|] eqn:En; [|easy].
    destruct (update_at f p k) as [k'|] eqn:Ek; [|easy].
    simpl in Hu. inversion Hu; subst; clear Hu.
    specialize (IH _ _ _ _ H Hf Ek Hlt).
    rewrite !count_self_eq. simpl.
    rewrite (pred_attrib (set_children e (replace_nth i k' (children e))) e)
      by reflexivity.
    pose proof (count_in_replace_nth pred _ k' _ En). lia.
Qed.

End UpdateFacts.

(** ** lift_singles *)

Section SinglesFacts.

Import ET MarkdownTree.





Lemma count_self_set pred e k v :
  pred (set e k v) = pred e ->
  count_self pred (set e k v) = count_self pred e.
Proof. intros H. rewrite !count_self_eq. simpl. now rewrite H. Qed.





End SinglesFacts.

(** A comment with a reference that was resolved to one line. *)
Definition single_example : ET.Element :=
  ET.Elem "comment" [] None
    [ET.Elem "markdown" [] None
       [ET.Elem "paragraph" [("newlines", "2")] None
          [ET.Elem "doc_uri"
             [("uri", "doc:#a"); ("resolved", "True");
              ("contentLines", "1"); ("content", "Hello world")] None
             [ET.Elem "paragraph" [("newlines", "2")] None
                [ET.Elem "text" [("layout", "span")]
                   (Some "Hello world") []]]]]].


(** ** DocGetter.read *)

Section ReadFacts.

Import ET DocGetter.

Variable files : string -> option (list string).
Variable urlparse : string -> ParseResult.
Variable file_path : bool -> option string -> string -> result string.
Variable relpath : string -> string.
Variable treeParser : string -> Element.

(** What holds of the state of the getter between two resolutions. *)
Variable inv : State -> Prop.

(** The elements that a resolution has put below the element [e], of
    which [e1] is the resolved form. *)
Definition added (e e1 : Element) : list Element :=
  skipn (List.length (children e)) (children e1).

(** The reference of the element [e] resolves, and every chain of
    references from what it resolves to ends within [h] resolutions. *)
Fixpoint resolves_within (h : nat) (e : Element) : Prop :=
  match h with
  | 0 => False
  | S h' =>
      forall st, inv st ->
        exists e1 st1,
          resolve_one files urlparse file_path relpath treeParser e st
          = Ok (e1, st1)
          /\ inv st1
          /\ forall d, In d (flat_map iter (added e e1)) ->
                       unresolved d = true -> resolves_within h' d
  end.

(** Every unresolved element at or below [e] resolves within [h]. *)
Definition settled (h : nat) (e : Element) : Prop :=
  forall d, In d (iter e) -> unresolved d = true -> resolves_within h d.

(** No element at or below [e] is unresolved. *)
Definition clean (e : Element) : Prop :=
  forall d, In d (iter e) -> unresolved d = false.

Lemma in_iter_child c d e :
  In c (children e) -> In d (iter c) -> In d (descendants e).
Proof.
  intros Hc Hd. apply in_descendants. exists c. split; auto.
  destruct Hd as [<-|Hd]; auto.
Qed.

Lemma in_iter_list d l :
  In d (flat_map iter l) <-> exists c, In c l /\ In d (iter c).
Proof. apply in_flat_map. Qed.

Lemma in_iter_descendants d e :
  In d (descendants e) <-> In d (flat_map iter (children e)).
Proof. now rewrite descendants_eq. Qed.

Lemma pass_node_eq e st count :
  pass_node files urlparse file_path relpath treeParser e st count
  = (r <- (if unresolved e
           then r1 <- resolve_one files urlparse file_path relpath
                        treeParser e st ;;
                let '(e1, st1) := r1 in Ok (e1, st1, S count)
           else Ok (e, st, count)) ;;
     let '(e1, st1, count1) := r in
     r2 <- thread
             (pass_node files urlparse file_path relpath treeParser)
             (children e) st1 count1 ;;
     let '(cs', st2, count2) := r2 in
     Ok (set_children e1 (cs' ++ added e e1), st2, count2)).
Proof. destruct e; reflexivity. Qed.

(** The resolved form of an element has the children of the element,
    then what was added, and is marked as resolved. *)
Lemma resolve_one_shape e st e1 st1 :
  resolve_one files urlparse file_path relpath treeParser e st = Ok (e1, st1) ->
  unresolved e1 = false
  /\ children e1 = children e ++ added e e1.
Proof.
  unfold resolve_one, resolve. intros H.
  destruct (get e "uri") as [uri|]; [|easy].
  destruct (get_content_ files urlparse file_path uri (get e "source") st)
    as [[cache st']|]; [|easy].
  simpl in H.
  match type of H with
  | match ?g with _ => _ end = _ => destruct g as [content|]; [|easy]
  end.
  inversion H; subst; clear H. split.
  - unfold unresolved, attr_is. now rewrite get_set_eq.
  - unfold added. simpl.
    now rewrite skipn_app, skipn_all, Nat.sub_diag.
Qed.

Lemma thread_clean l st count :
  Forall (fun c => forall st count,
              clean c ->
              pass_node files urlparse file_path relpath treeParser
                c st count = Ok (c, st, count)) l ->
  Forall clean l ->
  thread (pass_node files urlparse file_path relpath treeParser) l st count
  = Ok (l, st, count).
Proof.
  induction 1 as [|c l Hc _ IH]; intros Hl; simpl; auto.
  inversion Hl; subst. rewrite Hc by auto. simpl. now rewrite IH.
Qed.

Lemma clean_children e : clean e -> Forall clean (children e).
Proof.
  intros H. apply Forall_forall. intros c Hc d Hd.
  apply H. right. eapply in_iter_child; eauto.
Qed.

(** A pass over a tree with nothing to resolve changes nothing. *)
Lemma pass_node_clean e :
  forall st count,
    clean e ->
    pass_node files urlparse file_path relpath treeParser e st count
    = Ok (e, st, count).
Proof.
  induction e as [t a x cs IH] using Element_ind'. intros st count Hc.
  rewrite pass_node_eq. rewrite (Hc _ (or_introl eq_refl)). simpl.
  rewrite thread_clean; auto.
  - simpl. unfold added. simpl. now rewrite skipn_all, app_nil_r.
  - apply (@clean_children (Elem t a x cs) Hc).
Qed.

(** What a pass does on one element of the list of the unresolved and
    on what is below it. *)
Definition pass_ok (h : nat) (e : Element) : Prop :=
  settled (S h) e ->
  forall st count, inv st ->
    exists e' st' count',
      pass_node files urlparse file_path relpath treeParser e st count
      = Ok (e', st', count')
      /\ inv st' /\ settled h e' /\ count <= count'
      /\ (count' = count -> clean e).

Lemma settled_children h e : settled h e -> Forall (settled h) (children e).
Proof.
  intros H. apply Forall_forall. intros c Hc d Hd.
  apply H. right. eapply in_iter_child; eauto.
Qed.

Lemma thread_ok h l :
  Forall (pass_ok h) l ->
  Forall (settled (S h)) l ->
  forall st count, inv st ->
    exists l' st' count',
      thread (pass_node files urlparse file_path relpath treeParser)
        l st count = Ok (l', st', count')
      /\ inv st' /\ Forall (settled h) l' /\ count <= count'
      /\ (count' = count -> Forall clean l).
Proof.
  induction 1 as [|c l Hc _ IH]; intros Hl st count Hst.
  - exists [], st, count. simpl. repeat split; auto.
  - inversion Hl as [|? ? Hsc Hsl]; subst.
    destruct (Hc Hsc st count Hst)
      as (c' & st1 & count1 & E1 & Hst1 & Hs1 & Hle1 & Hcl1).
    destruct (IH Hsl st1 count1 Hst1)
      as (l' & st2 & count2 & E2 & Hst2 & Hs2 & Hle2 & Hcl2).
    exists (c' :: l'), st2, count2. simpl. rewrite E1. simpl.
    rewrite E2. simpl. repeat split; auto; try lia.
    intros E. constructor; [apply Hcl1|apply Hcl2]; lia.
Qed.

Lemma pass_node_ok h e : pass_ok h e.
Proof.
  induction e as [t a x cs IH] using Element_ind'.
  intros Hs st count Hst. rewrite pass_node_eq.
  set (e := Elem t a x cs) in *.
  pose proof (@settled_children (S h) e Hs) as Hsc.
  destruct (unresolved e) eqn:Eu.
  - destruct (Hs e (or_introl eq_refl) Eu st Hst)
      as (e1 & st1 & E1 & Hst1 & Hadd).
    rewrite E1. simpl.
    destruct (@resolve_one_shape e st e1 st1 E1) as [Hu1 Hc1].
    destruct (@thread_ok h cs IH Hsc st1 (S count) Hst1)
      as (cs' & st2 & count2 & E2 & Hst2 & Hs2 & Hle2 & _).
    change (children e) with cs. rewrite E2. simpl.
    eexists _, st2, count2. split; [reflexivity|].
    repeat split; auto; try lia.
    intros d [<-|Hd] Hud.
    + change (unresolved e1 = true) in Hud. congruence.
    + apply in_iter_descendants in Hd. simpl in Hd.
      rewrite flat_map_app in Hd. apply in_app_or in Hd as [Hd|Hd].
      * apply in_iter_list in Hd as (c & Hc & Hd).
        rewrite Forall_forall in Hs2. now apply (Hs2 c Hc).
      * now apply Hadd.
  - simpl.
    destruct (@thread_ok h cs IH Hsc st count Hst)
      as (cs' & st2 & count2 & E2 & Hst2 & Hs2 & Hle2 & Hcl2).
    change (children e) with cs. rewrite E2. simpl.
    eexists _, st2, count2. split; [reflexivity|].
    repeat split; auto.
    + intros d [<-|Hd] Hud.
      * change (unresolved e = true) in Hud. congruence.
      * apply in_iter_descendants in Hd. simpl in Hd.
        unfold added in Hd. simpl in Hd.
        rewrite skipn_all, app_nil_r in Hd.
        apply in_iter_list in Hd as (c & Hc & Hd).
        rewrite Forall_forall in Hs2. now apply (Hs2 c Hc).
    + intros E d [<-|Hd]; auto.
      apply in_iter_descendants in Hd.
      apply in_iter_list in Hd as (c & Hc & Hd).
      specialize (Hcl2 E). rewrite Forall_forall in Hcl2.
      now apply (Hcl2 c Hc).
Qed.

(** C3.  When every unresolved element below the root resolves, and
    every chain of references from it ends within [h] resolutions, the
    loop of [read] ends within [h] passes and one more, without an
    error, and no element below the root of the tree that it yields is
    unresolved; nor is the root, when it was not. *)
Theorem read_reaches_fixed_point (h : nat) :
  forall (element : Element) (st : State),
    inv st ->
    (forall d, In d (descendants element) -> unresolved d = true ->
               resolves_within h d) ->
    exists element' st',
      read files urlparse file_path relpath treeParser (S h) element st
      = Some (Ok (element', st'))
      /\ inv st'
      /\ (forall d, In d (descendants element') -> unresolved d = false)
      /\ (unresolved element = false ->
          forall d, In d (iter element') -> unresolved d = false).
Proof.
  induction h as [|h IH]; intros element st Hst Hs.
  - assert (Hcl : Forall clean (children element)).
    { apply Forall_forall. intros c Hc d Hd.
      destruct (unresolved d) eqn:Eu; auto.
      destruct (Hs d (@in_iter_child c d element Hc Hd) Eu). }
    exists element, st. cbn [read]. unfold pass, pass_list.
    rewrite thread_clean; auto.
    + simpl. replace (set_children element (children element))
        with element by now destruct element.
      assert (Hd : forall d, In d (descendants element) ->
                             unresolved d = false).
      { intros d Hd. apply (proj1 (in_iter_descendants _ _)) in Hd.
        apply in_iter_list in Hd as (c & Hc & Hd).
        rewrite Forall_forall in Hcl. now apply (Hcl c Hc). }
      repeat split; auto. intros Hu d [<-|Hd']; auto.
    + apply Forall_forall. intros c _ st' count' Hc.
      now apply pass_node_clean.
  - assert (Hsc : Forall (settled (S h)) (children element)).
    { apply Forall_forall. intros c Hc d Hd.
      apply Hs. eapply in_iter_child; eauto. }
    assert (Hok : Forall (pass_ok h) (children element)).
    { apply Forall_forall. intros c _. apply pass_node_ok. }
    destruct (@thread_ok h (children element) Hok Hsc st 0 Hst)
      as (cs' & st1 & count1 & E & Hst1 & Hs1 & _ & Hcl).
    cbn [read]. unfold pass, pass_list. rewrite E. simpl.
    destruct (Nat.eqb_spec count1 0) as [E0|E0].
    + exists (set_children element cs'), st1.
      assert (Hclean : Forall clean (children element)) by auto.
      assert (Hsame : cs' = children element /\ st1 = st).
      { rewrite thread_clean in E; auto.
        - inversion E; auto.
        - apply Forall_forall. intros c _ st' count' Hc.
          now apply pass_node_clean. }
      destruct Hsame as [-> ->].
      assert (Hd : forall d,
                 In d (descendants
                         (set_children element (children element))) ->
                 unresolved d = false).
      { intros d Hd. apply (proj1 (in_iter_descendants _ _)) in Hd.
        apply in_iter_list in Hd as (c & Hc & Hd).
        rewrite Forall_forall in Hclean. now apply (Hclean c Hc). }
      repeat split; auto. intros Hu d [<-|Hd']; auto.
    + destruct (IH (set_children element cs') st1 Hst1)
        as (element' & st' & Er & Hst' & Hd & Hall).
      { intros d Hd Hu. apply (proj1 (in_iter_descendants _ _)) in Hd.
        apply in_iter_list in Hd as (c & Hc & Hd).
        rewrite Forall_forall in Hs1. now apply (Hs1 c Hc). }
      exists element', st'. repeat split; auto.
Qed.

End ReadFacts.

(** Two fragments in the cache: the first refers to the second. *)
Definition chain_state : DocGetter.State :=
  DocGetter.mkState
    [DocGetter.mkCache "/doc.md" "b" ["plain"];
     DocGetter.mkCache "/doc.md" "a" ["see [doc:#b]"]]
    ["/doc.md"; "/doc.md"].

Definition chain_urlparse (uri : string) : DocGetter.ParseResult :=
  if String.eqb uri "doc:#a" then DocGetter.mkParse "" "" "a"
  else if String.eqb uri "doc:#b" then DocGetter.mkParse "" "" "b"
  else DocGetter.mkParse "host" "" "".

Definition chain_parser (content : string) : ET.Element :=
  if String.eqb content "see [doc:#b]" then
    ET.Elem "markdown" [] None
      [ET.Elem "paragraph" [("newlines", "2")] None
         [ET.Elem "text" [("layout", "span")] (Some "see ") [];
          ET.Elem "doc_uri" [("uri", "doc:#b"); ("resolved", "False")]
            None []]]
  else
    ET.Elem "markdown" [] None
      [ET.Elem "paragraph" [("newlines", "2")] None
         [ET.Elem "text" [("layout", "span")] (Some content) []]].

Definition chain_example : ET.Element :=
  ET.Elem "comment" [] None
    [ET.Elem "markdown" [] None
       [ET.Elem "paragraph" [("newlines", "2")] None
          [ET.Elem "doc_uri" [("uri", "doc:#a"); ("resolved", "False")]
             None []]]].

Ltac resolve_here :=
  let st := fresh "st" in
  intros st ->;
  match goal with
  | |- exists e1 st1, ?r = _ /\ _ =>
      match eval vm_compute in r with
      | Ok (?e1, ?st1) => exists e1, st1
      end
  end;
  split; [vm_compute; reflexivity|split; [reflexivity|]].

Lemma read_reaches_fixed_point_witness :
  exists element' st',
    DocGetter.read (fun _ => None) chain_urlparse
      (fun _ _ _ => Raise IOError) (fun path => path) chain_parser
      3 chain_example chain_state
    = Some (Ok (element', st'))
    /\ st' = chain_state
    /\ (forall d, In d (ET.descendants element') ->
                  DocGetter.unresolved d = false)
    /\ (DocGetter.unresolved chain_example = false ->
        forall d, In d (ET.iter element') -> DocGetter.unresolved d = false).
Proof.
  apply (@read_reaches_fixed_point (fun _ => None) chain_urlparse
           (fun _ _ _ => Raise IOError) (fun path => path) chain_parser
           (fun st => st = chain_state) 2 chain_example chain_state eq_refl).
  intros d Hd Hu. simpl in Hd.
  repeat (destruct Hd as [<-|Hd]; [try discriminate Hu|]); [|easy].
  clear Hu. cbn [resolves_within]. resolve_here.
  intros d Hd Hu. vm_compute in Hd.
  repeat (destruct Hd as [<-|Hd]; [try discriminate Hu|]); [|easy].
  clear Hu. resolve_here.
  intros d Hd Hu. vm_compute in Hd.
  repeat (destruct Hd as [<-|Hd]; [try discriminate Hu|]); easy.
Defined.

(** ** lift_trees *)

Section LiftFacts.

Import ET MarkdownTree.

Variable ET_string : Element -> string.
Variable leaveMarkers : bool.

(** An element that anything can contain for its layout: a span or a
    marker. *)
Definition inline (e : Element) : bool :=
  opt_is (get e "layout") "span" || opt_is (get e "layout") "marker".

(** A reference: an element with the [resolved] attribute. *)
Definition is_ref (e : Element) : bool := has_attr "resolved" e.

(** The first test of [can_contain]. *)
Definition always_ok (e : Element) : bool := inline e || is_ref e.

(** The tags of the block elements of the renderer. *)
Definition block_tag (t : string) : bool :=
  String.eqb t "paragraph" || String.eqb t "header" || String.eqb t "list"
  || String.eqb t "list_item" || String.eqb t "block_code".

(** An element that holds no block: a paragraph, a header or a span, when
    it is not a reference. *)
Definition constrained (e : Element) : bool :=
  negb (is_ref e)
  && (String.eqb (tag e) "paragraph" || String.eqb (tag e) "header"
      || inline e).

(** The shape of the trees of the renderer at one element: a block is no
    span and no reference, and what holds no block has only spans, markers
    and references as children. *)
Definition ok_node (e : Element) : bool :=
  (negb (block_tag (tag e)) || (negb (inline e) && negb (is_ref e)))
  && (negb (constrained e) || forallb always_ok (children e)).

(** The shape holds at an element and at all that is below it. *)
Fixpoint good (e : Element) : bool :=
  match e with
  | Elem _ _ _ cs => ok_node e && forallb good cs
  end.

(** Two elements that [can_contain] cannot tell apart. *)
Definition same_kind (a b : Element) : Prop :=
  tag a = tag b /\ get a "layout" = get b "layout"
  /\ get a "resolved" = get b "resolved".

(** Nothing, or a marker: a span without children. *)
Definition opt_marker (o : option Element) : Prop :=
  forall m, o = Some m -> good m = true /\ always_ok m = true.

(** What holds of the variables of the splice loop of [lift_trees] in the
    grandparent [G] at the parent [P]. *)
Definition splice_inv (G P : Element) (s : Splice) : Prop :=
  forallb good (inParent s) = true
  /\ forallb good (inGrand s) = true
  /\ (constrained P = true -> forallb always_ok (inParent s) = true)
  /\ (constrained G = true -> forallb always_ok (inGrand s) = true)
  /\ (atParent s = false -> block_tag (tag P) = true)
  /\ opt_marker (docStart s).

Lemma good_eq e : good e = ok_node e && forallb good (children e).
Proof. destruct e; reflexivity. Qed.

Lemma good_inv e :
  good e = true -> ok_node e = true /\ forallb good (children e) = true.
Proof. rewrite good_eq. apply andb_true_iff. Qed.

Lemma ok_node_iff e :
  ok_node e = true <->
  (block_tag (tag e) = true -> inline e = false /\ is_ref e = false)
  /\ (constrained e = true -> forallb always_ok (children e) = true).
Proof.
  unfold ok_node. rewrite andb_true_iff. split.
  - intros [H1 H2]. split.
    + intros Hb. rewrite Hb in H1. simpl in H1.
      apply andb_true_iff in H1 as [Hi Hr].
      apply negb_true_iff in Hi, Hr. auto.
    + intros Hc. rewrite Hc in H2. exact H2.
  - intros [H1 H2]. split.
    + destruct (block_tag (tag e)); auto.
      now destruct (H1 eq_refl) as [-> ->].
    + destruct (constrained e); simpl; auto.
Qed.

Lemma same_kind_refl a : same_kind a a.
Proof. repeat split. Qed.

Lemma same_kind_facts a b :
  same_kind a b ->
  inline a = inline b /\ is_ref a = is_ref b /\ always_ok a = always_ok b
  /\ constrained a = constrained b.
Proof.
  intros (Ht & Hl & Hr).
  unfold constrained, always_ok, inline, is_ref, has_attr.
  now rewrite Ht, Hl, Hr.
Qed.

Lemma same_kind_set e k v :
  k <> "layout" -> k <> "resolved" -> same_kind (set e k v) e.
Proof.
  intros H1 H2. repeat split; now apply get_set_ne.
Qed.

Lemma same_kind_set_children e l : same_kind (set_children e l) e.
Proof. repeat split. Qed.

(** The shape at an element depends on its kind and on its children. *)
Lemma ok_node_kind a b :
  same_kind a b -> ok_node b = true ->
  (constrained b = true -> forallb always_ok (children a) = true) ->
  ok_node a = true.
Proof.
  intros Hk Hb Hc. pose proof Hk as (Ht & _).
  destruct (@same_kind_facts _ _ Hk) as (Hi & Hr & _ & Hco).
  apply ok_node_iff in Hb as [Hb1 Hb2]. apply ok_node_iff. split.
  - rewrite Ht, Hi, Hr. auto.
  - rewrite Hco. auto.
Qed.

Lemma good_set e k v :
  k <> "layout" -> k <> "resolved" -> good e = true ->
  good (set e k v) = true.
Proof.
  intros H1 H2 H. apply good_inv in H as [Ho Hc].
  rewrite good_eq. apply andb_true_iff. split; auto.
  apply (@ok_node_kind _ e (@same_kind_set e k v H1 H2) Ho).
  apply ok_node_iff in Ho as [_ Ho]. exact Ho.
Qed.

Lemma always_ok_set e k v :
  k <> "layout" -> k <> "resolved" -> always_ok (set e k v) = always_ok e.
Proof.
  intros H1 H2. apply (@same_kind_facts _ _ (@same_kind_set e k v H1 H2)).
Qed.


(** Lists under the operations of the splice. *)
Lemma In_insert_at i (x y : Element) l :
  In y (insert_at i x l) -> y = x \/ In y l.
Proof.
  unfold insert_at. intros H. apply in_app_or in H as [H|[H|H]]; auto;
    right; rewrite <- (firstn_skipn i l); apply in_or_app; auto.
Qed.

Lemma In_delete_at i (y : Element) l : In y (delete_at i l) -> In y l.
Proof.
  unfold delete_at. intros H. apply in_app_or in H as [H|H].
  - rewrite <- (firstn_skipn i l). apply in_or_app. auto.
  - rewrite <- (firstn_skipn (S i) l). apply in_or_app. auto.
Qed.

Lemma forallb_insert_at f i (x : Element) l :
  f x = true -> forallb f l = true -> forallb f (insert_at i x l) = true.
Proof.
  intros Hx Hl. apply forallb_forall. intros y Hy.
  apply In_insert_at in Hy as [->|Hy]; auto.
  rewrite forallb_forall in Hl. auto.
Qed.

Lemma forallb_delete_at f i (l : list Element) :
  forallb f l = true -> forallb f (delete_at i l) = true.
Proof.
  intros Hl. apply forallb_forall. intros y Hy.
  apply In_delete_at in Hy. rewrite forallb_forall in Hl. auto.
Qed.

Lemma forallb_replace_nth f i (x : Element) l :
  f x = true -> forallb f l = true -> forallb f (replace_nth i x l) = true.
Proof.
  intros Hx Hl. apply forallb_forall. intros y Hy.
  apply In_replace_nth in Hy as [->|Hy]; auto.
  rewrite forallb_forall in Hl. auto.
Qed.

Lemma forallb_firstn f i (l : list Element) :
  forallb f l = true -> forallb f (firstn i l) = true.
Proof.
  intros Hl. rewrite <- (firstn_skipn i l), forallb_app in Hl.
  now apply andb_true_iff in Hl.
Qed.

Lemma forallb_skipn f i (l : list Element) :
  forallb f l = true -> forallb f (skipn i l) = true.
Proof.
  intros Hl. rewrite <- (firstn_skipn i l), forallb_app in Hl.
  now apply andb_true_iff in Hl.
Qed.

Lemma forallb_nth f i (c : Element) l :
  forallb f l = true -> nth_error l i = Some c -> f c = true.
Proof.
  intros Hl Hn. rewrite forallb_forall in Hl. apply Hl.
  eapply nth_error_In; eauto.
Qed.

(** The attributes that [ET_copy_attr] leaves and those that it
    copies. *)
Lemma tag_copy_attr src names :
  forall dst,
    tag (ET_copy_attr src dst names) = tag dst
    /\ children (ET_copy_attr src dst names) = children dst.
Proof.
  induction names as [|n names IH]; intros dst; simpl; auto.
  destruct (get src n); auto. destruct (IH (set dst n s)); auto.
Qed.

Lemma get_copy_attr src k names :
  forall dst,
    get (ET_copy_attr src dst names) k
    = if existsb (String.eqb k) names
      then match get src k with Some v => Some v | None => get dst k end
      else get dst k.
Proof.
  induction names as [|n names IH]; intros dst; simpl; auto.
  destruct (String.eqb_spec k n) as [->|Hn]; simpl.
  - destruct (get src n) as [v|] eqn:E; rewrite IH.
    + rewrite get_set_eq. now destruct (existsb _ names).
    + now destruct (existsb _ names).
  - destruct (get src n) as [v|] eqn:E; rewrite IH; auto.
    rewrite get_set_ne by congruence. reflexivity.
Qed.

Lemma lookup_some_in k v a :
  lookup k a = Some v -> existsb (String.eqb k) (map fst a) = true.
Proof.
  induction a as [|[k' v'] a IH]; simpl; [easy|].
  destruct (String.eqb_spec k' k) as [->|Hk].
  - now rewrite String.eqb_refl.
  - intros H. rewrite (IH H). apply orb_true_r.
Qed.

Lemma get_copy_attr_all src t k :
  get (ET_copy_attr_all src (Elem t [] None [])) k = get src k.
Proof.
  unfold ET_copy_attr_all. rewrite get_copy_attr.
  destruct (get src k) as [v|] eqn:E.
  - unfold get in E. now rewrite (lookup_some_in _ _ E).
  - now destruct (existsb _ _).
Qed.

(** The markers are spans without children. *)
Lemma marker_ok D x :
  let m := set_text
             (ET_copy_attr D (Elem "doc" [("layout", "marker")] None [])
                ["source"; "uri"]) x in
  good m = true /\ always_ok m = true.
Proof.
  intros m.
  assert (Hl : get m "layout" = Some "marker").
  { transitivity
      (get (ET_copy_attr D (Elem "doc" [("layout", "marker")] None [])
              ["source"; "uri"]) "layout"); [reflexivity|].
    now rewrite get_copy_attr. }
  assert (Ht : tag m = "doc").
  { exact (proj1 (tag_copy_attr D ["source"; "uri"]
                    (Elem "doc" [("layout", "marker")] None []))). }
  assert (Hc : children m = []).
  { exact (proj2 (tag_copy_attr D ["source"; "uri"]
                    (Elem "doc" [("layout", "marker")] None []))). }
  assert (Ha : always_ok m = true).
  { unfold always_ok, inline. now rewrite Hl. }
  split; auto. rewrite good_eq, Hc. simpl. rewrite andb_true_r.
  unfold ok_node. rewrite Ht, Hc. simpl. apply orb_true_r.
Qed.

Lemma doc_markers_ok D start fin :
  doc_markers ET_string leaveMarkers D = Ok (start, fin) ->
  opt_marker start /\ opt_marker fin.
Proof.
  unfold doc_markers. destruct leaveMarkers.
  - match goal with
    | |- (if ?c then _ else _) = _ -> _ => destruct c; [|easy]
    end.
    intros H. inversion H; subst.
    split; intros m Hm; inversion Hm; subst; apply marker_ok.
  - intros H. inversion H; subst. split; intros m Hm; discriminate.
Qed.

(** What [can_contain] answers on a parent of the right shape. *)
Lemma can_contain_true P c :
  ok_node P = true -> can_contain P c = Ok true ->
  constrained P = true -> always_ok c = true.
Proof.
  intros Ho H Hc. unfold can_contain in H.
  fold (inline c) in H. fold (is_ref c) in H. fold (always_ok c) in H.
  destruct (always_ok c); auto.
  apply ok_node_iff in Ho as [Ho _].
  unfold constrained in Hc. apply andb_true_iff in Hc as [_ Hc].
  unfold block_tag in Ho.
  destruct (String.eqb (tag P) "paragraph"); [discriminate|].
  destruct (String.eqb (tag P) "header"); [discriminate|].
  simpl in Hc, H, Ho.
  destruct (String.eqb (tag P) "list_item") eqn:E1.
  - rewrite orb_true_r in Ho. destruct (Ho eq_refl). congruence.
  - destruct (String.eqb (tag P) "list") eqn:E2; [|discriminate].
    destruct (Ho eq_refl). congruence.
Qed.

Lemma can_contain_false P c :
  can_contain P c = Ok false -> block_tag (tag P) = true.
Proof.
  unfold can_contain, block_tag. destruct (_ || _ || _); [discriminate|].
  destruct (String.eqb (tag P) "paragraph"); auto.
  destruct (String.eqb (tag P) "header"); auto. simpl.
  destruct (String.eqb (tag P) "list_item"); simpl.
  - intros _. now rewrite orb_true_r.
  - destruct (String.eqb (tag P) "list"); [auto|discriminate].
Qed.

Ltac split_inv := split; [|split; [|split; [|split; [|split]]]].

Lemma insert_here_inv G P x s :
  splice_inv G P s -> good x = true ->
  (atParent s = true -> constrained P = true -> always_ok x = true) ->
  (atParent s = false -> constrained G = true -> always_ok x = true) ->
  splice_inv G P (insert_here x s).
Proof.
  intros (H1 & H2 & H3 & H4 & H5 & H6) Hx Hp Hg.
  unfold insert_here. destruct (atParent s) eqn:Ea; split_inv; simpl;
    auto using forallb_insert_at.
Qed.

Lemma insert_start_inv G P s :
  splice_inv G P s -> splice_inv G P (insert_start s).
Proof.
  intros H. unfold insert_start.
  destruct (docStart s) as [d|] eqn:Ed; auto.
  pose proof H as (_ & _ & _ & _ & _ & H6).
  destruct (H6 d Ed) as [Hgood Hok].
  destruct (@insert_here_inv G P d s H Hgood (fun _ _ => Hok)
              (fun _ _ => Hok)) as (H1 & H2 & H3 & H4 & H5 & _).
  split_inv; auto. intros m Hm. discriminate.
Qed.

Lemma atParent_insert_start s : atParent (insert_start s) = atParent s.
Proof.
  unfold insert_start, insert_here.
  destruct (docStart s); auto. destruct (atParent s); auto.
Qed.

Lemma splice_children_inv G P parentIndex :
  ok_node P = true ->
  (block_tag (tag P) = true -> constrained G = false) ->
  forall l s s',
    forallb good l = true ->
    splice_inv G P s ->
    splice_children P parentIndex l s = Ok s' ->
    splice_inv G P s'.
Proof.
  intros HoP HG. induction l as [|child l IH]; intros s s' Hl Hs H.
  - simpl in H. now inversion H; subst.
  - simpl in Hl. apply andb_true_iff in Hl as [Hchild Hl].
    cbn [splice_children] in H.
    match type of H with
    | bind ?r _ = _ => destruct r as [s1|] eqn:E1; [|discriminate]
    end.
    cbn [bind] in H.
    assert (Hs1 : splice_inv G P s1
                  /\ (atParent s1 = true -> constrained P = true ->
                      always_ok child = true)).
    { destruct (atParent s) eqn:Ea.
      - destruct (can_contain P child) as [[|]|] eqn:Ec; simpl in E1;
          inversion E1; subst; clear E1.
        + split; auto. intros _. now apply (@can_contain_true P child HoP Ec).
        + split; [|discriminate].
          destruct Hs as (H1 & H2 & H3 & H4 & H5 & H6).
          split_inv; auto. intros _. now apply (@can_contain_false P child Ec).
      - inversion E1; subst. split; auto. congruence. }
    destruct Hs1 as [Hs1 Hok].
    apply (IH _ _ Hl) in H; auto.
    apply insert_here_inv.
    + now apply insert_start_inv.
    + apply good_set; auto; discriminate.
    + rewrite atParent_insert_start. intros Ha Hc.
      rewrite always_ok_set by discriminate. auto.
    + rewrite atParent_insert_start. intros Ha Hc.
      destruct Hs1 as (_ & _ & _ & _ & H5 & _).
      rewrite (HG (H5 Ha)) in Hc. discriminate.
Qed.

(** A turn of the loop of [lift_trees] keeps the shape of the
    grandparent, and its kind. *)
Lemma lift_at_good parentIndex docIndex G G' :
  good G = true ->
  lift_at ET_string leaveMarkers parentIndex docIndex G = Ok G' ->
  good G' = true /\ same_kind G' G.
Proof.
  intros HG H. unfold lift_at in H.
  destruct (nth_error (children G) parentIndex) as [P|] eqn:EP; [|easy].
  destruct (nth_error (children P) docIndex) as [D|] eqn:ED; [|easy].
  destruct (doc_markers ET_string leaveMarkers D) as [[start fin]|] eqn:Em;
    [|easy].
  cbn [bind] in H.
  destruct (splice_children P parentIndex (children D) _) as [s|] eqn:Es;
    [|easy].
  cbn [bind] in H. inversion H; subst; clear H.
  apply good_inv in HG as [HoG HcG].
  pose proof (@forallb_nth _ _ _ _ HcG EP) as HP.
  apply good_inv in HP as [HoP HcP].
  pose proof (@forallb_nth _ _ _ _ HcP ED) as HD.
  apply good_inv in HD as [_ HcD].
  destruct (@doc_markers_ok _ _ _ Em) as [Hstart Hfin].
  assert (HGP : block_tag (tag P) = true -> constrained G = false).
  { intros Hb. destruct (constrained G) eqn:Ec; auto.
    apply ok_node_iff in HoG as [_ HoG].
    pose proof (@forallb_nth _ _ _ _ (HoG Ec) EP) as Hok.
    apply ok_node_iff in HoP as [HoP _]. destruct (HoP Hb) as [Hi Hr].
    unfold always_ok in Hok. rewrite Hi, Hr in Hok. discriminate. }
  assert (Hs0 : splice_inv G P
                  (mkSplice (delete_at docIndex (children P)) (children G)
                     true docIndex start)).
  { split_inv; simpl; auto using forallb_delete_at.
    - intros Hc. apply forallb_delete_at.
      apply ok_node_iff in HoP as [_ HoP]; auto.
    - intros Hc. apply ok_node_iff in HoG as [_ HoG]; auto.
    - discriminate. }
  pose proof (@splice_children_inv G P parentIndex HoP HGP _ _ _ HcD Hs0 Es)
    as Hs.
  apply insert_start_inv in Hs.
  set (s1 := insert_start s) in *.
  assert (Hs2 : splice_inv G P
                  match fin with
                  | Some d => insert_here d s1
                  | None => s1
                  end).
  { destruct fin as [d|]; auto.
    destruct (Hfin d eq_refl) as [Hgood Hok].
    apply insert_here_inv; auto. }
  set (s2 := match fin with
             | Some d => insert_here d s1
             | None => s1
             end) in *.
  match goal with
  | |- context [inParent ?x] =>
      match x with
      | (if _ then _ else _) => set (s3 := x)
      end
  end.
  assert (Hs3 : splice_inv G P s3).
  { unfold s3.
    destruct (negb (atParent s2)
              && Nat.ltb docIndex (List.length (inParent s2))) eqn:Et; auto.
    apply andb_true_iff in Et as [Ea _]. apply negb_true_iff in Ea.
    pose proof Hs2 as (H1 & H2 & H3 & H4 & H5 & H6).
    assert (Hk : same_kind
                   (set_children
                      (set (ET_copy_attr_all P (Elem (tag P) [] None []))
                         "liftedTree" "tailParent")
                      (skipn docIndex (inParent s2))) P).
    { repeat split.
      - simpl. unfold ET_copy_attr_all.
        now destruct (tag_copy_attr P (map fst (attrib P))
                        (Elem (tag P) [] None [])) as [-> _].
      - change (get (set_children ?e ?l) ?k) with (get e k).
        rewrite get_set_ne by discriminate. apply get_copy_attr_all.
      - change (get (set_children ?e ?l) ?k) with (get e k).
        rewrite get_set_ne by discriminate. apply get_copy_attr_all. }
    apply insert_here_inv.
    - split_inv; simpl; auto using forallb_firstn.
    - rewrite good_eq. apply andb_true_iff. split.
      + apply (@ok_node_kind _ _ Hk HoP). intros Hc. simpl.
        apply forallb_skipn. auto.
      + simpl. now apply forallb_skipn.
    - simpl. congruence.
    - simpl. intros _ Hc. rewrite (HGP (H5 Ea)) in Hc. discriminate. }
  destruct Hs3 as (H1 & H2 & H3 & H4 & H5 & H6).
  split; [|apply same_kind_set_children].
  assert (HP' : good (set_children P (inParent s3)) = true).
  { rewrite good_eq. apply andb_true_iff. split; auto.
    apply (@ok_node_kind _ _ (same_kind_set_children P (inParent s3)) HoP).
    auto. }
  assert (Hgrand : forallb good
                     (replace_nth parentIndex
                        (set_children P (inParent s3)) (inGrand s3)) = true)
    by now apply forallb_replace_nth.
  assert (Hgrand' :
            constrained G = true ->
            forallb always_ok
              (replace_nth parentIndex
                 (set_children P (inParent s3)) (inGrand s3)) = true).
  { intros Hc. apply forallb_replace_nth; auto.
    apply ok_node_iff in HoG as [_ HoG].
    apply (@forallb_nth _ _ _ _ (HoG Hc) EP). }
  rewrite good_eq. apply andb_true_iff. split.
  - apply (@ok_node_kind _ _ (same_kind_set_children G _) HoG).
    intros Hc. simpl.
    destruct (Nat.eqb docIndex 0 && Nat.eqb (List.length (inParent s3)) 0);
      auto using forallb_delete_at.
  - simpl.
    destruct (Nat.eqb docIndex 0 && Nat.eqb (List.length (inParent s3)) 0);
      auto using forallb_delete_at.
Qed.

(** A modification below the root that keeps shape and kind keeps the
    shape of the tree. *)
Lemma update_at_good f :
  (forall g g', good g = true -> f g = Ok g' ->
                good g' = true /\ same_kind g' g) ->
  forall p e e',
    good e = true -> update_at f p e = Ok e' ->
    good e' = true /\ same_kind e' e.
Proof.
  intros Hf. induction p as [|i p IH]; intros e e' He H; simpl in H; auto.
  destruct (nth_error (children e) i) as [c|] eqn:En; [|easy].
  destruct (update_at f p c) as [c'|] eqn:Ec; [|easy].
  simpl in H. inversion H; subst; clear H.
  apply good_inv in He as [Ho Hc].
  destruct (IH _ _ (@forallb_nth _ _ _ _ Hc En) Ec) as [Hc' Hk].
  split; [|apply same_kind_set_children].
  rewrite good_eq. apply andb_true_iff. split.
  - apply (@ok_node_kind _ _ (same_kind_set_children e _) Ho).
    intros Hcon. simpl. apply forallb_replace_nth.
    + destruct (@same_kind_facts _ _ Hk) as (_ & _ & -> & _).
      apply ok_node_iff in Ho as [_ Ho].
      apply (@forallb_nth _ _ _ _ (Ho Hcon) En).
    + now apply ok_node_iff in Ho as [_ Ho]; auto.
  - simpl. now apply forallb_replace_nth.
Qed.




End LiftFacts.

(** A comment whose paragraph holds a reference that was resolved to two
    paragraphs. *)
Definition lift_example : ET.Element :=
  ET.Elem "comment" [] None
    [ET.Elem "markdown" [] None
       [ET.Elem "paragraph" [("newlines", "2")] None
          [ET.Elem "text" [("layout", "span")] (Some "See ") [];
           ET.Elem "doc_uri"
             [("uri", "doc:#a"); ("resolved", "True");
              ("contentLines", "3")] None
             [ET.Elem "paragraph" [("newlines", "2")] None
                [ET.Elem "text" [("layout", "span")] (Some "One.") []];
              ET.Elem "paragraph" [("newlines", "2")] None
                [ET.Elem "text" [("layout", "span")] (Some "Two.") []]];
           ET.Elem "text" [("layout", "span")] (Some " end.") []]]].


(** ** The loop of lift_trees ends *)

Section LiftEnds.

Import ET MarkdownTree.

Variable ET_string : Element -> string.
Variable leaveMarkers : bool.

Lemma get_at_app p q e :
  get_at (p ++ q) e
  = match get_at p e with
    | Some x => get_at q x
    | None => None
    end.
Proof.
  revert e. induction p as [|i p IH]; intros e; simpl; auto.
  destruct (nth_error (children e) i); auto.
Qed.

Lemma find_index_some pred l :
  existsb pred l = true ->
  exists i c,
    find_index pred l = Some i /\ nth_error l i = Some c /\ pred c = true.
Proof.
  induction l as [|c l IH]; simpl; [easy|].
  destruct (pred c) eqn:E.
  - intros _. exists 0, c. auto.
  - simpl. intros H. destruct (IH H) as (i & c' & -> & Hn & Hp).
    exists (S i), c'. auto.
Qed.

Lemma two_last (p : path) :
  2 <= List.length p ->
  exists a b, p = removelast (removelast p) ++ [a; b].
Proof.
  induction p as [|x p IH]; simpl; [lia|].
  destruct p as [|y [|z p]]; simpl in *; [lia| |].
  - intros _. exists x, y. reflexivity.
  - intros _. destruct IH as (a & b & E); [lia|].
    exists a, b. f_equal. exact E.
Qed.

(** [ET_grandparent] with a pattern: nothing is found, or the places of
    an element that matches, of its parent and of its grandparent.  No
    [AssertionError] is raised. *)
Lemma ET_grandparent_by_spec pred element :
  (Splitters.ET_grandparent_by pred element = Ok None
   /\ find_desc2 pred element = None)
  \/ exists gp parentIndex index G P D,
       Splitters.ET_grandparent_by pred element
       = Ok (Some (gp, parentIndex, index))
       /\ get_at gp element = Some G
       /\ nth_error (children G) parentIndex = Some P
       /\ nth_error (children P) index = Some D
       /\ pred D = true.
Proof.
  unfold Splitters.ET_grandparent_by.
  destruct (find_desc2 pred element) as [p|] eqn:Ef; [right|left; auto].
  unfold find_desc2 in Ef.
  apply first_hit_some in Ef as (j & c & q & -> & Hn & Hq & _).
  apply find_desc_some in Hq as (d & Hd & Hp & Hne).
  assert (Hget : get_at ((0 + j) :: q) element = Some d)
    by (simpl; now rewrite Hn).
  destruct (@two_last ((0 + j) :: q)) as (a & b & E).
  { destruct q; [easy|simpl; lia]. }
  set (gp := removelast (removelast ((0 + j) :: q))) in *.
  rewrite E, get_at_app in Hget.
  destruct (get_at gp element) as [G|] eqn:EG; [|easy].
  simpl in Hget.
  destruct (nth_error (children G) a) as [P'|] eqn:Ea; [|easy].
  destruct (nth_error (children P') b) as [d'|] eqn:Eb; [|easy].
  inversion Hget; subst d'.
  destruct (@find_index_some
              (fun c => existsb pred (children c))
              (children G)) as (parentIndex & P & -> & HP & HPp).
  { apply existsb_exists. exists P'. split.
    - eapply nth_error_In; eauto.
    - apply existsb_exists. exists d. split; auto.
      eapply nth_error_In; eauto. }
  rewrite HP.
  destruct (@find_index_some pred (children P) HPp)
    as (index & D & -> & HD & HDp).
  exists gp, parentIndex, index, G, P, D. auto.
Qed.

(** The same for [ET_grandparent] with the pattern of the references. *)
Lemma ET_grandparent_spec element :
  (ET_grandparent element = Ok None
   /\ find_desc2 is_ref element = None)
  \/ exists gp parentIndex docIndex G P D,
       ET_grandparent element = Ok (Some (gp, parentIndex, docIndex))
       /\ get_at gp element = Some G
       /\ nth_error (children G) parentIndex = Some P
       /\ nth_error (children P) docIndex = Some D
       /\ is_ref D = true.
Proof. exact (ET_grandparent_by_spec is_ref element). Qed.

(** [ET_grandparent] does not raise: when an element with the
    attribute has a grandparent, the grandparent has a child with such a
    child, and the two [AssertionError] of the function are not
    reached. *)
Theorem ET_grandparent_never_raises (element : Element) :
  exists r,
    ET_grandparent element = Ok r
    /\ match r with
       | None =>
           forall c d, In c (children element) -> In d (descendants c) ->
                       has_attr "resolved" d = false
       | Some (gp, parentIndex, docIndex) =>
           exists G P D,
             get_at gp element = Some G
             /\ nth_error (children G) parentIndex = Some P
             /\ nth_error (children P) docIndex = Some D
             /\ has_attr "resolved" D = true
       end.
Proof.
  destruct (ET_grandparent_spec element)
    as [[E Hn]|(gp & pi & di & G & P & D & E & HG & HP & HD & Hr)].
  - exists None. split; auto. intros c d Hc Hd.
    apply (@find_desc_none _ _ (@first_hit_none _ _ _ Hn c Hc) d Hd).
  - exists (Some (gp, pi, di)). split; auto. exists G, P, D. auto.
Qed.

Lemma is_ref_attrib e e' : attrib e = attrib e' -> is_ref e = is_ref e'.
Proof. unfold is_ref, has_attr, get. now intros ->. Qed.

Lemma is_ref_kind a b : same_kind a b -> is_ref a = is_ref b.
Proof. intros H. apply (@same_kind_facts a b H). Qed.

Lemma nth_error_insert_at i j (x c : Element) l :
  nth_error l j = Some c -> j < i -> nth_error (insert_at i x l) j = Some c.
Proof.
  intros Hn Hlt. unfold insert_at.
  assert (Hj : j < List.length l) by (apply nth_error_Some; congruence).
  rewrite nth_error_app1 by (rewrite length_firstn; lia).
  now rewrite nth_error_firstn, (proj2 (Nat.ltb_lt j i) Hlt).
Qed.

(** *** Counting through a turn of the loop *)

Section Counting.

(** A property of elements that looks at the tag, the attributes and
    the text, not at the attribute that [lift_trees] sets, and that no
    marker has. *)
Variable pred : Element -> bool.

Hypothesis pred_children : forall e l, pred (set_children e l) = pred e.

Hypothesis pred_lifted : forall e v, pred (set e "liftedTree" v) = pred e.

Hypothesis pred_marker :
  forall D x,
    pred (set_text
            (ET_copy_attr D (Elem "doc" [("layout", "marker")] None [])
               ["source"; "uri"]) x) = false.

Definition one (e : Element) : nat := if pred e then 1 else 0.

Lemma count_delete_at_le i (l : list Element) :
  count_in pred (delete_at i l) <= count_in pred l.
Proof.
  unfold delete_at.
  rewrite <- (firstn_skipn i l) at 3. rewrite !count_in_app.
  destruct (skipn i l) as [|c t] eqn:E.
  - rewrite skipn_all2; [lia|].
    assert (List.length (skipn i l) = 0) by now rewrite E.
    rewrite length_skipn in H. lia.
  - replace (skipn (S i) l) with t.
    + rewrite count_in_cons. lia.
    + change (S i) with (1 + i). rewrite <- skipn_skipn, E. reflexivity.
Qed.

(** A marker counts for nothing. *)
Definition marker_free (o : option Element) : Prop :=
  forall m, o = Some m -> count_self pred m = 0.

Lemma marker_count D x :
  count_self pred
    (set_text
       (ET_copy_attr D (Elem "doc" [("layout", "marker")] None [])
          ["source"; "uri"]) x) = 0.
Proof.
  rewrite count_self_eq, pred_marker.
  assert (Hc : children
                 (set_text
                    (ET_copy_attr D
                       (Elem "doc" [("layout", "marker")] None [])
                       ["source"; "uri"]) x) = [])
    by exact (proj2 (tag_copy_attr D ["source"; "uri"]
                       (Elem "doc" [("layout", "marker")] None []))).
  now rewrite Hc.
Qed.

Lemma doc_markers_count D start fin :
  doc_markers ET_string leaveMarkers D = Ok (start, fin) ->
  marker_free start /\ marker_free fin.
Proof.
  unfold doc_markers. destruct leaveMarkers.
  - match goal with
    | |- (if ?c then _ else _) = _ -> _ => destruct c; [|easy]
    end.
    intros H. inversion H; subst.
    split; intros m Hm; inversion Hm; subst; apply marker_count.
  - intros H. inversion H; subst. split; intros m Hm; discriminate.
Qed.

(** The parent is where it was in the grandparent: what is inserted
    there is inserted after it, and only after [can_contain] has said
    no, which it says for a parent with the tag of a block. *)
Definition index_inv (P : Element) (parentIndex : nat) (s : Splice) : Prop :=
  nth_error (inGrand s) parentIndex = Some P
  /\ (atParent s = false ->
      parentIndex < insertIndex s /\ block_tag (tag P) = true)
  /\ marker_free (docStart s).

Lemma insert_here_index P parentIndex x s :
  index_inv P parentIndex s ->
  index_inv P parentIndex (insert_here x s)
  /\ count_in pred (inParent (insert_here x s))
     + count_in pred (inGrand (insert_here x s))
     = count_self pred x + count_in pred (inParent s)
       + count_in pred (inGrand s)
  /\ atParent (insert_here x s) = atParent s.
Proof.
  intros (Hn & Hi & Hm). unfold insert_here.
  destruct (atParent s) eqn:Ea; simpl.
  - rewrite count_in_insert_at. repeat split; auto; try lia; discriminate.
  - rewrite count_in_insert_at. destruct (Hi eq_refl) as [Hlt Hb].
    repeat split; simpl; auto; try lia.
    apply nth_error_insert_at; auto.
Qed.

Lemma insert_start_index P parentIndex s :
  index_inv P parentIndex s ->
  index_inv P parentIndex (insert_start s)
  /\ count_in pred (inParent (insert_start s))
     + count_in pred (inGrand (insert_start s))
     = count_in pred (inParent s) + count_in pred (inGrand s).
Proof.
  intros H. unfold insert_start. destruct (docStart s) as [d|] eqn:Ed; auto.
  destruct (@insert_here_index P parentIndex d s H)
    as ((Hn & Hi & _) & Hc & Ha).
  pose proof H as (_ & _ & Hm). rewrite (Hm d Ed) in Hc.
  split; [|exact Hc].
  split; [exact Hn|split; [exact Hi|]]. intros m Hm'. discriminate.
Qed.

Lemma splice_children_count P parentIndex :
  forall l s s',
    index_inv P parentIndex s ->
    splice_children P parentIndex l s = Ok s' ->
    index_inv P parentIndex s'
    /\ count_in pred (inParent s') + count_in pred (inGrand s')
       = count_in pred (inParent s) + count_in pred (inGrand s)
         + count_in pred l.
Proof.
  induction l as [|child l IH]; intros s s' Hs H.
  - simpl in H. inversion H; subst. rewrite count_in_nil. split; auto.
  - cbn [splice_children] in H.
    match type of H with
    | bind ?r _ = _ => destruct r as [s1|] eqn:E1; [|discriminate]
    end.
    cbn [bind] in H.
    assert (Hs1 : index_inv P parentIndex s1
                  /\ inParent s1 = inParent s /\ inGrand s1 = inGrand s).
    { destruct Hs as (Hn & Hi & Hm). destruct (atParent s) eqn:Ea.
      - destruct (can_contain P child) as [[|]|] eqn:Ec; simpl in E1;
          inversion E1; subst; clear E1.
        + split; [|auto]. split; [exact Hn|]. split; [|exact Hm].
          rewrite Ea. discriminate.
        + split; [|auto]. split; [exact Hn|]. split; [|exact Hm].
          intros _. simpl. split; [lia|].
          now apply (@can_contain_false P child).
      - inversion E1; subst. split; [|auto].
        split; [exact Hn|]. split; [|exact Hm].
        intros _. now apply Hi. }
    destruct Hs1 as (Hs1 & Ep & Eg).
    destruct (@insert_start_index P parentIndex s1 Hs1) as [Hs2 Hc2].
    match type of H with
    | splice_children _ _ _ (insert_here ?x ?s) = _ =>
        destruct (@insert_here_index P parentIndex x s Hs2)
          as (Hs3 & Hc3 & _)
    end.
    destruct (IH _ _ Hs3 H) as [Hs' Hc'].
    split; auto.
    rewrite count_self_set in Hc3 by apply pred_lifted.
    rewrite Ep, Eg in Hc2. rewrite count_in_cons. lia.
Qed.

(** What a turn of the loop of [lift_trees] does to the count below
    the grandparent: the reference goes, and so does the parent when it
    is left empty; nothing else goes and nothing comes. *)
Lemma lift_at_count_exact parentIndex docIndex G G' P D :
  nth_error (children G) parentIndex = Some P ->
  nth_error (children P) docIndex = Some D ->
  (block_tag (tag P) = true ->
   pred (ET_copy_attr_all P (Elem (tag P) [] None [])) = false) ->
  lift_at ET_string leaveMarkers parentIndex docIndex G = Ok G' ->
  pred G' = pred G
  /\ count_in pred (children G') + one D <= count_in pred (children G)
  /\ (pred P = false ->
      count_in pred (children G') + one D = count_in pred (children G)).
Proof.
  intros EP ED Htail H. unfold lift_at in H. rewrite EP, ED in H.
  destruct (doc_markers ET_string leaveMarkers D) as [[start fin]|] eqn:Em;
    [|easy].
  cbn [bind] in H.
  destruct (splice_children P parentIndex (children D) _) as [s|] eqn:Es;
    [|easy].
  cbn [bind] in H. inversion H; subst; clear H.
  split; [apply pred_children|].
  destruct (@doc_markers_count _ _ _ Em) as [Hstart Hfin].
  assert (Hi0 : index_inv P parentIndex
                  (mkSplice (delete_at docIndex (children P)) (children G)
                     true docIndex start)).
  { repeat split; simpl; auto; discriminate. }
  destruct (@splice_children_count P parentIndex _ _ _ Hi0 Es) as [Hi Hc].
  simpl in Hc.
  destruct (@insert_start_index P parentIndex s Hi) as [Hi1 Hc1].
  set (s1 := insert_start s) in *.
  assert (Hs2 : index_inv P parentIndex
                  match fin with
                  | Some d => insert_here d s1
                  | None => s1
                  end
                /\ count_in pred (inParent match fin with
                                           | Some d => insert_here d s1
                                           | None => s1
                                           end)
                   + count_in pred (inGrand match fin with
                                            | Some d => insert_here d s1
                                            | None => s1
                                            end)
                   = count_in pred (inParent s1) + count_in pred (inGrand s1)).
  { destruct fin as [d|]; auto.
    destruct (@insert_here_index P parentIndex d s1 Hi1) as (Hi2 & Hc2 & _).
    rewrite (Hfin d eq_refl) in Hc2. split; auto. }
  set (s2 := match fin with
             | Some d => insert_here d s1
             | None => s1
             end) in *.
  destruct Hs2 as (Hi2 & Hc2).
  match goal with
  | |- context [inParent ?x] =>
      match x with
      | (if _ then _ else _) => set (s3 := x)
      end
  end.
  assert (Hs3 : nth_error (inGrand s3) parentIndex = Some P
                /\ count_in pred (inParent s3) + count_in pred (inGrand s3)
                   = count_in pred (inParent s2)
                     + count_in pred (inGrand s2)).
  { unfold s3.
    destruct (negb (atParent s2)
              && Nat.ltb docIndex (List.length (inParent s2))) eqn:Et.
    - apply andb_true_iff in Et as [Ea _]. apply negb_true_iff in Ea.
      destruct Hi2 as (Hn2 & Hlt2 & Hm2).
      match goal with
      | |- context [insert_here ?x ?s] =>
          destruct (@insert_here_index P parentIndex x s)
            as ((Hn3 & _) & Hc3 & _)
      end.
      { repeat split; simpl; auto; now apply Hlt2. }
      split; auto. rewrite Hc3. simpl.
      rewrite count_self_eq. simpl.
      rewrite pred_children, pred_lifted.
      rewrite (Htail (proj2 (Hlt2 Ea))).
      pose proof (count_in_firstn_skipn pred docIndex (inParent s2)).
      lia.
    - destruct Hi2 as (Hn2 & _). auto. }
  destruct Hs3 as [Hn3 Hc3].
  pose proof (@count_in_replace_nth pred parentIndex P
                (set_children P (inParent s3)) (inGrand s3) Hn3) as Hrep.
  rewrite (count_self_eq pred (set_children P (inParent s3))) in Hrep.
  rewrite (count_self_eq pred P), pred_children in Hrep.
  simpl in Hrep.
  pose proof (@count_in_delete_at pred docIndex D (children P) ED) as Hdel.
  rewrite (count_self_eq pred D) in Hdel. fold (one D) in Hdel.
  cbn [children set_children].
  destruct (Nat.eqb docIndex 0 && Nat.eqb (List.length (inParent s3)) 0)
    eqn:Edel.
  - apply andb_true_iff in Edel as [_ El]. apply Nat.eqb_eq in El.
    assert (Hnil : inParent s3 = []) by now destruct (inParent s3).
    rewrite Hnil in *. rewrite count_in_nil in *.
    pose proof (@count_in_delete_at pred parentIndex
                  (set_children P [])
                  (replace_nth parentIndex (set_children P []) (inGrand s3))
                  (nth_error_replace_nth _ _ _ Hn3)) as Hgone.
    rewrite count_self_eq, pred_children in Hgone. simpl in Hgone.
    rewrite count_in_nil in Hgone.
    split; [lia|]. intros HP. rewrite HP in *. lia.
  - split; [lia|]. intros _. lia.
Qed.

(** A modification below the root that keeps the count at the place
    keeps the count of the tree. *)
Lemma update_at_keeps f p :
  forall e e' c c',
    get_at p e = Some c -> f c = Ok c' -> update_at f p e = Ok e' ->
    pred c' = pred c ->
    count_in pred (children c') = count_in pred (children c) ->
    pred e' = pred e
    /\ count_in pred (children e') = count_in pred (children e).
Proof.
  induction p as [|i p IH]; intros e e' c c' H Hf Hu Hp Hc; simpl in *.
  - inversion H; subst. rewrite Hf in Hu. now inversion Hu; subst.
  - destruct (nth_error (children e) i) as [k|] eqn:En; [|easy].
    destruct (update_at f p k) as [k'|] eqn:Ek; [|easy].
    simpl in Hu. inversion Hu; subst; clear Hu.
    destruct (IH _ _ _ _ H Hf Ek Hp Hc) as [Hpk Hck].
    split; [apply pred_children|]. simpl.
    pose proof (count_in_replace_nth pred _ k' _ En) as Hrep.
    rewrite !count_self_eq, Hpk, Hck in Hrep. lia.
Qed.

End Counting.

(** *** The references: the loop ends *)

Lemma is_ref_lifted e v : is_ref (set e "liftedTree" v) = is_ref e.
Proof. unfold is_ref, has_attr. now rewrite get_set_ne. Qed.

Lemma is_ref_marker D x :
  is_ref (set_text
            (ET_copy_attr D (Elem "doc" [("layout", "marker")] None [])
               ["source"; "uri"]) x) = false.
Proof.
  assert (Hr : get (ET_copy_attr D
                      (Elem "doc" [("layout", "marker")] None [])
                      ["source"; "uri"]) "resolved" = None)
    by now rewrite get_copy_attr.
  unfold is_ref, has_attr.
  change (get (set_text ?e x) "resolved") with (get e "resolved").
  now rewrite Hr.
Qed.

(** A turn of the loop of [lift_trees] takes one reference off the
    grandparent, on a tree of the right shape. *)
Lemma lift_at_count parentIndex docIndex G G' P D :
  good G = true ->
  nth_error (children G) parentIndex = Some P ->
  nth_error (children P) docIndex = Some D ->
  is_ref D = true ->
  lift_at ET_string leaveMarkers parentIndex docIndex G = Ok G' ->
  count_self is_ref G' < count_self is_ref G.
Proof.
  intros HG EP ED HD H.
  apply good_inv in HG as [_ HcG].
  pose proof (@forallb_nth _ _ _ _ HcG EP) as HP.
  apply good_inv in HP as [HoP _].
  destruct (@lift_at_count_exact is_ref (fun e l => eq_refl)
              is_ref_lifted is_ref_marker parentIndex docIndex G G' P D
              EP ED) as (Hp & Hle & _); auto.
  - intros Hb. apply ok_node_iff in HoP as [HoP _].
    destruct (HoP Hb) as [_ Hr]. rewrite <- Hr.
    unfold is_ref, has_attr. now rewrite get_copy_attr_all.
  - rewrite !count_self_eq, Hp. unfold one in Hle. rewrite HD in Hle. lia.
Qed.

Lemma lift_trees_loop_total fuel :
  forall element,
    good element = true ->
    count_in is_ref (children element) < fuel ->
    lift_trees_loop ET_string leaveMarkers fuel element <> None.
Proof.
  induction fuel as [|fuel IH]; intros element Hg Hlt; [lia|].
  cbn [lift_trees_loop].
  destruct (ET_grandparent_spec element)
    as [[-> _]|(gp & pi & di & G & P & D & -> & HG & HP & HD & Hr)];
    [easy|].
  destruct (@update_at_get
              (lift_at ET_string leaveMarkers pi di) gp element G HG)
    as [(G' & Hf & element' & Hu & _ & _)|(x & _ & Hu)];
    rewrite Hu; [|easy].
  destruct (@update_at_good _
              (@lift_at_good ET_string leaveMarkers pi di) _ _ _ Hg Hu)
    as [Hg' Hk].
  apply IH; auto.
  assert (HgG : good G = true).
  { clear - HG Hg. revert element Hg HG.
    induction gp as [|i gp IHgp]; intros element Hg HG; simpl in HG.
    - now inversion HG; subst.
    - destruct (nth_error (children element) i) as [c|] eqn:En; [|easy].
      apply good_inv in Hg as [_ Hc].
      apply (IHgp c); auto. apply (@forallb_nth _ _ _ _ Hc En). }
  pose proof (@update_at_count is_ref is_ref_attrib _ _ _ _ _ _ HG Hf Hu
                (@lift_at_count pi di G G' P D HgG HP HD Hr Hf)) as Hlt'.
  rewrite !count_self_eq, (is_ref_kind Hk) in Hlt'. lia.
Qed.

(** The loop of [lift_trees] ends on every tree of the shape that the
    renderer gives: each turn takes away one element with the [resolved]
    attribute, and no turn adds one. *)
Theorem lift_trees_ends (element : Element) :
  good element = true ->
  exists r, lift_trees ET_string leaveMarkers element = Some r.
Proof.
  intros Hg. unfold lift_trees.
  pose proof (@lift_trees_loop_total
                (S (count_if (has_attr "resolved") (descendants element)))
                element Hg) as H.
  destruct (lift_trees_loop _ _ _ element) as [[e'|x]|].
  - destruct (nested_paragraph e'); eauto.
  - eauto.
  - exfalso. apply H; auto.
    change (has_attr "resolved") with is_ref.
    rewrite count_descendants. lia.
Qed.

(** *** The texts: none is lost *)

(** An element with the tag [text] that is no reference, with a given
    text. *)
Definition text_with (s : option string) (e : Element) : bool :=
  MarkdownTexts.is_text e && negb (is_ref e)
  && match text e, s with
     | Some a, Some b => String.eqb a b
     | None, None => true
     | _, _ => false
     end.

(** The elements with the tag [text] have no children, in all the
    tree. *)
Fixpoint leafy (e : Element) : bool :=
  match e with
  | Elem _ _ _ cs =>
      (negb (MarkdownTexts.is_text e)
       || match cs with
          | [] => true
          | _ => false
          end)
      && forallb leafy cs
  end.

Lemma leafy_inv e c i :
  leafy e = true -> nth_error (children e) i = Some c ->
  MarkdownTexts.is_text e = false /\ forallb leafy (children e) = true
  /\ leafy c = true.
Proof.
  destruct e as [t a x cs]. simpl. intros H Hn.
  apply andb_true_iff in H as [H1 H2].
  assert (Hne : cs <> []) by (intros ->; now destruct i).
  repeat split; auto.
  - destruct cs; [contradiction|].
    rewrite orb_false_r in H1. now apply negb_true_iff in H1.
  - apply (@forallb_nth _ _ _ _ H2 Hn).
Qed.

Lemma leafy_intro e :
  MarkdownTexts.is_text e = false -> forallb leafy (children e) = true ->
  leafy e = true.
Proof. destruct e as [t a x cs]. simpl. now intros -> ->. Qed.

Lemma leafy_lifted e v :
  leafy e = true -> leafy (set e "liftedTree" v) = true.
Proof. destruct e as [t a x cs]. exact (fun H => H). Qed.

Lemma leafy_marker D x :
  leafy (set_text
           (ET_copy_attr D (Elem "doc" [("layout", "marker")] None [])
              ["source"; "uri"]) x) = true.
Proof.
  apply leafy_intro.
  - unfold MarkdownTexts.is_text.
    replace (tag _) with "doc"; [reflexivity|].
    symmetry.
    exact (proj1 (tag_copy_attr D ["source"; "uri"]
                    (Elem "doc" [("layout", "marker")] None []))).
  - replace (children _) with (@nil Element); [reflexivity|].
    symmetry.
    exact (proj2 (tag_copy_attr D ["source"; "uri"]
                    (Elem "doc" [("layout", "marker")] None []))).
Qed.

Definition all_leafy (s : Splice) : Prop :=
  forallb leafy (inParent s) = true
  /\ forallb leafy (inGrand s) = true
  /\ forall m, docStart s = Some m -> leafy m = true.

Lemma insert_here_leafy x s :
  all_leafy s -> leafy x = true -> all_leafy (insert_here x s).
Proof.
  intros (H1 & H2 & H3) Hx. unfold insert_here.
  destruct (atParent s); repeat split; simpl;
    auto using forallb_insert_at.
Qed.

Lemma insert_start_leafy s : all_leafy s -> all_leafy (insert_start s).
Proof.
  intros H. unfold insert_start. destruct (docStart s) as [d|] eqn:Ed; auto.
  pose proof H as (_ & _ & H3).
  destruct (@insert_here_leafy d s H (H3 d Ed)) as (H1 & H2 & _).
  repeat split; auto. intros m Hm. discriminate.
Qed.

Lemma splice_children_leafy P parentIndex :
  forall l s s',
    forallb leafy l = true -> all_leafy s ->
    splice_children P parentIndex l s = Ok s' -> all_leafy s'.
Proof.
  induction l as [|child l IH]; intros s s' Hl Hs H.
  - simpl in H. now inversion H; subst.
  - simpl in Hl. apply andb_true_iff in Hl as [Hchild Hl].
    cbn [splice_children] in H.
    match type of H with
    | bind ?r _ = _ => destruct r as [s1|] eqn:E1; [|discriminate]
    end.
    cbn [bind] in H.
    assert (Hs1 : all_leafy s1).
    { destruct (atParent s).
      - destruct (can_contain P child) as [[|]|]; simpl in E1;
          inversion E1; subst; auto.
      - now inversion E1; subst. }
    apply (IH _ _ Hl) in H; auto.
    apply insert_here_leafy.
    + now apply insert_start_leafy.
    + now apply leafy_lifted.
Qed.

Lemma lift_at_leafy parentIndex docIndex G G' :
  leafy G = true ->
  lift_at ET_string leaveMarkers parentIndex docIndex G = Ok G' ->
  leafy G' = true.
Proof.
  intros HG H. unfold lift_at in H.
  destruct (nth_error (children G) parentIndex) as [P|] eqn:EP; [|easy].
  destruct (nth_error (children P) docIndex) as [D|] eqn:ED; [|easy].
  destruct (doc_markers ET_string leaveMarkers D) as [[start fin]|] eqn:Em;
    [|easy].
  cbn [bind] in H.
  destruct (splice_children P parentIndex (children D) _) as [s|] eqn:Es;
    [|easy].
  cbn [bind] in H. inversion H; subst; clear H.
  destruct (@leafy_inv G P parentIndex HG EP) as (HtG & HcG & HP).
  destruct (@leafy_inv P D docIndex HP ED) as (HtP & HcP & HD).
  assert (HcD : forallb leafy (children D) = true).
  { destruct D as [t a x cs]. simpl in HD.
    now apply andb_true_iff in HD. }
  assert (Hmarks : (forall m, start = Some m -> leafy m = true)
                   /\ (forall m, fin = Some m -> leafy m = true)).
  { unfold doc_markers in Em. destruct leaveMarkers.
    - match type of Em with
      | (if ?c then _ else _) = _ => destruct c; [|easy]
      end.
      inversion Em; subst.
      split; intros m Hm; inversion Hm; subst; apply leafy_marker.
    - inversion Em; subst. split; intros m Hm; discriminate. }
  destruct Hmarks as [Hstart Hfin].
  assert (Hs0 : all_leafy
                  (mkSplice (delete_at docIndex (children P)) (children G)
                     true docIndex start)).
  { repeat split; simpl; auto using forallb_delete_at. }
  pose proof (@splice_children_leafy P parentIndex _ _ _ HcD Hs0 Es) as Hs.
  apply insert_start_leafy in Hs.
  set (s1 := insert_start s) in *.
  assert (Hs2 : all_leafy
                  match fin with
                  | Some d => insert_here d s1
                  | None => s1
                  end).
  { destruct fin as [d|]; auto. apply insert_here_leafy; auto. }
  set (s2 := match fin with
             | Some d => insert_here d s1
             | None => s1
             end) in *.
  match goal with
  | |- context [inParent ?x] =>
      match x with
      | (if _ then _ else _) => set (s3 := x)
      end
  end.
  assert (Hs3 : all_leafy s3).
  { unfold s3.
    destruct (negb (atParent s2)
              && Nat.ltb docIndex (List.length (inParent s2))); auto.
    destruct Hs2 as (H1 & H2 & H3).
    apply insert_here_leafy.
    - repeat split; simpl; auto using forallb_firstn.
    - apply leafy_intro.
      + unfold MarkdownTexts.is_text in *. simpl.
        unfold ET_copy_attr_all.
        now destruct (tag_copy_attr P (map fst (attrib P))
                        (Elem (tag P) [] None [])) as [-> _].
      + simpl. now apply forallb_skipn. }
  destruct Hs3 as (H1 & H2 & H3).
  apply leafy_intro; [exact HtG|]. simpl.
  assert (HP' : leafy (set_children P (inParent s3)) = true)
    by (apply leafy_intro; auto).
  destruct (Nat.eqb docIndex 0 && Nat.eqb (List.length (inParent s3)) 0);
    auto using forallb_delete_at, forallb_replace_nth.
Qed.

Lemma update_at_leafy f :
  (forall g g', leafy g = true -> f g = Ok g' -> leafy g' = true) ->
  forall p e e',
    leafy e = true -> update_at f p e = Ok e' -> leafy e' = true.
Proof.
  intros Hf. induction p as [|i p IH]; intros e e' He H; simpl in H;
    [eauto|].
  destruct (nth_error (children e) i) as [c|] eqn:En; [|easy].
  destruct (update_at f p c) as [c'|] eqn:Ec; [|easy].
  simpl in H. inversion H; subst; clear H.
  destruct (@leafy_inv e c i He En) as (Ht & Hc & Hcc).
  apply leafy_intro; [exact Ht|]. simpl.
  apply forallb_replace_nth; eauto.
Qed.

Lemma leafy_at p :
  forall e g, leafy e = true -> get_at p e = Some g -> leafy g = true.
Proof.
  induction p as [|i p IH]; intros e g He H; simpl in H.
  - now inversion H; subst.
  - destruct (nth_error (children e) i) as [c|] eqn:En; [|easy].
    destruct (@leafy_inv e c i He En) as (_ & _ & Hc). eauto.
Qed.

Lemma text_with_lifted s e v :
  text_with s (set e "liftedTree" v) = text_with s e.
Proof.
  unfold text_with. rewrite is_ref_lifted. now destruct e.
Qed.

Lemma text_with_marker s D x :
  text_with s
    (set_text
       (ET_copy_attr D (Elem "doc" [("layout", "marker")] None [])
          ["source"; "uri"]) x) = false.
Proof.
  unfold text_with, MarkdownTexts.is_text.
  replace (tag _) with "doc"; [reflexivity|].
  symmetry.
  exact (proj1 (tag_copy_attr D ["source"; "uri"]
                  (Elem "doc" [("layout", "marker")] None []))).
Qed.

Lemma lift_trees_loop_keeps s fuel :
  forall element element',
    leafy element = true ->
    lift_trees_loop ET_string leaveMarkers fuel element = Some (Ok element') ->
    count_in (text_with s) (children element')
    = count_in (text_with s) (children element).
Proof.
  induction fuel as [|fuel IH]; intros element element' Hl H; [easy|].
  cbn [lift_trees_loop] in H.
  destruct (ET_grandparent_spec element)
    as [[E _]|(gp & pi & di & G & P & D & E & HG & HP & HD & Hr)];
    rewrite E in H.
  - now inversion H; subst.
  - destruct (@update_at_get
                (lift_at ET_string leaveMarkers pi di) gp element G HG)
      as [(G' & Hf & e1 & Hu & _ & _)|(x & _ & Hu)];
      rewrite Hu in H; [|easy].
    pose proof (@leafy_at gp element G Hl HG) as HlG.
    destruct (@leafy_inv G P pi HlG HP) as (_ & _ & HlP).
    destruct (@leafy_inv P D di HlP HD) as (HtP & _ & _).
    assert (HpP : text_with s P = false)
      by (unfold text_with; now rewrite HtP).
    assert (HpD : text_with s D = false)
      by (unfold text_with; rewrite Hr; cbn [negb];
          now rewrite andb_false_r).
    destruct (@lift_at_count_exact (text_with s)
                (fun e l => eq_refl)
                (text_with_lifted s) (text_with_marker s)
                pi di G G' P D HP HD) as (Hp & _ & Heq); auto.
    { intros _. unfold text_with, MarkdownTexts.is_text.
      unfold ET_copy_attr_all.
      destruct (tag_copy_attr P (map fst (attrib P))
                  (Elem (tag P) [] None [])) as [-> _].
      unfold MarkdownTexts.is_text in HtP. simpl. now rewrite HtP. }
    specialize (Heq HpP). unfold one in Heq. rewrite HpD in Heq.
    rewrite Nat.add_0_r in Heq.
    destruct (@update_at_keeps (text_with s) (fun e l => eq_refl)
                _ _ _ _ _ _ HG Hf Hu Hp Heq) as [_ Hc].
    rewrite <- Hc. apply IH; auto.
    apply (@update_at_leafy _ (@lift_at_leafy pi di) _ _ _ Hl Hu).
Qed.

(** [lift_trees] loses no text and makes none: in a tree where the
    elements with the tag [text] have no children, there are as many such
    elements that are no references, with any given text, below the root
    after it as before. *)
Theorem lift_trees_keeps_texts (element element' : Element) :
  leafy element = true ->
  lift_trees ET_string leaveMarkers element = Some (Ok element') ->
  forall s,
    count_if (text_with s) (descendants element')
    = count_if (text_with s) (descendants element).
Proof.
  intros Hl H s. unfold lift_trees in H.
  destruct (lift_trees_loop _ _ _ element) as [[e1|]|] eqn:El; [|easy|easy].
  destruct (nested_paragraph e1); [easy|]. inversion H; subst; clear H.
  rewrite !count_descendants.
  now apply (@lift_trees_loop_keeps s _ _ _ Hl El).
Qed.

End LiftEnds.

Lemma lift_trees_ends_witness :
  exists r, MarkdownTree.lift_trees (fun _ => "") false lift_example = Some r.
Proof.
  apply (@lift_trees_ends (fun _ => "") false lift_example).
  vm_compute. reflexivity.
Defined.

Lemma lift_trees_keeps_texts_witness :
  exists element',
    MarkdownTree.lift_trees (fun _ => "") false lift_example
    = Some (Ok element')
    /\ forall s,
         MarkdownTree.count_if (text_with s) (ET.descendants element')
         = MarkdownTree.count_if (text_with s) (ET.descendants lift_example).
Proof.
  destruct (MarkdownTree.lift_trees (fun _ => "") false lift_example)
    as [[element'|e]|] eqn:E.
  - exists element'. split; [reflexivity|].
    apply (@lift_trees_keeps_texts (fun _ => "") false lift_example element');
      [vm_compute; reflexivity|exact E].
  - vm_compute in E. discriminate.
  - vm_compute in E. discriminate.
Defined.

(** ** The texts through lift_singles *)

Section SinglesTexts.

Import ET MarkdownTree.

Lemma text_with_set s e k v :
  k <> "resolved" -> text_with s (set e k v) = text_with s e.
Proof.
  intros Hk. unfold text_with, is_ref, has_attr.
  rewrite get_set_ne by exact Hk. now destruct e.
Qed.

(** A turn of the loop of [lift_singles] takes away a paragraph and
    nothing else. *)
Lemma lift_found_keeps s found found' :
  lift_found "paragraph" "contentLines" found = Ok found' ->
  text_with s found' = text_with s found
  /\ count_in (text_with s) (children found')
     = count_in (text_with s) (children found).
Proof.
  intros H. unfold lift_found in H.
  destruct (children found) as [|child [|]] eqn:Ec; try easy.
  - inversion H; subst. split; [now apply text_with_set|].
    cbn [children set]. now rewrite Ec.
  - destruct (String.eqb_spec (tag child) "paragraph") as [Et|];
      [|easy].
    cbn [negb children set set_children] in H.
    destruct (children child) as [|first rest] eqn:Eg; [easy|].
    inversion H; subst; clear H.
    split.
    + cbn [set_children].
      change (text_with s (set (set_children found (first :: rest))
                             "contentLines" "lifted")
              = text_with s found).
      rewrite text_with_set by discriminate. now destruct found.
    + cbn [children set_children].
      rewrite !count_in_cons, count_in_nil, (count_self_eq _ child), Eg.
      rewrite count_self_set by (now apply text_with_set).
      rewrite count_in_cons.
      unfold text_with at 3, MarkdownTexts.is_text. rewrite Et.
      cbn. lia.
Qed.

Lemma lift_singles_loop_keeps s fuel :
  forall element element',
    lift_singles_loop fuel element = Some (Ok element') ->
    count_in (text_with s) (children element')
    = count_in (text_with s) (children element).
Proof.
  induction fuel as [|fuel IH]; intros element element' H; [easy|].
  cbn [lift_singles_loop] in H.
  destruct (find_desc (attr_is "contentLines" "1") element) as [p|] eqn:Ef.
  - apply find_desc_some in Ef as (found & Hg & _ & _).
    destruct (@update_at_get (lift_found "paragraph" "contentLines")
                p element found Hg)
      as [(found' & Hf & e1 & Hu & _ & _)|(x & _ & Hu)];
      rewrite Hu in H; [|easy].
    destruct (@lift_found_keeps s found found' Hf) as [Hp Hc].
    destruct (@update_at_keeps (text_with s) (fun e l => eq_refl)
                _ _ _ _ _ _ Hg Hf Hu Hp Hc) as [_ Hk].
    rewrite <- Hk. now apply IH.
  - now inversion H; subst.
Qed.

(** [lift_singles] loses no text and makes none: whenever it returns,
    there are as many elements with the tag [text] that are no
    references, with any given text, below the root as before. *)
Theorem lift_singles_keeps_texts (element element' : Element) :
  lift_singles element = Some (Ok element') ->
  forall s,
    count_if (text_with s) (descendants element')
    = count_if (text_with s) (descendants element).
Proof.
  intros H s. rewrite !count_descendants.
  now apply (@lift_singles_loop_keeps s _ _ _ H).
Qed.

End SinglesTexts.

Lemma lift_singles_keeps_texts_witness :
  exists element',
    MarkdownTree.lift_singles single_example = Some (Ok element')
    /\ forall s,
         MarkdownTree.count_if (text_with s) (ET.descendants element')
         = MarkdownTree.count_if (text_with s) (ET.descendants single_example).
Proof.
  destruct (MarkdownTree.lift_singles single_example)
    as [[element'|e]|] eqn:E.
  - exists element'. split; [reflexivity|].
    apply (@lift_singles_keeps_texts single_example element' E).
  - vm_compute in E. discriminate.
  - vm_compute in E. discriminate.
Defined.

(** ** resolve_splitters *)

Section SplitterFacts.

Import ET MarkdownTree Splitters.

Variable ET_string : Element -> string.

(** An element whose [splitter] attribute is there and is not [True]:
    what the loop leaves of a splitter. *)
Definition spent (e : Element) : bool :=
  has_attr "splitter" e && negb (is_splitter e).

(** No child but the first is a spent splitter. *)
Definition tail_clear (p : Element) : bool :=
  forallb (fun d => negb (spent d)) (tl (children p)).

Fixpoint arranged (e : Element) : bool :=
  match e with
  | Elem _ _ _ cs => tail_clear e && forallb arranged cs
  end.

(** Below the root, a spent splitter that has a grandparent is the
    first child of its parent. *)
Definition placed (element : Element) : bool :=
  forallb tail_clear (descendants element).

Lemma arranged_eq e :
  arranged e = tail_clear e && forallb arranged (children e).
Proof. destruct e; reflexivity. Qed.

Lemma arranged_children e e' :
  children e = children e' -> arranged e = arranged e'.
Proof. intros H. rewrite !arranged_eq. unfold tail_clear. now rewrite H. Qed.

Lemma forallb_flat_map (A B : Type) (f : B -> bool) (g : A -> list B) l :
  forallb f (flat_map g l) = forallb (fun c => forallb f (g c)) l.
Proof.
  induction l as [|c l IH]; simpl; auto. now rewrite forallb_app, IH.
Qed.

Lemma arranged_iter e : forallb tail_clear (iter e) = arranged e.
Proof.
  induction e as [t a x cs IH] using Element_ind'.
  unfold iter. rewrite descendants_eq, arranged_eq.
  cbn [forallb children]. f_equal.
  rewrite forallb_flat_map.
  induction IH as [|c cs Hc _ IHcs]; [reflexivity|].
  cbn [forallb]. rewrite <- IHcs, <- Hc. reflexivity.
Qed.

Lemma placed_arranged e : placed e = forallb arranged (children e).
Proof.
  unfold placed. rewrite descendants_eq, forallb_flat_map.
  induction (children e) as [|c cs IH]; [reflexivity|].
  change (forallb tail_clear (iter c)
          && forallb (fun c => forallb tail_clear (c :: descendants c)) cs
          = arranged c && forallb arranged cs).
  now rewrite IH, arranged_iter.
Qed.

Lemma get_set_children e l k : get (set_children e l) k = get e k.
Proof. now destruct e. Qed.

Lemma splitter_get e e' :
  get e' "splitter" = get e "splitter" ->
  is_splitter e' = is_splitter e /\ spent e' = spent e.
Proof. unfold spent, is_splitter, has_attr, attr_is. now intros ->. Qed.

Lemma is_splitter_attrib e e' :
  attrib e = attrib e' -> is_splitter e = is_splitter e'.
Proof. unfold is_splitter, attr_is, get. now intros ->. Qed.

Lemma nth_error_replace_nth_ne i j (x : Element) l :
  i <> j -> nth_error (replace_nth i x l) j = nth_error l j.
Proof.
  revert i j. induction l as [|y l IH]; intros [|i] [|j] H; simpl; auto.
  easy.
Qed.

Lemma firstn_replace_nth i (x : Element) l :
  firstn i (replace_nth i x l) = firstn i l.
Proof.
  revert i. induction l as [|y l IH]; intros [|i]; simpl; auto.
  now rewrite IH.
Qed.

Lemma skipn_replace_nth i (x c : Element) l :
  nth_error l i = Some c ->
  skipn i (replace_nth i x l) = x :: skipn (S i) l.
Proof.
  revert i. induction l as [|y l IH]; intros [|i] H; simpl in *; try easy.
  now apply IH.
Qed.

Lemma forallb_tl_replace_nth f i (x c : Element) l :
  nth_error l i = Some c -> f x = f c ->
  forallb f (tl l) = true -> forallb f (tl (replace_nth i x l)) = true.
Proof.
  destruct l as [|y l]; destruct i as [|i]; simpl; auto.
  intros Hn Hx Hl. apply forallb_replace_nth; auto.
  rewrite Hx. apply (@forallb_nth _ _ _ _ Hl Hn).
Qed.

Lemma forallb_tl_insert_at f i (x : Element) l :
  f x = true -> forallb f (tl l) = true ->
  forallb f (tl (insert_at (S i) x l)) = true.
Proof.
  intros Hx Hl. destruct l as [|y l].
  - unfold insert_at. now rewrite firstn_nil, skipn_nil.
  - change (forallb f (insert_at i x l) = true).
    now apply forallb_insert_at.
Qed.

Lemma forallb_tl_firstn f i (l : list Element) :
  forallb f (tl l) = true -> forallb f (tl (firstn i l)) = true.
Proof.
  destruct l as [|y l]; destruct i as [|i]; simpl; auto.
  apply forallb_firstn.
Qed.

(** What a turn of the loop makes of the grandparent: the parent with
    the splitter marked, or the parent cut before the splitter and a new
    parent, after it, that starts with the splitter. *)
Lemma split_at_shape parentIndex index G P D :
  nth_error (children G) parentIndex = Some P ->
  nth_error (children P) index = Some D ->
  exists P' extra,
    split_at ET_string parentIndex index G
    = Ok (set_children G
            match extra with
            | Some Q =>
                insert_at (S parentIndex) Q
                  (replace_nth parentIndex P' (children G))
            | None => replace_nth parentIndex P' (children G)
            end)
    /\ get P' "splitter" = get P "splitter"
    /\ match extra with
       | None =>
           index = 0
           /\ children P' = set D "splitter" "False" :: tl (children P)
       | Some Q =>
           0 < index
           /\ children P' = firstn index (children P)
           /\ children Q
              = set D "splitter" "False" :: skipn (S index) (children P)
           /\ get Q "splitter" = None
       end.
Proof.
  intros HP HD. unfold split_at. rewrite HP, HD.
  destruct (Nat.ltb_spec 0 index) as [Hlt|Hle].
  - rewrite nth_error_replace_nth_ne by lia.
    destruct (nth_error (children P) (index - 1)) as [before|] eqn:Eb.
    + eexists. eexists (Some _). split; [reflexivity|].
      split; [|split; [exact Hlt|split; [|split]]].
      * now rewrite get_set_children, !get_set_ne, get_set_children.
      * cbn [children set_children]. apply firstn_replace_nth.
      * match goal with
        | |- children (ET_copy_attr ?s ?d ?n) = _ =>
            rewrite (proj2 (tag_copy_attr s n d))
        end.
        cbn [children set]. now apply (@skipn_replace_nth _ _ D).
      * rewrite get_copy_attr. reflexivity.
    + exfalso. apply nth_error_None in Eb.
      assert (index < List.length (children P))
        by (apply nth_error_Some; congruence).
      lia.
  - assert (index = 0) by lia. subst index.
    eexists. exists None. split; [reflexivity|].
    split; [|split; [reflexivity|]].
    + now rewrite get_set_ne, get_set_children.
    + cbn [children set set_children].
      destruct (children P); [discriminate|reflexivity].
Qed.

(** A turn of the loop takes one splitter off. *)
Lemma split_at_count parentIndex index G G' P D :
  nth_error (children G) parentIndex = Some P ->
  nth_error (children P) index = Some D ->
  is_splitter D = true ->
  split_at ET_string parentIndex index G = Ok G' ->
  count_self is_splitter G' < count_self is_splitter G.
Proof.
  intros HP HD Hs H.
  destruct (@split_at_shape parentIndex index G P D HP HD)
    as (P' & extra & E & Hg & Hx).
  rewrite E in H. inversion H; subst G'; clear H E.
  rewrite !(count_self_eq is_splitter).
  replace (is_splitter (set_children G _)) with (is_splitter G)
    by (symmetry; apply splitter_get, get_set_children).
  cbn [children set_children].
  pose proof (count_in_replace_nth is_splitter _ P' _ HP) as Hrep.
  rewrite !(count_self_eq is_splitter) in Hrep.
  rewrite (proj1 (@splitter_get _ _ Hg)) in Hrep.
  pose proof (@count_in_delete_at is_splitter index D (children P) HD)
    as Hdel.
  unfold delete_at in Hdel. rewrite count_in_app in Hdel.
  rewrite (count_self_eq is_splitter D), Hs in Hdel.
  assert (HD1 : count_self is_splitter (set D "splitter" "False")
                = count_in is_splitter (children D)).
  { rewrite count_self_eq. unfold is_splitter at 1, attr_is.
    now rewrite get_set_eq. }
  destruct extra as [Q|].
  - destruct Hx as (Hlt & HcP & HcQ & HgQ).
    rewrite count_in_insert_at, (count_self_eq is_splitter Q), HcQ.
    assert (HQ : is_splitter Q = false)
      by (unfold is_splitter, attr_is; now rewrite HgQ).
    rewrite HQ, count_in_cons, HD1. rewrite HcP in Hrep. lia.
  - destruct Hx as (-> & HcP).
    rewrite HcP, count_in_cons, HD1 in Hrep.
    change (skipn 1 (children P)) with (tl (children P)) in Hdel.
    change (firstn 0 (children P)) with (@nil Element) in Hdel.
    rewrite count_in_nil in Hdel. lia.
Qed.

(** A turn of the loop puts the splitter first in its parent and moves
    no other out of its place. *)
Lemma split_at_arranged parentIndex index G G' :
  split_at ET_string parentIndex index G = Ok G' ->
  get G' "splitter" = get G "splitter"
  /\ (forallb arranged (children G) = true ->
      forallb arranged (children G') = true)
  /\ (tail_clear G = true -> tail_clear G' = true).
Proof.
  intros H.
  assert (Hn : exists P D,
             nth_error (children G) parentIndex = Some P
             /\ nth_error (children P) index = Some D).
  { unfold split_at in H.
    destruct (nth_error (children G) parentIndex) as [P|] eqn:EP;
      [|easy].
    destruct (nth_error (children P) index) as [D|] eqn:ED; [|easy].
    exists P, D. split; [reflexivity|exact ED]. }
  destruct Hn as (P & D & HP & HD).
  destruct (@split_at_shape parentIndex index G P D HP HD)
    as (P' & extra & E & Hg & Hx).
  rewrite E in H. inversion H; subst G'; clear H E.
  split; [apply get_set_children|].
  assert (HfP : negb (spent P') = negb (spent P))
    by now rewrite (proj2 (@splitter_get _ _ Hg)).
  assert (Hparts :
            arranged P = true ->
            arranged P' = true
            /\ match extra with
               | Some Q => arranged Q = true
               | None => True
               end).
  { intros Ha. rewrite arranged_eq in Ha.
    apply andb_true_iff in Ha as [Ht Hc].
    pose proof (@forallb_nth _ _ _ _ Hc HD) as HaD.
    assert (HaD1 : arranged (set D "splitter" "False") = true)
      by now rewrite (@arranged_children _ D).
    assert (Htl : forallb arranged (tl (children P)) = true).
    { destruct (children P); auto. simpl in Hc.
      now apply andb_true_iff in Hc. }
    destruct extra as [Q|].
    - destruct Hx as (Hlt & HcP & HcQ & HgQ).
      rewrite !arranged_eq. unfold tail_clear. rewrite HcP, HcQ.
      cbn [tl forallb]. rewrite HaD1.
      assert (Hsk : skipn (S index) (children P)
                    = skipn index (tl (children P)))
        by (destruct (children P); [now destruct index|reflexivity]).
      rewrite Hsk.
      rewrite forallb_tl_firstn, forallb_firstn, !forallb_skipn; auto.
    - destruct Hx as (_ & HcP).
      rewrite arranged_eq. unfold tail_clear. rewrite HcP.
      cbn [tl forallb]. unfold tail_clear in Ht.
      now rewrite Ht, HaD1, Htl. }
  split.
  - intros HcG. cbn [children set_children].
    destruct (Hparts (@forallb_nth _ _ _ _ HcG HP)) as [HP' HQ].
    destruct extra as [Q|].
    + apply forallb_insert_at; auto. now apply forallb_replace_nth.
    + now apply forallb_replace_nth.
  - unfold tail_clear. cbn [children set_children]. intros Ht.
    pose proof (@forallb_tl_replace_nth
                  (fun d => negb (spent d)) parentIndex P' P (children G)
                  HP HfP Ht) as Hr.
    destruct extra as [Q|]; auto.
    apply forallb_tl_insert_at; auto.
    destruct Hx as (_ & _ & _ & HgQ).
    unfold spent, has_attr. now rewrite HgQ.
Qed.

Lemma update_at_arranged f :
  (forall g g',
      f g = Ok g' ->
      get g' "splitter" = get g "splitter"
      /\ (forallb arranged (children g) = true ->
          forallb arranged (children g') = true)
      /\ (tail_clear g = true -> tail_clear g' = true)) ->
  forall p e e',
    update_at f p e = Ok e' ->
    get e' "splitter" = get e "splitter"
    /\ (forallb arranged (children e) = true ->
        forallb arranged (children e') = true)
    /\ (tail_clear e = true -> tail_clear e' = true).
Proof.
  intros Hf. induction p as [|i p IH]; intros e e' H; simpl in H; auto.
  destruct (nth_error (children e) i) as [c|] eqn:En; [|easy].
  destruct (update_at f p c) as [c'|] eqn:Ec; [|easy].
  simpl in H. inversion H; subst; clear H.
  destruct (IH _ _ Ec) as (Hg & Ha & Ht).
  split; [apply get_set_children|]. split.
  - intros Hc. cbn [children set_children].
    apply forallb_replace_nth; auto.
    pose proof (@forallb_nth _ _ _ _ Hc En) as Hac.
    rewrite arranged_eq in *.
    apply andb_true_iff in Hac as [H1 H2].
    now rewrite Ht, Ha.
  - unfold tail_clear. cbn [children set_children].
    apply (@forallb_tl_replace_nth _ i c' c (children e) En).
    now rewrite (proj2 (@splitter_get _ _ Hg)).
Qed.

Lemma resolve_splitters_loop_spec fuel :
  forall element,
    count_in is_splitter (children element) < fuel ->
    exists element',
      resolve_splitters_loop ET_string fuel element = Some (Ok element')
      /\ find_desc2 is_splitter element' = None
      /\ (forallb arranged (children element) = true ->
          forallb arranged (children element') = true).
Proof.
  induction fuel as [|fuel IH]; intros element Hlt; [lia|].
  cbn [resolve_splitters_loop].
  destruct (ET_grandparent_by_spec is_splitter element)
    as [[-> Hn]|(gp & pi & di & G & P & D & -> & HG & HP & HD & Hs)].
  - exists element. auto.
  - destruct (@update_at_get (split_at ET_string pi di) gp element G HG)
      as [(G' & Hf & e1 & Hu & _ & _)|(x & Hf & _)].
    + rewrite Hu.
      destruct (@update_at_arranged _
                  (@split_at_arranged pi di) _ _ _ Hu) as (Hg & Ha & _).
      pose proof (@update_at_count is_splitter is_splitter_attrib
                    _ _ _ _ _ _ HG Hf Hu
                    (@split_at_count pi di G G' P D HP HD Hs Hf)) as Hc.
      rewrite !count_self_eq, (proj1 (@splitter_get _ _ Hg)) in Hc.
      destruct (IH e1) as (element' & Hl & Hnone & Hk); [lia|].
      exists element'. auto.
    + destruct (@split_at_shape pi di G P D HP HD) as (P' & extra & E & _).
      congruence.
Qed.

(** [resolve_splitters] returns for every tree and raises nothing: each
    turn of the loop takes the value [True] off one element, the indices
    that [ET_index] looks for are there, and when the loop ends no element
    that has a grandparent has the value [True] for [splitter]. *)
Theorem resolve_splitters_ends (element : Element) :
  exists element',
    resolve_splitters ET_string element = Some (Ok element')
    /\ forall c d,
         In c (children element') -> In d (descendants c) ->
         is_splitter d = false.
Proof.
  destruct (@resolve_splitters_loop_spec
              (S (count_if is_splitter (descendants element))) element)
    as (element' & Hl & Hn & _).
  { rewrite count_descendants. lia. }
  exists element'. split; [exact Hl|]. intros c d Hc Hd.
  apply (@find_desc_none _ _ (@first_hit_none _ _ _ Hn c Hc) d Hd).
Qed.

(** [resolve_splitters] makes every splitter the first child of its
    parent: in a tree where no splitter that was dealt with is out of
    place, as in every tree of the parser, where the attribute is [True]
    wherever it is, an element of the result that has a [splitter]
    attribute and a grandparent is the first child of its parent. *)
Theorem resolve_splitters_places (element : Element) :
  placed element = true ->
  exists element',
    resolve_splitters ET_string element = Some (Ok element')
    /\ forall p i d,
         In p (descendants element') ->
         nth_error (children p) i = Some d ->
         has_attr "splitter" d = true -> i = 0.
Proof.
  intros Hp. rewrite placed_arranged in Hp.
  destruct (@resolve_splitters_loop_spec
              (S (count_if is_splitter (descendants element))) element)
    as (element' & Hl & Hn & Hk).
  { rewrite count_descendants. lia. }
  exists element'. split; [exact Hl|]. intros p i d Hin Hd Ha.
  specialize (Hk Hp). rewrite <- placed_arranged in Hk.
  unfold placed in Hk. rewrite forallb_forall in Hk.
  specialize (Hk p Hin). unfold tail_clear in Hk.
  assert (Hns : is_splitter d = false).
  { apply in_descendants in Hin as (c & Hc & Hpc).
    apply (@find_desc_none _ _ (@first_hit_none _ _ _ Hn c Hc)).
    assert (Hdp : In d (descendants p))
      by (apply in_descendants; exists d; split;
          [eapply nth_error_In; eauto|auto]).
    destruct Hpc as [->|Hpc]; auto.
    eapply descendants_trans; eauto. }
  destruct i as [|i]; [reflexivity|]. exfalso.
  assert (Htl : In d (tl (children p))).
  { destruct (children p) as [|y l]; [easy|]. simpl in Hd |- *.
    eapply nth_error_In; eauto. }
  rewrite forallb_forall in Hk. specialize (Hk d Htl).
  unfold spent in Hk. now rewrite Ha, Hns in Hk.
Qed.

End SplitterFacts.

(** A comment whose paragraph has an at-command, a splitter, after some
    text. *)
Definition splitter_example : ET.Element :=
  ET.Elem "comment" [] None
    [ET.Elem "markdown" [] None
       [ET.Elem "paragraph" [("newlines", "2")] None
          [ET.Elem "text" [("layout", "span")] (Some "Sets it. ") [];
           ET.Elem "text" [("layout", "span"); ("splitter", "True")]
             (Some "@param") [];
           ET.Elem "text" [("layout", "span")] (Some " value The value.")
             []]]].

Lemma resolve_splitters_places_witness :
  exists element',
    Splitters.resolve_splitters (fun _ => "") splitter_example
    = Some (Ok element')
    /\ forall p i d,
         In p (ET.descendants element') ->
         nth_error (ET.children p) i = Some d ->
         ET.has_attr "splitter" d = true -> i = 0.
Proof.
  apply (@resolve_splitters_places (fun _ => "") splitter_example).
  vm_compute. reflexivity.
Defined.

(** ** More on comment_tree.py and comment_block.py *)

Section BlockFacts.

Import CommentTree.

(** The elements that a block holds, in order. *)
Definition block_items (b : Block) : list Item :=
  match b with
  | Line_ l => [Plain l]
  | Comment _ lines => map Part lines
  end.

(** The elements that [commentElement] holds. *)
Definition held (st : option (nat * list Analysed)) : list Item :=
  match st with
  | Some (_, lines) => map Part lines
  | None => []
  end.

Lemma comment_blocks_from_items st items :
  flat_map block_items (comment_blocks_from st items) = held st ++ items.
Proof.
  revert st. induction items as [|i items IH]; intros st.
  - destruct st as [[f ls]|]; simpl; now rewrite ?app_nil_r.
  - cbn [comment_blocks_from].
    destruct (comment_blocks_turn st i) as [yielded st'] eqn:E.
    rewrite flat_map_app, IH.
    destruct i as [l|a]; simpl in E.
    + destruct st as [[f ls]|]; inversion E; subst; simpl;
        now rewrite ?app_nil_r, <- ?app_assoc.
    + destruct st as [[f ls]|]; destruct (String.eqb (a_part a) "finish");
        inversion E; subst; simpl;
        now rewrite ?app_nil_r, ?map_app, <- ?app_assoc.
Qed.

(** [comment_blocks] loses no element, adds none and keeps the order:
    the elements of the blocks that it yields, one block after the
    other, are the elements that it read. *)
Theorem comment_blocks_keeps_elements (items : list Item) :
  flat_map block_items (comment_blocks items) = items.
Proof. apply (comment_blocks_from_items None items). Qed.

(** A comment block is not empty, its [lineFirst] is the number of its
    first line, and no line before its last is a finish. *)
Definition block_ok (b : Block) : Prop :=
  match b with
  | Line_ _ => True
  | Comment lineFirst lines =>
      (exists a rest, lines = a :: rest /\ lineFirst = a_number a)
      /\ Forall (fun x => a_part x <> "finish") (removelast lines)
  end.

Definition state_ok (st : option (nat * list Analysed)) : Prop :=
  match st with
  | None => True
  | Some (lineFirst, lines) =>
      (exists a rest, lines = a :: rest /\ lineFirst = a_number a)
      /\ Forall (fun x => a_part x <> "finish") lines
  end.

Lemma Forall_removelast (A : Type) (P : A -> Prop) l :
  Forall P l -> Forall P (removelast l).
Proof.
  induction 1 as [|x l Hx Hl IH]; simpl; auto.
  destruct l; auto.
Qed.

Lemma comment_blocks_from_ok st items :
  state_ok st -> Forall block_ok (comment_blocks_from st items).
Proof.
  revert st. induction items as [|i items IH]; intros st Hst.
  - destruct st as [[f ls]|]; simpl; auto.
    destruct Hst as [Hh Hf]. repeat constructor; auto.
    now apply Forall_removelast.
  - cbn [comment_blocks_from].
    destruct (comment_blocks_turn st i) as [yielded st'] eqn:E.
    apply Forall_app.
    assert (H : Forall block_ok yielded /\ state_ok st');
      [|destruct H; split; auto].
    destruct i as [l|a]; simpl in E.
    + destruct st as [[f ls]|]; inversion E; subst; simpl; split; auto.
      destruct Hst as [Hh Hf]. repeat constructor; auto.
      now apply Forall_removelast.
    + assert (Hhead : exists f ls,
                 match st with
                 | Some c => c
                 | None => (a_number a, [])
                 end = (f, ls)
                 /\ (exists a0 rest, ls ++ [a] = a0 :: rest
                                     /\ f = a_number a0)
                 /\ Forall (fun x => a_part x <> "finish") ls).
      { destruct st as [[f ls]|].
        - exists f, ls. destruct Hst as [(a0 & rest & -> & Hf0) Hf].
          repeat split; auto. exists a0, (rest ++ [a]). auto.
        - exists (a_number a), []. repeat split; auto.
          exists a, []. auto. }
      destruct Hhead as (f & ls & Ec & Hh & Hf). rewrite Ec in E.
      destruct (String.eqb_spec (a_part a) "finish") as [Ef|Ef];
        inversion E; subst; simpl; split; auto.
      * repeat constructor; auto. now rewrite removelast_last.
      * split; auto. apply Forall_app. auto.
Qed.

(** Every comment element that [comment_blocks] yields has at least one
    line, has the number of its first line as [lineFirst], and has no
    finish before its last line. *)
Theorem comment_blocks_well_formed (items : list Item) :
  Forall block_ok (comment_blocks items).
Proof. apply comment_blocks_from_ok. exact I. Qed.







Lemma chars_append a b :
  list_ascii_of_string (String.append a b)
  = list_ascii_of_string a ++ list_ascii_of_string b.
Proof. induction a as [|x a IH]; simpl; congruence. Qed.

Lemma in_spaces c n :
  In c (list_ascii_of_string (PyStr.spaces n)) -> c = " "%char.
Proof. induction n as [|n IH]; simpl; [easy|]. intros [H|H]; auto. Qed.

(** No tab is left in a text by [expandtabs]. *)
Lemma expandtabs_from_no_tab tabSize s :
  forall column c,
    In c (list_ascii_of_string (expandtabs_from tabSize column s)) ->
    nat_of_ascii c <> 9.
Proof.
  induction s as [|x s IH]; intros column c; simpl; [easy|].
  destruct (Nat.eqb_spec (nat_of_ascii x) 9) as [E|E].
  - destruct (Nat.ltb 0 tabSize); [|apply IH].
    rewrite chars_append. intros H. apply in_app_or in H as [H|H].
    + apply in_spaces in H. subst. discriminate.
    + eapply IH; eauto.
  - simpl. intros [<-|H]; auto. eapply IH; eauto.
Qed.

(** After [read_lines] has expanded the tabs, with any tab size, no line
    element holds a tab. *)
Theorem line_expand_tabs_leaves_no_tab (tabSize : nat) (l : list Line) :
  Forall (fun e => forall c, In c (list_ascii_of_string (l_text e)) ->
                             nat_of_ascii c <> 9)
    (line_expand_tabs tabSize l).
Proof.
  unfold line_expand_tabs. apply Forall_forall. intros e He.
  apply in_map_iff in He as (e0 & <- & _). simpl.
  intros c Hc. eapply expandtabs_from_no_tab; eauto.
Qed.

(** The loop of [line_star_slash] ends on every file: each turn takes
    text off the line element that it holds. *)
Theorem line_star_slash_ends (tabSize : nat) (file : list string) :
  exists r, read_lines tabSize file = Some r.
Proof.
  unfold read_lines, line_star_slash.
  pose proof (star_slash_from_total
                (line_expand_tabs tabSize (line_elements 0 file)) false).
  destruct (star_slash_from false _) as [[[items ic]|]|]; eauto. easy.
Qed.

End BlockFacts.




(** ** More on getter.py *)

Section GetterMore.

Import DocGetter.

Variable files : string -> option (list string).

(** A name that [Cache.read] takes for a fragment. *)
Definition name_ok (frag : string) : Prop :=
  frag <> "" /\ PyStr.startswith "#" frag = false.

Definition cur_ok (cur : option (string * list string)) : Prop :=
  match cur with
  | Some (frag, _) => name_ok frag
  | None => True
  end.

Lemma read_line_names path cur line :
  cur_ok cur ->
  Forall (fun c => absPath c = path /\ name_ok (fragment c))
    (fst (read_line path cur line))
  /\ cur_ok (snd (read_line path cur line)).
Proof.
  intros Hc. unfold read_line.
  assert (Hnew : cur_ok
                   (if PyStr.startswith "#" line
                    then
                      if String.eqb (PyStr.strip (PyStr.drop 1 line)) ""
                         || PyStr.startswith "#"
                              (PyStr.strip (PyStr.drop 1 line))
                      then None
                      else Some (PyStr.strip (PyStr.drop 1 line), [])
                    else None)).
  { destruct (PyStr.startswith "#" line); [|exact I].
    remember (PyStr.strip (PyStr.drop 1 line)) as frag.
    destruct (String.eqb_spec frag ""); [exact I|].
    destruct (PyStr.startswith "#" frag) eqn:E; [exact I|].
    split; auto. }
  remember (if PyStr.startswith "#" line
            then
              if String.eqb (PyStr.strip (PyStr.drop 1 line)) ""
                 || PyStr.startswith "#" (PyStr.strip (PyStr.drop 1 line))
              then None
              else Some (PyStr.strip (PyStr.drop 1 line), [])
            else None) as new.
  destruct cur as [[frag content]|]; simpl.
  - destruct (PyStr.startswith "#" line
              && negb (PyStr.startswith "##" line)); simpl.
    + split; auto.
    + split; auto.
  - split; auto.
Qed.

Lemma read_from_names path lines :
  forall cur,
    cur_ok cur ->
    Forall (fun c => absPath c = path /\ name_ok (fragment c))
      (read_from path cur lines).
Proof.
  induction lines as [|line lines IH]; intros cur Hc.
  - destruct cur as [[frag content]|]; simpl; auto.
  - cbn [read_from].
    destruct (@read_line_names path cur line Hc) as [Hy Hc'].
    destruct (read_line path cur line) as [yielded cur'].
    apply Forall_app. split; auto.
Qed.

(** Every fragment that [Cache.read] yields has the path of the file,
    and a name that is not empty and does not start with a hash. *)
Theorem Cache_read_names (path : string) (lines : list string) :
  Forall (fun c => absPath c = path /\ fragment c <> ""
                   /\ PyStr.startswith "#" (fragment c) = false)
    (Cache_read path lines).
Proof. apply read_from_names. exact I. Qed.

(** The last character of a text is in a class. *)
Fixpoint ends_with (f : ascii -> bool) (s : string) : bool :=
  match s with
  | EmptyString => false
  | String c t =>
      match t with
      | EmptyString => f c
      | _ => ends_with f t
      end
  end.

(** The content of a fragment does not end with an end of line. *)
Definition stripped (c : Cache) : Prop :=
  ends_with PyStr.is_eol (last (contentLines c) "") = false.

Lemma rstrip_by_ends f s : ends_with f (PyStr.rstrip_by f s) = false.
Proof.
  induction s as [|c t IH]; simpl; auto.
  destruct (PyStr.rstrip_by f t) as [|c' r] eqn:E.
  - destruct (f c) eqn:Ef; simpl; auto.
  - simpl in *. exact IH.
Qed.

Lemma last_rstrip_last l :
  last (rstrip_last l) "" = PyStr.rstrip_by PyStr.is_eol (last l "").
Proof.
  induction l as [|x l IH]; simpl; auto.
  destruct l as [|y l]; auto.
  change (rstrip_last (x :: y :: l)) with (x :: rstrip_last (y :: l)).
  change (last (x :: y :: l) "") with (last (y :: l) "").
  rewrite <- IH. simpl. destruct l; reflexivity.
Qed.

Lemma read_from_stripped path lines :
  forall cur, Forall stripped (removelast (read_from path cur lines)).
Proof.
  induction lines as [|line lines IH]; intros cur.
  - destruct cur as [[frag content]|]; simpl; auto.
  - cbn [read_from].
    assert (Hy : Forall stripped (fst (read_line path cur line))).
    { unfold read_line. destruct cur as [[frag content]|]; simpl; auto.
      destruct (PyStr.startswith "#" line
                && negb (PyStr.startswith "##" line)); simpl; auto.
      constructor; auto. unfold stripped. simpl.
      rewrite last_rstrip_last. apply rstrip_by_ends. }
    destruct (read_line path cur line) as [yielded cur']. simpl in Hy.
    destruct (read_from path cur' lines) as [|c rest] eqn:E.
    + rewrite app_nil_r. now apply Forall_removelast.
    + rewrite removelast_app by discriminate.
      apply Forall_app. split; auto. rewrite <- E. apply IH.
Qed.

(** Every fragment that [Cache.read] yields, but the last that it
    yields, has the end of line taken off its last line: only a fragment
    that runs to the end of the file can keep it. *)
Theorem Cache_read_strips_before_header (path : string) (lines : list string) :
  Forall stripped (removelast (Cache_read path lines)).
Proof. apply read_from_stripped. Qed.

Lemma load_caches_raise path caches :
  forall seen st e,
    load_caches path caches seen st = Raise e ->
    e = RuntimeError
    /\ ~ (NoDup (map fragment caches)
          /\ forall c, In c caches -> ~ In (fragment c) seen).
Proof.
  induction caches as [|c caches IH]; intros seen st e H; simpl in H;
    [easy|].
  destruct (mem (fragment c) seen) eqn:Em.
  - inversion H; subst. split; auto. intros [_ Hd].
    apply (Hd c); simpl; auto. now apply mem_In.
  - destruct (IH _ _ _ H) as [-> Hn]. split; auto.
    intros [Hnd Hd]. apply Hn. simpl in Hnd.
    inversion Hnd as [|? ? Hc Hnd']; subst. split; auto.
    intros x Hx Hin. apply in_app_or in Hin as [Hin|[Hin|[]]].
    + apply (Hd x); simpl; auto.
    + apply Hc. rewrite Hin. now apply in_map.
Qed.

(** [load_file] on a file that is not in the list of the cached files:
    it raises [RuntimeError] when a name comes twice in the file, and no
    other error; if not, the fragments are put in front of the cached
    ones, the last of the file first, and the path is appended to the
    cached files once for each fragment, so not at all for a file
    without fragments. *)
Theorem load_file_new (path : string) (lines : list string) (st : State) :
  mem path (cachedFiles st) = false ->
  files path = Some lines ->
  match load_file files path st with
  | Ok st' =>
      NoDup (map fragment (Cache_read path lines))
      /\ cachedFragments st'
         = rev (Cache_read path lines) ++ cachedFragments st
      /\ cachedFiles st'
         = cachedFiles st
           ++ repeat path (List.length (Cache_read path lines))
  | Raise e =>
      e = RuntimeError /\ ~ NoDup (map fragment (Cache_read path lines))
  end.
Proof.
  intros Hm Hf. unfold load_file. rewrite Hm, Hf.
  destruct (load_caches path (Cache_read path lines) [] st) as [st'|e] eqn:E.
  - apply load_caches_ok in E as (H1 & H2 & H3). auto.
  - apply load_caches_raise in E as [-> Hn]. split; auto.
Qed.

End GetterMore.

(** A file where the name [a] comes twice. *)
Definition twice_files (path : string) : option (list string) :=
  if String.eqb path "/doc.md"
  then Some [String.append "# a" PyStr.LF; String.append "one" PyStr.LF;
             String.append "# a" PyStr.LF; String.append "two" PyStr.LF]
  else None.

Lemma load_file_new_witness :
  match DocGetter.load_file twice_files "/doc.md" DocGetter.empty with
  | Ok _ => False
  | Raise e => e = RuntimeError
  end.
Proof.
  pose proof (@load_file_new twice_files "/doc.md"
                [String.append "# a" PyStr.LF; String.append "one" PyStr.LF;
                 String.append "# a" PyStr.LF; String.append "two" PyStr.LF]
                DocGetter.empty eq_refl eq_refl) as H.
  destruct (DocGetter.load_file twice_files "/doc.md" DocGetter.empty)
    as [st'|e] eqn:E.
  - vm_compute in E. discriminate.
  - exact (proj1 H).
Defined.

Section ReadMore.

Import ET DocGetter.

Variable files : string -> option (list string).
Variable urlparse : string -> ParseResult.
Variable file_path : bool -> option string -> string -> result string.
Variable relpath : string -> string.
Variable treeParser : string -> Element.

(** [read] yields a tree in which nothing below the root is unresolved
    as it is, after one pass, and does not ask the getter for
    anything. *)
Theorem read_keeps_resolved_tree
    (fuel : nat) (element : Element) (st : State) :
  (forall d, In d (descendants element) -> unresolved d = false) ->
  read files urlparse file_path relpath treeParser (S fuel) element st
  = Some (Ok (element, st)).
Proof.
  intros H. cbn [read]. unfold pass, pass_list.
  rewrite thread_clean.
  - simpl. now destruct element.
  - apply Forall_forall. intros c _ st' count' Hc.
    now apply pass_node_clean.
  - apply Forall_forall. intros c Hc d Hd. apply H.
    eapply in_iter_child; eauto.
Qed.

End ReadMore.

Lemma read_keeps_resolved_tree_witness :
  DocGetter.read (fun _ => None) chain_urlparse
    (fun _ _ _ => Raise IOError) (fun path => path) chain_parser
    1 single_example DocGetter.empty
  = Some (Ok (single_example, DocGetter.empty)).
Proof.
  apply (@read_keeps_resolved_tree (fun _ => None) chain_urlparse
           (fun _ _ _ => Raise IOError) (fun path => path) chain_parser
           0 single_example DocGetter.empty).
  intros d Hd. simpl in Hd.
  repeat (destruct Hd as [<-|Hd]; [reflexivity|]). easy.
Defined.

(** ** Lines: what shuffling and the setters keep *)

Section LineMore.

Import CommentBlock CommentLine.

Lemma spaces_add a b :
  PyStr.spaces (a + b) = String.append (PyStr.spaces a) (PyStr.spaces b).
Proof. induction a as [|a IH]; simpl; congruence. Qed.

Lemma length_spaces n : String.length (PyStr.spaces n) = n.
Proof. induction n as [|n IH]; simpl; congruence. Qed.

Lemma count_spaces_le s : count_spaces s <= String.length s.
Proof.
  induction s as [|c t IH]; simpl; auto. destruct (Ascii.eqb c " "); lia.
Qed.

Lemma count_spaces_all s :
  String.length s = count_spaces s <-> s = PyStr.spaces (String.length s).
Proof.
  induction s as [|c t IH]; simpl; [tauto|].
  pose proof (count_spaces_le t).
  destruct (Ascii.eqb_spec c " ") as [->|Hc]; split; intros E.
  - f_equal. apply IH. lia.
  - injection E as E'. simpl. f_equal. apply IH. exact E'.
  - lia.
  - injection E as Ec _. congruence.
Qed.

Lemma count_spaces_spaces n : count_spaces (PyStr.spaces n) = n.
Proof. induction n as [|n IH]; simpl; congruence. Qed.

(** The setter of [indentStr] takes the strings of spaces and no other
    string, with a [ValueError] for the others, and the getter gives back
    the string that was set. *)
Theorem indentStr_round_trip (line : CommentLine) (s : string) :
  match set_indentStr line (Some s) with
  | Ok line' =>
      indentStr line' = Some s /\ s = PyStr.spaces (String.length s)
  | Raise e =>
      e = ValueError /\ s <> PyStr.spaces (String.length s)
  end.
Proof.
  unfold set_indentStr.
  destruct (Nat.eqb_spec (String.length s) (count_spaces s)) as [E|E];
    simpl.
  - apply count_spaces_all in E. unfold indentStr. simpl.
    split; [now rewrite <- E|exact E].
  - split; auto. intros E'. apply E. now apply count_spaces_all.
Qed.

(** What [rstrip_by] takes off is at the end, and is all in the class. *)
Lemma rstrip_by_split f s :
  exists r,
    s = String.append (PyStr.rstrip_by f s) r
    /\ forallb f (list_ascii_of_string r) = true.
Proof.
  induction s as [|c t (r & E & Hr)]; simpl.
  - exists "". auto.
  - destruct (PyStr.rstrip_by f t) as [|c' u] eqn:Eu.
    + simpl in E. subst r. destruct (f c) eqn:Ef.
      * exists (String c t). simpl. now rewrite Ef.
      * exists t. auto.
    + exists r. split; auto. simpl in *. now rewrite <- E.
Qed.

Lemma take_append a b : PyStr.take (String.length a) (String.append a b) = a.
Proof. induction a as [|c a IH]; simpl; [now destruct b|congruence]. Qed.

Lemma drop_append a b : PyStr.drop (String.length a) (String.append a b) = b.
Proof. induction a as [|c a IH]; simpl; auto. Qed.

(** The setter of [textEOL] cuts the value in two without loss: the
    getter gives the value back, the text does not end with a carriage
    return or a line feed, and the end of line has nothing else. *)
Theorem textEOL_round_trip (line : CommentLine) (s : string) :
  textEOL (set_textEOL line (Some s)) = Some s
  /\ ends_with PyStr.is_eol
       (opt_str (CommentBlock.text (set_textEOL line (Some s)))) = false
  /\ forallb PyStr.is_eol
       (list_ascii_of_string
          (opt_str (CommentBlock.eol (set_textEOL line (Some s))))) = true.
Proof.
  unfold textEOL, set_textEOL, SlashStarsParser.eol_start. simpl.
  destruct (rstrip_by_split PyStr.is_eol s) as (r & E & Hr).
  rewrite take_drop. split; auto.
  rewrite E at 2 4. rewrite take_append, drop_append.
  split; auto. apply rstrip_by_ends.
Qed.

(** [CommentBlock._shuffle] may move the symbol, the margin and a part
    of the indent of a line into its text, and does not change what the
    line stands for. *)
Theorem shuffle_keeps_content (indentStart : nat) (line : CommentLine) :
  content (shuffle indentStart line) = content line.
Proof.
  destruct line as [n t i sy m tx e].
  unfold shuffle, content, indentStr, marginStr.
  cbn [indent symbol margin CommentBlock.text eol lineNumber lineType].
  set (loss := match i with
               | Some i0 =>
                   if Nat.ltb (indentStart + 1) i0
                   then i0 - (indentStart + 1) else 0
               | None => 0
               end).
  set (m1 := match m with
             | Some m0 => m0
             | None => 0
             end).
  assert (Hm : opt_str (option_map PyStr.spaces m) = PyStr.spaces m1)
    by (destruct m; reflexivity).
  assert (Hi : opt_str (option_map PyStr.spaces i)
               = String.append
                   (opt_str (option_map PyStr.spaces
                               (option_map (fun i0 => i0 - loss) i)))
                   (PyStr.spaces loss)).
  { unfold loss. destruct i as [i0|]; simpl; auto.
    destruct (Nat.ltb_spec (indentStart + 1) i0).
    - rewrite <- spaces_add. f_equal. lia.
    - simpl. now rewrite Nat.sub_0_r, append_nil_r. }
  destruct (Nat.eqb loss 0 && String.eqb (opt_str sy) "" && Nat.eqb m1 0)
    eqn:Ec;
    cbn [indent symbol margin CommentBlock.text eol lineNumber lineType].
  - apply andb_true_iff in Ec as [Ec _].
    apply andb_true_iff in Ec as [El _]. apply Nat.eqb_eq in El.
    rewrite Hi, El. simpl (PyStr.spaces 0). now rewrite append_nil_r.
  - rewrite Hi, Hm. cbn [opt_str option_map].
    rewrite !join_cons. change (PyStr.join []) with "".
    rewrite ?append_nil_r, ?append_assoc. cbn [String.append].
    reflexivity.
Qed.

End LineMore.

Section ShuffleFacts.

Import CommentTree CommentShuffle.

(** [_shuffle_lines] moves the symbol, the margin and what is too much
    of the indent of a line into the text of the comment, which is the
    tail of the margin, and does not change what the line stands for, when
    nothing stands between its indent, its symbol and its margin. *)
Theorem shuffle_line_keeps_text (indentStart : nat) (line : Analysed) :
  ET_tail (a_indent line) = "" ->
  ET_tail (a_symbol line) = "" ->
  render_analysed (shuffle_line indentStart line) = render_analysed line.
Proof.
  intros Hi Hs. unfold render_analysed, render_child, shuffle_line.
  destruct line as [n p [it il] [st sl] [mt ml] e].
  unfold ET_tail, ET_text, ET_text_len in *. simpl in *.
  fold (opt il) in Hi. fold (opt sl) in Hs. rewrite Hi, Hs.
  rewrite !join_cons. simpl.
  rewrite !append_nil_r, !append_assoc.
  destruct (Nat.ltb (indentStart + 1)
              match it with Some t => String.length t | None => 0 end);
    simpl.
  - rewrite <- append_assoc, take_drop.
    destruct it, st, mt, ml; simpl; rewrite ?append_nil_r; reflexivity.
  - destruct it, st, mt, ml; simpl; rewrite ?append_nil_r; reflexivity.
Qed.

End ShuffleFacts.

Lemma shuffle_line_keeps_text_witness :
  render_analysed
    (CommentShuffle.shuffle_line 0
       (CommentTree.mkAnalysed 2 "continue"
          (CommentTree.mkChild (Some "   ") (Some ""))
          (CommentTree.mkChild (Some "*") (Some ""))
          (CommentTree.mkChild (Some " ") (Some "item"))
          (Some (CommentTree.mkChild (Some PyStr.LF) None))))
  = String.append "   * item" PyStr.LF.
Proof.
  rewrite (@shuffle_line_keeps_text 0
             (CommentTree.mkAnalysed 2 "continue"
                (CommentTree.mkChild (Some "   ") (Some ""))
                (CommentTree.mkChild (Some "*") (Some ""))
                (CommentTree.mkChild (Some " ") (Some "item"))
                (Some (CommentTree.mkChild (Some PyStr.LF) None)))
             eq_refl eq_refl).
  reflexivity.
Defined.

(** ** _analyse_indentation and _shuffle_comment *)

Section ManipulateFacts.

Import CommentTree CommentShuffle CommentManipulate.

(** The lines that [_analyse_indentation] looks at. *)
Definition counted (allHaveSymbol : bool) (line : Analysed) : bool :=
  String.eqb (a_part line) "continue"
  && negb (passed_over allHaveSymbol line).

(** The lengths of their indents, in order. *)
Definition indents (allHaveSymbol : bool) (lines : list Analysed)
    : list nat :=
  map (fun l => ET_text_len (a_indent l))
    (filter (counted allHaveSymbol) lines).

Lemma indents_cons a line lines :
  indents a (line :: lines)
  = if counted a line
    then ET_text_len (a_indent line) :: indents a lines
    else indents a lines.
Proof. unfold indents. simpl. now destruct (counted a line). Qed.

Lemma analyse_indentation_from_some a s k lines :
  analyse_indentation_from a s (Some k) lines
  = (forallb (fun n => Nat.eqb n k) (indents a lines), Some k).
Proof.
  induction lines as [|line lines IH]; [reflexivity|].
  cbn [analyse_indentation_from]. rewrite indents_cons. unfold counted.
  destruct (String.eqb (a_part line) "continue"); cbn [negb andb]; auto.
  destruct (passed_over a line); cbn [negb]; auto.
  cbn [forallb].
  destruct (Nat.eqb (ET_text_len (a_indent line)) k); cbn [negb andb]; auto.
Qed.

(** [_analyse_indentation] in one piece: the comment is indented well
    when the first line that counts has the indent of the start or one
    more, and all the others that count have the indent of the first;
    [indentContinue] is the indent of the first line that counts, when it
    is one of the two. *)
Theorem analyse_indentation_meaning
    (allHaveSymbol : bool) (indentStart : nat) (lines : list Analysed) :
  analyse_indentation allHaveSymbol indentStart lines
  = match indents allHaveSymbol lines with
    | [] => (true, None)
    | k :: rest =>
        if Nat.eqb k indentStart || Nat.eqb k (indentStart + 1)
        then (forallb (fun n => Nat.eqb n k) rest, Some k)
        else (false, None)
    end.
Proof.
  unfold analyse_indentation.
  induction lines as [|line lines IH]; [reflexivity|].
  cbn [analyse_indentation_from]. rewrite indents_cons. unfold counted.
  destruct (String.eqb (a_part line) "continue"); cbn [negb andb]; auto.
  destruct (passed_over allHaveSymbol line); cbn [negb]; auto.
  destruct (Nat.eqb (ET_text_len (a_indent line)) indentStart
            || Nat.eqb (ET_text_len (a_indent line)) (indentStart + 1));
    auto.
  apply analyse_indentation_from_some.
Qed.

(** *** The numbers of the lines *)

Lemma sorted_app (l1 l2 : list nat) :
  StronglySorted le l1 -> StronglySorted le l2 ->
  (forall a b, In a l1 -> In b l2 -> a <= b) ->
  StronglySorted le (l1 ++ l2).
Proof.
  induction 1 as [|x l1 H1 IH Hx]; intros H2 Hc; simpl; auto.
  constructor.
  - apply IH; auto. intros a b Ha Hb. apply Hc; simpl; auto.
  - apply Forall_app. split; auto.
    apply Forall_forall. intros b Hb. apply Hc; simpl; auto.
Qed.

Lemma sorted_app_inv (l1 l2 : list nat) :
  StronglySorted le (l1 ++ l2) ->
  StronglySorted le l1 /\ StronglySorted le l2.
Proof.
  induction l1 as [|x l1 IH]; simpl; intros H.
  - split; [constructor|exact H].
  - inversion H as [|? ? Hs Hf]; subst.
    destruct (IH Hs) as [H1 H2]. split; auto.
    constructor; auto. apply Forall_app in Hf. tauto.
Qed.

Lemma sorted_same (n : nat) (l : list nat) :
  Forall (fun x => x = n) l -> StronglySorted le l.
Proof.
  induction 1 as [|x l Hx Hl IH]; constructor; auto.
  subst. apply Forall_forall. intros y Hy.
  rewrite Forall_forall in Hl. now rewrite (Hl y Hy).
Qed.

Lemma sorted_seq a n : StronglySorted le (seq a n).
Proof.
  revert a. induction n as [|n IH]; intros a; simpl; constructor; auto.
  apply Forall_forall. intros x Hx. apply in_seq in Hx. lia.
Qed.

Lemma sorted_last x (l : list nat) d :
  StronglySorted le (x :: l) -> x <= last (x :: l) d.
Proof.
  intros H. inversion H as [|? ? _ Hf]; subst.
  destruct l as [|y l]; [simpl; lia|].
  rewrite Forall_forall in Hf. apply Hf.
  change (last (x :: y :: l) d) with (last (y :: l) d).
  assert (Hne : y :: l <> []) by discriminate.
  rewrite (app_removelast_last d Hne) at 2.
  apply in_or_app. right. now left.
Qed.

Lemma line_elements_numbers k lines :
  map l_number (line_elements k lines) = seq (S k) (List.length lines).
Proof.
  revert k. induction lines as [|line lines IH]; intros k; simpl; auto.
  now rewrite IH.
Qed.

Lemma groups_numbers lines :
  forall groups,
    Forall2
      (fun line g => Forall (fun i => item_number i = l_number line) g)
      lines groups ->
    StronglySorted le (map l_number lines) ->
    StronglySorted le (map item_number (List.concat groups))
    /\ Forall (fun i => In (item_number i) (map l_number lines))
         (List.concat groups).
Proof.
  induction lines as [|line lines IH]; intros groups HF Hs;
    inversion HF as [|? g ? gs Hg HF']; subst; simpl.
  - split; constructor.
  - inversion Hs as [|? ? Hs' Hle]; subst.
    destruct (IH gs HF' Hs') as [IH1 IH2].
    split.
    + rewrite map_app. apply sorted_app; auto.
      * apply (@sorted_same (l_number line)).
        apply Forall_map. exact Hg.
      * intros a b Ha Hb.
        apply in_map_iff in Ha as (i & <- & Hi).
        apply in_map_iff in Hb as (j & <- & Hj).
        rewrite Forall_forall in Hg, IH2, Hle.
        rewrite (Hg i Hi). apply Hle. now apply IH2.
    + apply Forall_app. split.
      * apply Forall_forall. intros i Hi.
        rewrite Forall_forall in Hg. left. symmetry. now apply Hg.
      * apply Forall_forall. intros i Hi.
        rewrite Forall_forall in IH2. right. now apply IH2.
Qed.

(** The elements that [read_lines] yields have the numbers of the
    lines of the file, and have them in order. *)
Lemma read_lines_numbers tabSize file items :
  read_lines tabSize file = Some (Ok items) ->
  StronglySorted le (map item_number items)
  /\ Forall (fun i => 1 <= item_number i <= List.length file) items.
Proof.
  unfold read_lines, line_star_slash. intros H.
  destruct (star_slash_from false _) as [[[items' ic]|]|] eqn:E; try easy.
  inversion H; subst; clear H.
  apply star_slash_from_spec in E as (groups & -> & HF).
  assert (Hn : map l_number
                 (line_expand_tabs tabSize (line_elements 0 file))
               = seq 1 (List.length file)).
  { unfold line_expand_tabs. rewrite map_map. simpl.
    apply line_elements_numbers. }
  destruct (@groups_numbers
              (line_expand_tabs tabSize (line_elements 0 file)) groups)
    as [H1 H2].
  - eapply Forall2_impl; [|exact HF]. intros line g [_ Hg]. exact Hg.
  - rewrite Hn. apply sorted_seq.
  - split; auto. rewrite Hn in H2.
    eapply Forall_impl; [|exact H2]. intros i Hi. apply in_seq in Hi. lia.
Qed.

Lemma shuffle_lines_numbers indentStart lines :
  map a_number (shuffle_lines indentStart lines) = map a_number lines.
Proof.
  unfold shuffle_lines. rewrite map_map. apply map_ext. intros line.
  now destruct (String.eqb (a_part line) "continue").
Qed.

(** [manipulate_comment_lines] after [comment_blocks] after
    [read_lines]: for every file, [_shuffle_comment] finds an indent in
    every comment, so its [AssertionError] is not reached, and the comment
    runs from [lineFirst] to [lineLast], two numbers of lines of the file
    in that order. *)
Theorem shuffle_comment_line_span
    (tabSize : nat) (file : list string) (items : list Item)
    (lineFirst : nat) (lines : list Analysed) :
  read_lines tabSize file = Some (Ok items) ->
  In (Comment lineFirst lines) (comment_blocks items) ->
  exists s,
    shuffle_comment lineFirst lines = Ok s
    /\ map a_number (s_lines s) = map a_number lines
    /\ 1 <= lineFirst
    /\ lineFirst <= s_lineLast s
    /\ s_lineLast s <= List.length file.
Proof.
  intros Hr Hin.
  destruct (read_lines_numbers _ _ Hr) as [Hs Hb].
  pose proof (@comment_blocks_from_ok None items I) as Hok.
  rewrite Forall_forall in Hok.
  destruct (Hok _ Hin) as [(a & rest & -> & ->) _].
  pose proof (comment_blocks_from_items None items) as Hitems.
  simpl in Hitems.
  apply in_split in Hin as (b1 & b2 & Hblocks).
  unfold comment_blocks in Hblocks. rewrite Hblocks in Hitems.
  rewrite flat_map_app in Hitems. cbn [flat_map block_items] in Hitems.
  rewrite <- Hitems in Hs, Hb.
  rewrite !map_app, map_map in Hs. cbn [item_number] in Hs.
  apply sorted_app_inv in Hs as [_ Hs].
  apply sorted_app_inv in Hs as [Hs _].
  apply Forall_app in Hb as [_ Hb]. apply Forall_app in Hb as [Hb _].
  rewrite Forall_map in Hb. cbn [item_number] in Hb.
  unfold shuffle_comment.
  set (allHaveSymbol :=
         negb (existsb (fun l => String.eqb (ET_text (a_symbol l)) "")
                 (a :: rest))).
  set (lines1 := if allHaveSymbol then a :: rest
                 else shuffle_lines (ET_text_len (a_indent a)) (a :: rest)).
  assert (Hnum : map a_number lines1 = map a_number (a :: rest))
    by (unfold lines1; destruct allHaveSymbol;
        [reflexivity|apply shuffle_lines_numbers]).
  destruct (analyse_indentation allHaveSymbol _ lines1) as [ok ic].
  eexists. split; [reflexivity|]. cbn [s_lines s_lineLast].
  rewrite Hnum. split; [reflexivity|].
  assert (Hlast : In (last (map a_number (a :: rest)) (a_number a))
                    (map a_number (a :: rest))).
  { assert (Hne : map a_number (a :: rest) <> []) by discriminate.
    rewrite (app_removelast_last (a_number a) Hne) at 2.
    apply in_or_app. right. now left. }
  apply in_map_iff in Hlast as (z & Hz & Hzin).
  rewrite Forall_forall in Hb.
  split; [apply (Hb a); now left|]. split.
  - apply (@sorted_last _ _ _ Hs).
  - rewrite <- Hz. now apply Hb.
Qed.

End ManipulateFacts.

(** A file with a comment of two lines and a line after it. *)
Definition span_example : list string :=
  [String.append "/** One" PyStr.LF;
   String.append " *  two. */" PyStr.LF;
   String.append "int x;" PyStr.LF].

Lemma shuffle_comment_line_span_witness :
  exists items lineFirst lines s,
    CommentTree.read_lines 4 span_example = Some (Ok items)
    /\ In (CommentTree.Comment lineFirst lines)
         (CommentTree.comment_blocks items)
    /\ CommentManipulate.shuffle_comment lineFirst lines = Ok s
    /\ map CommentTree.a_number (CommentManipulate.s_lines s)
       = map CommentTree.a_number lines
    /\ 1 <= lineFirst
    /\ lineFirst <= CommentManipulate.s_lineLast s
    /\ CommentManipulate.s_lineLast s <= 3.
Proof.
  match eval vm_compute in (CommentTree.read_lines 4 span_example) with
  | Some (Ok ?its) =>
      assert (E : CommentTree.read_lines 4 span_example = Some (Ok its))
        by (vm_compute; reflexivity);
      match eval vm_compute in (CommentTree.comment_blocks its) with
      | CommentTree.Comment ?f ?ls :: _ =>
          assert (Hin : In (CommentTree.Comment f ls)
                          (CommentTree.comment_blocks its))
            by (vm_compute; left; reflexivity);
          destruct (@shuffle_comment_line_span 4 span_example its f ls
                      E Hin) as (s & H);
          exists its, f, ls, s; split; [exact E|split; [exact Hin|exact H]]
      end
  end.
Defined.

(** ** write_replacement *)

Section ReplacementFacts.

Import SlashStarsParser CommentTree CommentShuffle CommentManipulate.
Import Replacement.

Ltac unbind H :=
  match type of H with
  | bind ?r _ = Ok _ =>
      let E := fresh "E" in
      destruct r eqn:E; simpl in H; [|discriminate H]
  | (if ?b then _ else _) = Ok _ =>
      let E := fresh "E" in destruct b eqn:E; try discriminate H
  | (let '(_, _) := ?x in _) = Ok _ => destruct x
  | match ?x with _ => _ end = Ok _ =>
      let E := fresh "E" in destruct x eqn:E; try discriminate H
  end.

(** *** The parts that line_star_slash yields, in order *)

(** What an element does to [inComment], when it can come there. *)
Definition part_step (inComment : bool) (i : Item) : option bool :=
  match i with
  | Plain _ => if inComment then None else Some false
  | Part a =>
      if String.eqb (a_part a) "start" then
        if inComment then None
        else match a_eol a with
             | Some _ => Some true
             | None => None
             end
      else if String.eqb (a_part a) "continue" then
        if inComment then Some true else None
      else if String.eqb (a_part a) "finish" then
        if inComment then Some false else None
      else None
  end.

Fixpoint parts_run (inComment : bool) (items : list Item) : option bool :=
  match items with
  | [] => Some inComment
  | i :: rest =>
      match part_step inComment i with
      | Some inComment' => parts_run inComment' rest
      | None => None
      end
  end.

Lemma parts_run_app ic l1 l2 :
  parts_run ic (l1 ++ l2)
  = match parts_run ic l1 with
    | Some ic1 => parts_run ic1 l2
    | None => None
    end.
Proof.
  revert ic. induction l1 as [|i l1 IH]; intros ic; simpl; auto.
  destruct (part_step ic i); auto.
Qed.

Lemma step_start a :
  a_part a = "start" -> a_eol a <> None ->
  part_step false (Part a) = Some true.
Proof. simpl. intros -> He. simpl. now destruct (a_eol a). Qed.

Lemma step_continue a :
  a_part a = "continue" -> part_step true (Part a) = Some true.
Proof. simpl. now intros ->. Qed.

Lemma step_finish a :
  a_part a = "finish" -> part_step true (Part a) = Some false.
Proof. simpl. now intros ->. Qed.

Lemma analyse_line_part search part line a l' :
  analyse_line search part line = Ok (Some (a, l')) -> a_part a = part.
Proof.
  unfold analyse_line. intros H.
  destruct (search (l_text line)) as [m|]; [|discriminate].
  unbind H. unbind H. now inversion H; subst.
Qed.

Lemma analyse_child_tail_part a a' :
  analyse_child_tail a = Ok a' -> a_part a' = a_part a /\ a_eol a' <> None.
Proof.
  unfold analyse_child_tail. intros H.
  destruct (c_tail (a_margin a)); [|discriminate].
  inversion H; subst; simpl. split; [reflexivity|discriminate].
Qed.

Lemma turn_in_comment_parts yielded line analysis items rest ic' :
  turn_in_comment yielded line analysis = Ok (items, rest, ic') ->
  (forall a0, analysis = Some a0 -> a_part a0 = "start") ->
  exists more,
    items = yielded ++ more
    /\ parts_run
         match analysis with
         | Some _ => false
         | None => true
         end more = Some ic'.
Proof.
  intros H Ha. unfold turn_in_comment in H.
  unbind H. destruct a as [[fin l2]|]; simpl in H.
  - pose proof (analyse_line_part _ _ _ E) as Hpf. clear E.
    unbind H. destruct a as [analysed l4].
    unbind H. destruct a as [[yielded2 l5] ic2].
    inversion H; subst; clear H.
    unbind E0. unbind E0. inversion E0; subst; clear E0.
    eexists. split; [symmetry; apply app_assoc|].
    rewrite parts_run_app.
    assert (Hfin : forall x y z w,
               part_step true
                 (Part (mkAnalysed x (a_part fin) y z w (a_eol fin)))
               = Some false) by (intros; now apply step_finish).
    destruct analysis as [a0|].
    + pose proof (Ha a0 eq_refl) as Hp0.
      unbind E. unbind E. inversion E; subst; clear E.
      match goal with
      | Hc : analyse_child_tail _ = Ok _ |- _ =>
          apply analyse_child_tail_part in Hc as [Hp He]
      end.
      simpl in Hp. cbn [parts_run].
      rewrite step_start by congruence.
      cbn [parts_run]. now rewrite Hfin.
    + unbind E.
      destruct a as [[a1 l3]|].
      * unbind E. unbind E. inversion E; subst; clear E.
        match goal with
        | Hc : analyse_child_tail _ = Ok _ |- _ =>
            apply analyse_child_tail_part in Hc as [Hp He]
        end.
        assert (Hp1 : a_part a1 = "continue").
        { match goal with
          | Hm : (if _ then match_continue _ else _) = _ |- _ =>
              destruct (negb (String.eqb (l_text l2) ""));
              [apply analyse_line_part in Hm; exact Hm|discriminate]
          end. }
        cbn [parts_run].
        rewrite step_continue by congruence.
        cbn [parts_run]. now rewrite Hfin.
      * inversion E; subst; clear E.
        cbn [parts_run]. now rewrite Hfin.
  - unbind H. destruct a as [analysed l4]. simpl in H.
    inversion H; subst; clear H.
    eexists. split; [reflexivity|].
    destruct analysis as [a0|].
    + pose proof (Ha a0 eq_refl) as Hp0.
      unbind E0. unbind E0. inversion E0; subst; clear E0.
      match goal with
      | Hc : analyse_child_tail _ = Ok _ |- _ =>
          apply analyse_child_tail_part in Hc as [Hp He]
      end.
      simpl in Hp. cbn [parts_run].
      now rewrite step_start by congruence.
    + unbind E0.
      destruct a as [[a1 l3]|]; [|discriminate].
      unbind E0. unbind E0. inversion E0; subst; clear E0.
      match goal with
      | Hc : analyse_child_tail _ = Ok _ |- _ =>
          apply analyse_child_tail_part in Hc as [Hp He]
      end.
      assert (Hp1 : a_part a1 = "continue").
      { match goal with
        | Hm : (if _ then match_continue _ else _) = _ |- _ =>
            destruct (negb (String.eqb (l_text line) ""));
            [apply analyse_line_part in Hm; exact Hm|discriminate]
        end. }
      cbn [parts_run].
      now rewrite step_continue by congruence.
Qed.

Lemma star_slash_turn_parts line ic items rest ic' :
  star_slash_turn line ic = Ok (items, rest, ic') ->
  parts_run ic items = Some ic'.
Proof.
  unfold star_slash_turn. destruct ic; simpl.
  - intros H. apply turn_in_comment_parts in H; [|discriminate].
    now destruct H as (more & -> & Hr).
  - intros H. unbind H. destruct a as [[a l1]|].
    + unbind H. destruct a0 as [[yielded l2] analysis].
      unfold turn_start in E0.
      destruct (c_tail (a_margin a)) as [tail|]; [|discriminate].
      inversion E0; subst; clear E0.
      apply analyse_line_part in E.
      apply turn_in_comment_parts in H.
      2:{ intros a0 Ha0. now inversion Ha0; subst. }
      destruct H as (more & -> & Hr).
      rewrite parts_run_app.
      now destruct (negb (String.eqb (l_text l1) "")).
    + unbind H. now inversion H; subst.
Qed.

Lemma star_slash_line_parts fuel :
  forall line ic items ic',
    star_slash_line fuel line ic = Some (Ok (items, ic')) ->
    parts_run ic items = Some ic'.
Proof.
  induction fuel as [|fuel IH]; intros line ic items ic' H; [easy|].
  simpl in H.
  destruct (star_slash_turn line ic) as [[[yielded rest] ic1]|] eqn:E;
    [|easy].
  apply star_slash_turn_parts in E.
  destruct rest as [l'|].
  - destruct (star_slash_line fuel l' ic1) as [[[more ic2]|]|] eqn:E2;
      try easy.
    inversion H; subst; clear H.
    rewrite parts_run_app, E. eauto.
  - now inversion H; subst.
Qed.

Lemma star_slash_from_parts lines :
  forall ic items ic',
    star_slash_from ic lines = Some (Ok (items, ic')) ->
    parts_run ic items = Some ic'.
Proof.
  induction lines as [|line lines IH]; intros ic items ic' H.
  - simpl in H. now inversion H; subst.
  - cbn [star_slash_from] in H.
    destruct (star_slash_line _ line ic) as [[[yielded ic1]|]|] eqn:E;
      try easy.
    destruct (star_slash_from ic1 lines) as [[[more ic2]|]|] eqn:E2;
      try easy.
    inversion H; subst; clear H.
    apply star_slash_line_parts in E.
    rewrite parts_run_app, E. eauto.
Qed.

(** *** The comments that comment_blocks makes of them *)

(** The lines of a comment that has no finish yet: a start and
    continuations. *)
Definition opened (lines : list Analysed) : Prop :=
  exists s cs,
    lines = s :: cs
    /\ a_part s = "start" /\ a_eol s <> None
    /\ Forall (fun c => a_part c = "continue") cs.

(** The lines of a comment with its finish. *)
Definition closed (lines : list Analysed) : Prop :=
  exists s cs f,
    lines = s :: cs ++ [f]
    /\ a_part s = "start" /\ a_eol s <> None
    /\ Forall (fun c => a_part c = "continue") cs
    /\ a_part f = "finish".

Definition block_closed (b : Block) : Prop :=
  match b with
  | Line_ _ => True
  | Comment _ lines => closed lines
  end.

Definition state_of (ic : bool) (st : option (nat * list Analysed))
    : Prop :=
  if ic then exists f lines, st = Some (f, lines) /\ opened lines
  else st = None.

Lemma comment_blocks_from_parts items :
  forall ic st ic',
    parts_run ic items = Some ic' ->
    state_of ic st ->
    if ic'
    then exists bs f lines,
           comment_blocks_from st items = bs ++ [Comment f lines]
           /\ Forall block_closed bs /\ opened lines
    else Forall block_closed (comment_blocks_from st items).
Proof.
  induction items as [|i items IH]; intros ic st ic' H Hst.
  - simpl in H. inversion H; subst ic'. destruct ic; simpl in Hst.
    + destruct Hst as (f & lines & -> & Ho).
      exists [], f, lines. simpl. auto.
    + subst st. constructor.
  - cbn [parts_run] in H.
    destruct (part_step ic i) as [ic1|] eqn:Es; [|discriminate].
    cbn [comment_blocks_from].
    assert (Hturn : exists yielded st1,
               comment_blocks_turn st i = (yielded, st1)
               /\ Forall block_closed yielded /\ state_of ic1 st1).
    { destruct i as [l|a]; simpl in Es.
      - destruct ic; [discriminate|]. inversion Es; subst ic1.
        simpl in Hst. subst st. simpl. eexists _, _.
        split; [reflexivity|]. split; [repeat constructor|reflexivity].
      - destruct (String.eqb_spec (a_part a) "start") as [Ep|Ens].
        + destruct ic; [discriminate|].
          destruct (a_eol a) as [e|] eqn:Ee; [|discriminate].
          inversion Es; subst ic1. simpl in Hst. subst st. simpl.
          rewrite Ep. simpl. eexists _, _. split; [reflexivity|].
          split; [constructor|].
          exists (a_number a), [a]. split; [reflexivity|].
          exists a, []. repeat split; auto. congruence.
        + destruct (String.eqb_spec (a_part a) "continue") as [Ep|Enc].
          * destruct ic; [|discriminate]. inversion Es; subst ic1.
            destruct Hst as (f & lines & -> & s & cs & -> & Hs & He & Hc).
            simpl. rewrite Ep. simpl. eexists _, _.
            split; [reflexivity|]. split; [constructor|].
            exists f, (s :: cs ++ [a]). split; [reflexivity|].
            exists s, (cs ++ [a]). repeat split; auto.
            apply Forall_app. split; auto.
          * destruct (String.eqb_spec (a_part a) "finish") as [Ep|Enf];
              [|discriminate].
            destruct ic; [|discriminate]. inversion Es; subst ic1.
            destruct Hst as (f & lines & -> & s & cs & -> & Hs & He & Hc).
            simpl. rewrite Ep. simpl. eexists _, _.
            split; [reflexivity|]. split; [|reflexivity].
            constructor; [|constructor].
            exists s, cs, a. repeat split; auto. }
    destruct Hturn as (yielded & st1 & -> & Hy & Hst1).
    specialize (IH ic1 st1 ic' H Hst1).
    destruct ic'.
    + destruct IH as (bs & f & lines & -> & Hbs & Ho).
      exists (yielded ++ bs), f, lines.
      split; [now rewrite app_assoc|]. split; auto.
      apply Forall_app. auto.
    + apply Forall_app. auto.
Qed.

(** The comment elements of a file are made of a start line, which has
    its end of line, of continue lines, and of a finish line; only the
    last element of a file that ends in a comment has no finish.  No
    line is passed on, and no comment starts, inside a comment. *)
Theorem comment_parts_in_order
    (tabSize : nat) (file : list string) (items : list Item) :
  read_lines tabSize file = Some (Ok items) ->
  exists inComment,
    parts_run false items = Some inComment
    /\ if inComment
       then exists blocks lineFirst lines,
              comment_blocks items = blocks ++ [Comment lineFirst lines]
              /\ Forall block_closed blocks /\ opened lines
       else Forall block_closed (comment_blocks items).
Proof.
  unfold read_lines, line_star_slash. intros Hr.
  destruct (star_slash_from false _) as [[[items' ic]|]|] eqn:E; try easy.
  inversion Hr; subst items'; clear Hr.
  apply star_slash_from_parts in E.
  exists ic. split; [exact E|].
  apply (@comment_blocks_from_parts items false None ic E eq_refl).
Qed.

(** *** What write_replacement finds *)

Lemma find_part_child_shuffle part child n lines :
  part <> "continue" ->
  find_part_child part child (shuffle_lines n lines)
  = find_part_child part child lines.
Proof.
  intros Hp. unfold find_part_child, shuffle_lines. f_equal.
  rewrite flat_map_concat_map, map_map, <- flat_map_concat_map.
  apply flat_map_ext. intros l.
  destruct (String.eqb_spec (a_part l) "continue") as [Ec|Ec]; auto.
  cbn [shuffle_line a_part]. rewrite Ec.
  destruct (String.eqb_spec "continue" part); [congruence|reflexivity].
Qed.

Lemma find_part_child_skip part child cs rest :
  Forall (fun c => a_part c = "continue") cs -> part <> "continue" ->
  find_part_child part child (cs ++ rest) = find_part_child part child rest.
Proof.
  intros Hc Hp. unfold find_part_child. rewrite flat_map_app.
  replace (flat_map _ cs) with (@nil Child); [reflexivity|].
  induction Hc as [|c cs Hc _ IH]; [reflexivity|].
  simpl. rewrite Hc.
  destruct (String.eqb_spec "continue" part); [congruence|exact IH].
Qed.

Lemma shuffle_comment_lines lineFirst lines s :
  shuffle_comment lineFirst lines = Ok s ->
  s_lines s = lines \/ exists n, s_lines s = shuffle_lines n lines.
Proof.
  unfold shuffle_comment. destruct lines as [|first rest]; [discriminate|].
  generalize (first :: rest) as ls. intros ls.
  destruct (negb (existsb _ ls));
    destruct (analyse_indentation _ _ _) as [ok k];
    intros H; inversion H; subst s; cbn [s_lines]; eauto.
Qed.

(** [write_replacement] on a comment of a file needs the finish of the
    comment.  For every file and for every comment element that comes
    of it, after [manipulate_comment_lines]: when the comment has its
    finish, the strings written are the indent, the symbol and the margin
    of the start, the link, the end of line of the start, and the indent
    and the symbol of the finish.  When it has none, which can only be in
    the last element of a file that ends in a comment, [find] returns
    [None] and [ET_text] raises [AttributeError]. *)
Theorem write_replacement_needs_finish
    (tabSize : nat) (file : list string) (items : list Item)
    (lineFirst : nat) (lines : list Analysed) (s : Shuffled)
    (path fragment : string) :
  read_lines tabSize file = Some (Ok items) ->
  In (Comment lineFirst lines) (comment_blocks items) ->
  shuffle_comment lineFirst lines = Ok s ->
  match replacement_components (s_lines s) path fragment with
  | Ok out =>
      exists start cs finish eol,
        lines = start :: cs ++ [finish]
        /\ a_part finish = "finish"
        /\ a_eol start = Some eol
        /\ out = [ET_text (a_indent start); ET_text (a_symbol start);
                  ET_text (a_margin start); "[doc://"; path; "#"; fragment;
                  "]"; ET_text eol; ET_text (a_indent finish);
                  ET_text (a_symbol finish)]
  | Raise e =>
      e = AttributeError
      /\ Forall (fun l => a_part l <> "finish") lines
      /\ exists blocks,
           comment_blocks items = blocks ++ [Comment lineFirst lines]
  end.
Proof.
  intros Hr Hin Hs.
  unfold read_lines, line_star_slash in Hr.
  destruct (star_slash_from false _) as [[[items' ic]|]|] eqn:E; try easy.
  inversion Hr; subst items'; clear Hr.
  apply star_slash_from_parts in E.
  pose proof (@comment_blocks_from_parts items false None ic E eq_refl)
    as Hb.
  fold (comment_blocks items) in Hb.
  assert (Hfind : forall part child,
             part <> "continue" ->
             find_part_child part child (s_lines s)
             = find_part_child part child lines).
  { intros part child Hp.
    destruct (shuffle_comment_lines _ _ Hs) as [->|[n ->]];
      [reflexivity|].
    now apply find_part_child_shuffle. }
  assert (Hcases : closed lines
                   \/ (opened lines
                       /\ exists blocks,
                            comment_blocks items
                            = blocks ++ [Comment lineFirst lines])).
  { destruct ic.
    - destruct Hb as (bs & f & ls & Eb & Hbs & Ho).
      rewrite Eb in Hin. apply in_app_or in Hin as [Hin|[Hin|[]]].
      + left. rewrite Forall_forall in Hbs. apply (Hbs _ Hin).
      + inversion Hin; subst. right. split; auto. now exists bs.
    - left. rewrite Forall_forall in Hb. apply (Hb _ Hin). }
  unfold replacement_components.
  rewrite !Hfind by discriminate.
  destruct Hcases as [(st & cs & f & -> & Hps & Hes & Hc & Hpf)
                     |[(st & cs & -> & Hps & Hes & Hc) Hlast]].
  - destruct (a_eol st) as [eol|] eqn:Ee; [|contradiction].
    assert (Hstart : forall child,
               find_part_child "start" child (st :: cs ++ [f])
               = hd_error
                   (match child st with
                    | Some c => [c]
                    | None => []
                    end
                    ++ flat_map
                         (fun l =>
                            if String.eqb (a_part l) "start"
                            then match child l with
                                 | Some c => [c]
                                 | None => []
                                 end
                            else [])
                         (cs ++ [f])))
      by (intros child; unfold find_part_child; simpl; now rewrite Hps).
    assert (Hfinish : forall child,
               find_part_child "finish" child (st :: cs ++ [f])
               = match child f with
                 | Some c => Some c
                 | None => None
                 end).
    { intros child.
      change (st :: cs ++ [f]) with ((st :: cs) ++ [f]).
      unfold find_part_child. rewrite flat_map_app.
      replace (flat_map _ (st :: cs)) with (@nil Child).
      - simpl. rewrite Hpf. simpl. now destruct (child f).
      - simpl. rewrite Hps. simpl.
        clear - Hc. induction Hc as [|c cs Hc _ IH]; [reflexivity|].
        simpl. now rewrite Hc. }
    rewrite !Hstart, !Hfinish, Ee. simpl.
    exists st, cs, f, eol. auto.
  - assert (Hnone : forall child,
               find_part_child "finish" child (st :: cs) = None).
    { intros child. unfold find_part_child.
      replace (flat_map _ (st :: cs)) with (@nil Child); [reflexivity|].
      simpl. rewrite Hps. simpl.
      clear - Hc. induction Hc as [|c cs Hc _ IH]; [reflexivity|].
      simpl. now rewrite Hc. }
    destruct (a_eol st) as [eol|] eqn:Ee; [|contradiction].
    unfold find_part_child at 1 2 3 4. simpl. rewrite Hps, Ee. simpl.
    rewrite Hnone. simpl. split; [reflexivity|]. split; [|exact Hlast].
    constructor; [congruence|].
    eapply Forall_impl; [|exact Hc]. simpl. intros c ->. discriminate.
Qed.

End ReplacementFacts.

Lemma comment_parts_in_order_witness :
  exists items,
    CommentTree.read_lines 4 span_example = Some (Ok items)
    /\ Forall block_closed (CommentTree.comment_blocks items).
Proof.
  match eval vm_compute in (CommentTree.read_lines 4 span_example) with
  | Some (Ok ?its) =>
      assert (E : CommentTree.read_lines 4 span_example = Some (Ok its))
        by (vm_compute; reflexivity);
      destruct (@comment_parts_in_order 4 span_example its E)
        as (ic & Hrun & H);
      vm_compute in Hrun; inversion Hrun; subst ic;
      exists its; split; [exact E|exact H]
  end.
Defined.

Lemma write_replacement_needs_finish_witness :
  exists items lineFirst lines s out,
    CommentTree.read_lines 4 span_example = Some (Ok items)
    /\ In (CommentTree.Comment lineFirst lines)
         (CommentTree.comment_blocks items)
    /\ CommentManipulate.shuffle_comment lineFirst lines = Ok s
    /\ Replacement.replacement_components (CommentManipulate.s_lines s)
         "a.md" "line-1-2" = Ok out
    /\ exists start cs finish eol,
         lines = start :: cs ++ [finish]
         /\ CommentTree.a_part finish = "finish"
         /\ CommentTree.a_eol start = Some eol
         /\ out = [CommentShuffle.ET_text (CommentTree.a_indent start);
                   CommentShuffle.ET_text (CommentTree.a_symbol start);
                   CommentShuffle.ET_text (CommentTree.a_margin start);
                   "[doc://"; "a.md"; "#"; "line-1-2"; "]";
                   CommentShuffle.ET_text eol;
                   CommentShuffle.ET_text (CommentTree.a_indent finish);
                   CommentShuffle.ET_text (CommentTree.a_symbol finish)].
Proof.
  match eval vm_compute in (CommentTree.read_lines 4 span_example) with
  | Some (Ok ?its) =>
      assert (E : CommentTree.read_lines 4 span_example = Some (Ok its))
        by (vm_compute; reflexivity);
      match eval vm_compute in (CommentTree.comment_blocks its) with
      | CommentTree.Comment ?f ?ls :: _ =>
          assert (Hin : In (CommentTree.Comment f ls)
                          (CommentTree.comment_blocks its))
            by (vm_compute; left; reflexivity);
          match eval vm_compute in (CommentManipulate.shuffle_comment f ls)
          with
          | Ok ?sh =>
              assert (Hs : CommentManipulate.shuffle_comment f ls = Ok sh)
                by (vm_compute; reflexivity);
              pose proof (@write_replacement_needs_finish 4 span_example
                            its f ls sh "a.md" "line-1-2" E Hin Hs) as H;
              destruct (Replacement.replacement_components
                          (CommentManipulate.s_lines sh) "a.md" "line-1-2")
                as [out|e] eqn:Eo;
              [exists its, f, ls, sh, out; repeat split; auto
              |vm_compute in Eo; discriminate]
          end
      end
  end.
Defined.

Section OutputTextFacts.

Import OutputTexts.

(** A text in which every white space is one space alone. *)
Fixpoint single_spaced (afterSpace : bool) (s : string) : bool :=
  match s with
  | EmptyString => true
  | String c t =>
      if PyStr.isspace c
      then Ascii.eqb c " " && negb afterSpace && single_spaced true t
      else single_spaced false t
  end.

Lemma collapse_single_spaced s :
  forall b, single_spaced b (collapse b s) = true.
Proof.
  induction s as [|c t IH]; intros b; simpl; auto.
  destruct (PyStr.isspace c) eqn:Ec.
  - destruct b; simpl; auto.
  - simpl. now rewrite Ec.
Qed.

Lemma collapse_fixed s :
  forall b, single_spaced b s = true -> collapse b s = s.
Proof.
  induction s as [|c t IH]; intros b; simpl; auto.
  destruct (PyStr.isspace c) eqn:Ec.
  - intros H. apply andb_true_iff in H as [H Ht].
    apply andb_true_iff in H as [Hc Hb].
    apply Ascii.eqb_eq in Hc. subst c. destruct b; [discriminate|].
    now rewrite IH.
  - intros H. now rewrite IH.
Qed.

(** The text of an [output] element that is not verbatim has no white
    space but single spaces, so collapsing it again changes nothing; a
    verbatim text is passed as it is, and no text gives no element. *)
Theorem text_outputs_collapsed (text verbatim : option string) :
  match text, verbatim with
  | None, _ => text_outputs text verbatim = []
  | Some t, Some v => text_outputs text verbatim = [(t, Some v)]
  | Some t, None =>
      exists out,
        text_outputs text verbatim = [(out, None)]
        /\ single_spaced false out = true
        /\ collapse false out = out
  end.
Proof.
  destruct text as [t|], verbatim as [v|]; simpl; auto.
  exists (collapse false t). repeat split.
  - apply collapse_single_spaced.
  - apply collapse_fixed, collapse_single_spaced.
Qed.

End OutputTextFacts.

(** ** join_texts and strip_leading_newlines *)

Section TextFacts.

Import ET MarkdownTexts.

(** The children as runs of text and other elements: the texts of
    neighbours with the tag [text] are one run. *)
Fixpoint runs (l : list Element) : list (string + Element) :=
  match l with
  | [] => []
  | e :: rest =>
      if is_text e then
        match runs rest with
        | inl s :: t =>
            inl (String.append (CommentLine.opt_str (text e)) s) :: t
        | t => inl (CommentLine.opt_str (text e)) :: t
        end
      else inr e :: runs rest
  end.

(** No two neighbours have the tag [text]. *)
Fixpoint no_adjacent (l : list Element) : bool :=
  match l with
  | [] => true
  | a :: rest =>
      match rest with
      | [] => true
      | b :: _ => negb (is_text a && is_text b) && no_adjacent rest
      end
  end.

Definition starts_other (l : list Element) : bool :=
  match l with
  | [] => true
  | e :: _ => negb (is_text e)
  end.

Lemma runs_other l : starts_other l = true ->
  match runs l with
  | inl _ :: _ => False
  | _ => True
  end.
Proof.
  destruct l as [|e l]; simpl; auto. intros H.
  apply negb_true_iff in H. now rewrite H.
Qed.

Definition is_text_opt (o : option Element) : Prop :=
  forall c, o = Some c -> is_text c = true.

Lemma join_loop_spec l :
  forall index consolidated removals cs removals',
    is_text_opt consolidated ->
    join_loop index l consolidated removals = Ok (cs, removals') ->
    runs cs = runs (opt_list consolidated ++ l)
    /\ match consolidated with
       | Some _ =>
           exists c t,
             cs = c :: t /\ is_text c = true /\ starts_other t = true
             /\ no_adjacent t = true
       | None => no_adjacent cs = true
       end
    /\ List.length cs + List.length removals'
       = List.length (opt_list consolidated) + List.length l
         + List.length removals.
Proof.
  induction l as [|child rest IH];
    intros index cons removals cs removals' Hc H.
  - simpl in H. inversion H; subst. rewrite app_nil_r. split; auto.
    split; [|simpl; lia].
    destruct cons as [c|]; simpl; auto. exists c, []. auto.
  - cbn [join_loop] in H. destruct (is_text child) eqn:Et.
    + destruct cons as [c|].
      * destruct (text c) as [a|] eqn:Ea; [|discriminate].
        destruct (text child) as [b|] eqn:Eb; [|discriminate].
        apply IH in H as (Hr & Hs & Hl).
        -- split; [|split; [exact Hs|simpl in *; lia]].
           rewrite Hr. simpl. rewrite Et, (Hc c eq_refl).
           change (is_text (set_text c (Some (String.append a b))))
             with (is_text c).
           rewrite (Hc c eq_refl), Ea, Eb. simpl.
           destruct (runs rest) as [|[s|e] t]; simpl;
             now rewrite ?append_assoc.
        -- intros c' E. inversion E; subst. apply (Hc c eq_refl).
      * apply IH in H as (Hr & Hs & Hl).
        -- split; [exact Hr|]. split; [|simpl in *; lia].
           destruct Hs as (c & t & -> & Hct & Hst & Hn).
           destruct t as [|e t]; auto.
           change (negb (is_text c && is_text e)
                   && no_adjacent (e :: t) = true).
           simpl in Hst. apply negb_true_iff in Hst.
           now rewrite Hst, andb_false_r, Hn.
        -- intros c' E. now inversion E; subst.
    + destruct (join_loop (S index) rest None removals)
        as [[cs' rem]|] eqn:E; [|discriminate].
      simpl in H. inversion H; subst; clear H.
      apply IH in E as (Hr & Hs & Hl); [|intros c' E'; discriminate].
      simpl in Hr, Hs, Hl.
      assert (Hn : no_adjacent (child :: cs') = true).
      { destruct cs' as [|e t]; auto.
        change (negb (is_text child && is_text e)
                && no_adjacent (e :: t) = true).
        now rewrite Et, Hs. }
      destruct cons as [c|]; cbn [opt_list app runs List.length].
      * rewrite Et, (Hc c eq_refl), Hr.
        split; [reflexivity|]. split; [|lia].
        exists c, (child :: cs'). split; [reflexivity|].
        split; [apply (Hc c eq_refl)|].
        split; [simpl; now rewrite Et|exact Hn].
      * rewrite Et, Hr. split; auto. split; [exact Hn|lia].
Qed.

Lemma join_loop_joins (l : list Element) :
  match join_loop 0 l None [] with
  | Ok (cs, removals) =>
      no_adjacent cs = true
      /\ runs cs = runs l
      /\ List.length cs + List.length removals = List.length l
  | Raise e => e = TypeError
  end.
Proof.
  destruct (join_loop 0 l None []) as [[cs removals]|e] eqn:E.
  - apply join_loop_spec in E as (Hr & Hn & Hl);
      [|intros c' E'; discriminate].
    simpl in *. repeat split; auto. lia.
  - assert (G : forall l index cons removals e,
               join_loop index l cons removals = Raise e -> e = TypeError).
    { clear. induction l as [|child rest IH];
        intros index cons removals e H; [discriminate|].
      cbn [join_loop] in H. destruct (is_text child).
      - destruct cons as [c|]; [|eauto].
        destruct (text c); [|now inversion H].
        destruct (text child); [eauto|now inversion H].
      - destruct (join_loop (S index) rest None removals)
          as [r|e'] eqn:E'; [discriminate|].
        simpl in H. inversion H; subst. eauto. }
    eauto.
Qed.

Lemma join_loop_same l :
  forall index consolidated removals cs removals',
    join_loop index l consolidated removals = Ok (cs, removals') ->
    List.length removals <= List.length removals'
    /\ (List.length removals' = List.length removals ->
        cs = opt_list consolidated ++ l).
Proof.
  induction l as [|child rest IH];
    intros index cons removals cs removals' H.
  - simpl in H. inversion H; subst. now rewrite app_nil_r.
  - cbn [join_loop] in H. destruct (is_text child).
    + destruct cons as [c|].
      * destruct (text c) as [a|]; [|discriminate].
        destruct (text child) as [b|]; [|discriminate].
        apply IH in H as [Hle _]. simpl in Hle. split; lia.
      * apply IH in H as [Hle Hsame]. auto.
    + destruct (join_loop (S index) rest None removals)
        as [[cs' rem]|] eqn:E; [|discriminate].
      simpl in H. inversion H; subst; clear H.
      apply IH in E as [Hle Hsame]. split; auto.
      intros E. rewrite (Hsame E). simpl.
      now destruct cons.
Qed.

(** The body of the loop of [join_texts] leaves no two neighbours with
    the tag [text] below the element, and keeps the runs of text and
    the other children as they were and in their places; it leaves the
    element as it was when it has no two such neighbours.  The only
    error is the [TypeError] of a text that is [None]. *)
Theorem join_texts_joins
    (str_removals : list (nat * option string) -> string)
    (found : Element) :
  match join_found str_removals found with
  | Ok found' =>
      no_adjacent (children found') = true
      /\ runs (children found') = runs (children found)
      /\ tag found' = tag found
      /\ (no_adjacent (children found) = true -> found' = found)
  | Raise e => e = TypeError
  end.
Proof.
  unfold join_found.
  pose proof (join_loop_joins (children found)) as H.
  destruct (join_loop 0 (children found) None []) as [[cs removals]|e]
    eqn:E; simpl; auto.
  destruct H as (Hn & Hr & Hl).
  destruct (@join_loop_same _ _ _ _ _ _ E) as [_ Hsame].
  destruct removals as [|r removals].
  - specialize (Hsame eq_refl). simpl in Hsame. subst cs. auto.
  - simpl. repeat split; auto.
    intros Hno. exfalso.
    assert (G : forall l index cons removals cs removals',
               is_text_opt cons ->
               no_adjacent (opt_list cons ++ l) = true ->
               join_loop index l cons removals = Ok (cs, removals') ->
               removals' = removals).
    { clear. induction l as [|child rest IH];
        intros index cons removals cs removals' Hc Hno H.
      - simpl in H. now inversion H.
      - cbn [join_loop] in H. destruct (is_text child) eqn:Et.
        + destruct cons as [c|].
          * simpl in Hno. rewrite (Hc c eq_refl), Et in Hno. discriminate.
          * apply IH in H; auto. intros c E. now inversion E; subst.
        + destruct (join_loop (S index) rest None removals)
            as [[cs' rem]|] eqn:E; [|discriminate].
          simpl in H. inversion H; subst; clear H.
          apply IH in E; auto; [intros c E'; discriminate|].
          assert (Hrest : no_adjacent (child :: rest) = true).
          { destruct cons as [c|]; auto.
            change (negb (is_text c && is_text child)
                    && no_adjacent (child :: rest) = true) in Hno.
            now apply andb_true_iff in Hno. }
          destruct rest as [|e rest]; auto.
          change (negb (is_text child && is_text e)
                  && no_adjacent (e :: rest) = true) in Hrest.
          now apply andb_true_iff in Hrest. }
    assert (Hnone : is_text_opt None) by (intros c E'; discriminate).
    apply (G _ _ _ _ _ _ Hnone Hno) in E. discriminate.
Qed.

Lemma lstrip_by_fixed f s :
  PyStr.lstrip_by f (PyStr.lstrip_by f s) = PyStr.lstrip_by f s.
Proof.
  induction s as [|c t IH]; simpl; auto.
  destruct (f c) eqn:E; auto. simpl. now rewrite E.
Qed.

(** The first element with the tag [text], if there is one with a
    text. *)
Fixpoint first_text (l : list Element) : option string :=
  match l with
  | [] => None
  | c :: rest => if is_text c then text c else first_text rest
  end.

(** After the body of the loop of [strip_leading_newlines] the first
    text of the paragraph is the text that it had without the carriage
    returns and line feeds at its start, as many children are there, and
    doing it again changes nothing. *)
Theorem strip_first_text_strips (l : list Element) :
  first_text (strip_first_text l)
  = option_map (PyStr.lstrip_by PyStr.is_eol) (first_text l)
  /\ List.length (strip_first_text l) = List.length l
  /\ strip_first_text (strip_first_text l) = strip_first_text l.
Proof.
  induction l as [|c rest (IH1 & IH2 & IH3)]; simpl; auto.
  destruct (is_text c) eqn:Et.
  - destruct (text c) as [t|] eqn:Ex.
    + destruct (String.eqb_spec (PyStr.lstrip_by PyStr.is_eol t) t)
        as [E|E].
      * simpl. rewrite Et, Ex. simpl. rewrite E.
        rewrite String.eqb_refl. auto.
      * simpl.
        change (is_text (set_text ?e ?x)) with (is_text e).
        change (is_text (set ?e ?k ?v)) with (is_text e).
        rewrite Et. simpl. rewrite lstrip_by_fixed, String.eqb_refl. auto.
    + simpl. rewrite Et, Ex. auto.
  - simpl. rewrite Et. repeat split; congruence.
Qed.

End TextFacts.

(** ** split_elements *)

Section SplitFacts.

Import ET Mistree.

Definition element_text (e : Element) : string :=
  CommentLine.opt_str (text e).

Lemma length_take n s :
  String.length (PyStr.take n s) = Nat.min n (String.length s).
Proof.
  revert s. induction n as [|n IH]; intros [|c t]; simpl; auto.
Qed.

Lemma prefix_length p s :
  String.prefix p s = true -> String.length p <= String.length s.
Proof.
  revert s. induction p as [|c p IH]; intros [|d s] H; simpl in *;
    try easy; try lia.
  destruct (Ascii.ascii_dec c d); [|easy]. specialize (IH _ H). lia.
Qed.

Lemma prefix_of_take p n s :
  String.prefix p (PyStr.take n s) = true -> String.prefix p s = true.
Proof.
  revert n s. induction p as [|c p IH]; intros [|n] [|d s] H; simpl in *;
    try easy.
  destruct (Ascii.ascii_dec c d); [eauto|easy].
Qed.

Lemma find_none_weaken (A : Type) (f g : A -> bool) l :
  (forall x, g x = true -> f x = true) ->
  find f l = None -> find g l = None.
Proof.
  intros Hfg. induction l as [|x l IH]; simpl; auto.
  destruct (f x) eqn:Ef; [easy|]. intros H.
  destruct (g x) eqn:Eg; auto. rewrite (Hfg x Eg) in Ef. discriminate.
Qed.

(** *** The pattern *)

(** A match of [patternAtCommand]: the at sign and a keyword. *)
Definition at_command_text (t : string) : Prop :=
  exists k, In k keywords /\ t = String "@" k.

Lemma at_command_at_spec s n :
  at_command_at s = Some n ->
  0 < n <= String.length s /\ at_command_text (PyStr.take n s).
Proof.
  destruct s as [|c t]; [easy|]. unfold at_command_at.
  destruct (Ascii.eqb_spec c "@") as [->|]; [|easy].
  destruct (find (fun k => PyStr.startswith k t) keywords) as [k|] eqn:Ef;
    [|easy].
  cbn [option_map]. intros H. inversion H; subst n; clear H.
  apply find_some in Ef as [Hin Hp]. unfold PyStr.startswith in Hp.
  pose proof (prefix_length _ _ Hp).
  cbn [String.length PyStr.take].
  split; [lia|]. exists k. split; auto. now rewrite (prefix_take _ _ Hp).
Qed.

Lemma at_command_at_take s m :
  at_command_at s = None -> at_command_at (PyStr.take m s) = None.
Proof.
  destruct s as [|c t]; destruct m as [|m]; auto.
  unfold at_command_at. cbn [PyStr.take].
  destruct (Ascii.eqb c "@"); auto.
  destruct (find (fun k => PyStr.startswith k t) keywords) eqn:Ef;
    [easy|]. intros _.
  rewrite (@find_none_weaken _ _
             (fun k => PyStr.startswith k (PyStr.take m t)) keywords
             (fun k => @prefix_of_take k m t) Ef).
  reflexivity.
Qed.

Lemma search_from_spec s :
  forall i a b,
    search_from s i = Some (a, b) ->
    i <= a /\ a < b /\ b <= i + String.length s
    /\ at_command_text (PyStr.take (b - a) (PyStr.drop (a - i) s))
    /\ search_from (PyStr.take (a - i) s) i = None.
Proof.
  induction s as [|c t IH]; intros i a b H.
  - simpl in H. discriminate.
  - cbn [search_from] in H.
    destruct (at_command_at (String c t)) as [n|] eqn:En.
    + inversion H; subst a b; clear H.
      destruct (at_command_at_spec _ En) as [Hn Ht].
      replace (i + n - i) with n by lia. rewrite Nat.sub_diag.
      repeat split; auto; lia.
    + destruct (IH _ _ _ H) as (Hi & Hab & Hb & Ht & Hnone).
      replace (a - i) with (S (a - S i)) by lia.
      simpl String.length. repeat split; auto; try lia.
      change (PyStr.take (S (a - S i)) (String c t))
        with (String c (PyStr.take (a - S i) t)).
      cbn [search_from].
      change (String c (PyStr.take (a - S i) t))
        with (PyStr.take (S (a - S i)) (String c t)).
      now rewrite (@at_command_at_take _ (S (a - S i)) En).
Qed.

Lemma patternAtCommand_spec s a b :
  patternAtCommand s = Some (a, b) ->
  a < b <= String.length s
  /\ at_command_text (PyStr.take (b - a) (PyStr.drop a s))
  /\ patternAtCommand (PyStr.take a s) = None.
Proof.
  unfold patternAtCommand. intros H.
  apply search_from_spec in H as (_ & Hab & Hb & Ht & Hn).
  rewrite Nat.sub_0_r in *. simpl in Hb. auto.
Qed.

(** *** The split, for any such pattern *)

Section AnyPattern.

Variable search : string -> option (nat * nat).

(** What the group of the pattern matches. *)
Variable matches : string -> Prop.

(** The group is not empty, and the match is the leftmost. *)
Hypothesis search_ok :
  forall s a b,
    search s = Some (a, b) ->
    a < b <= String.length s
    /\ matches (PyStr.take (b - a) (PyStr.drop a s))
    /\ search (PyStr.take a s) = None.

(** An element of the result: a span without children, which is a text
    that is not empty and has no match, or a match. *)
Definition piece (e : Element) : Prop :=
  get e "layout" = Some "span" /\ children e = []
  /\ ((tag e = "text"
       /\ exists t, text e = Some t /\ t <> "" /\ search t = None)
      \/ (tag e = "at_command"
          /\ exists t, text e = Some t /\ matches t)).

Lemma piece_transcript e v : piece e -> piece (set e "transcript" v).
Proof.
  intros (Hl & Hc & Ht). split; [|split; [exact Hc|exact Ht]].
  rewrite get_set_ne by discriminate. exact Hl.
Qed.

Lemma split_elements_spec fuel :
  forall text,
    String.length text < fuel ->
    exists l,
      split_elements search fuel text = Some l
      /\ PyStr.join (map element_text l) = text
      /\ Forall piece l
      /\ no_adjacent l = true.
Proof.
  induction fuel as [|fuel IH]; intros text Hlen; [lia|].
  cbn [split_elements].
  destruct (search text) as [[a b]|] eqn:Es.
  - destruct (search_ok Es) as ((Hab & Hb) & Hm & Hleft).
    destruct (IH (PyStr.drop b text)) as (more & -> & Hj & Hp & Hn).
    { rewrite length_drop. lia. }
    rewrite (proj2 (Nat.ltb_lt a b) Hab).
    assert (Hmid : String.append (PyStr.take (b - a) (PyStr.drop a text))
                     (PyStr.drop b text) = PyStr.drop a text).
    { replace (PyStr.drop b text)
        with (PyStr.drop (b - a) (PyStr.drop a text))
        by (rewrite drop_drop; f_equal; lia).
      apply take_drop. }
    assert (Hmatched :
              piece (set (Elem "at_command" []
                            (Some (PyStr.take (b - a) (PyStr.drop a text)))
                            []) "layout" "span")).
    { split; [reflexivity|]. split; [reflexivity|]. right.
      split; [reflexivity|]. eexists. split; [reflexivity|exact Hm]. }
    assert (Hnon : forall x,
               MarkdownTexts.is_text x = false ->
               no_adjacent (x :: more) = true).
    { intros x Hx. destruct more; [reflexivity|].
      cbn [no_adjacent] in *. now rewrite Hx, Hn. }
    destruct (String.eqb_spec (PyStr.take a text) "") as [Ee|Ene].
    + eexists. split; [reflexivity|].
      split; [|split].
      * cbn [map]. rewrite join_cons, Hj.
        change (element_text (set _ "transcript" _))
          with (PyStr.take (b - a) (PyStr.drop a text)).
        rewrite Hmid.
        transitivity (String.append (PyStr.take a text) (PyStr.drop a text));
          [now rewrite Ee|apply take_drop].
      * constructor; [now apply piece_transcript|exact Hp].
      * now apply Hnon.
    + eexists. split; [reflexivity|].
      split; [|split].
      * cbn [map]. rewrite !join_cons, Hj.
        change (element_text (set (set_text _ (Some ?t)) "transcript" _))
          with t.
        change (element_text (set (Elem _ _ (Some ?t) _) "layout" _))
          with t.
        rewrite Hmid. apply take_drop.
      * constructor; [|constructor; auto].
        apply piece_transcript.
        split; [reflexivity|]. split; [reflexivity|]. left.
        split; [reflexivity|]. eexists. split; [reflexivity|]. auto.
      * match goal with
        | |- no_adjacent (?x :: ?y :: more) = true =>
            change (negb (MarkdownTexts.is_text x
                          && MarkdownTexts.is_text y)
                    && no_adjacent (y :: more) = true)
        end.
        rewrite Hnon by reflexivity. reflexivity.
  - destruct (String.eqb_spec text "") as [->|Hne].
    + exists []. repeat split; auto.
    + eexists. split; [reflexivity|]. split; [|split].
      * cbn [map]. rewrite join_cons. apply append_nil_r.
      * constructor; [|constructor].
        split; [reflexivity|]. split; [reflexivity|]. left.
        split; [reflexivity|]. eexists. split; [reflexivity|]. auto.
      * reflexivity.
Qed.

End AnyPattern.

(** [TreeRenderer.text] splits a text at the at-commands and loses
    nothing: it returns for every text; the texts of the elements,
    one after the other, are the text; every element is a span without
    children, either with the tag [text], a text that is not empty and
    holds no at-command, or with the tag [at_command] and the at sign
    and a keyword as its text; and no two elements with the tag [text]
    are neighbours. *)
Theorem TreeRenderer_text_splits (text : string) :
  exists l,
    TreeRenderer_text text = Some l
    /\ PyStr.join (map element_text l) = text
    /\ Forall (piece patternAtCommand at_command_text) l
    /\ no_adjacent l = true.
Proof.
  apply (@split_elements_spec patternAtCommand at_command_text).
  - intros s a b H. apply patternAtCommand_spec in H. tauto.
  - lia.
Qed.

End SplitFacts.

(** ** From add_fragment to Cache.read *)

Section ExtractFacts.

Import DocGetter Doctor.

Notation "a +++ b" := (String.append a b)
  (at level 60, right associativity, only parsing).

Definition is_lf (c : ascii) : bool := Nat.eqb (nat_of_ascii c) 10.

Definition no_lf (s : string) : bool :=
  forallb (fun c => negb (is_lf c)) (list_ascii_of_string s).

(** A line that ends a fragment in [Cache.read]. *)
Definition is_header (line : string) : bool :=
  PyStr.startswith "#" line && negb (PyStr.startswith "##" line).

(** A text that can be read back: none of its lines starts a fragment,
    and it has no carriage return. *)
Definition plain_text (texts : string) : bool :=
  forallb (fun l => negb (is_header l)) (file_lines (texts +++ PyStr.LF))
  && forallb (fun c => negb (PyStr.is_eol c) || is_lf c)
       (list_ascii_of_string texts).

Lemma file_lines_nonempty s : file_lines (s +++ PyStr.LF) <> [].
Proof.
  induction s as [|c s IH]; simpl; [discriminate|].
  destruct (Nat.eqb (nat_of_ascii c) 10); [discriminate|].
  destruct (file_lines (s +++ PyStr.LF)); discriminate.
Qed.

Lemma file_lines_app s b :
  file_lines ((s +++ PyStr.LF) +++ b)
  = file_lines (s +++ PyStr.LF) ++ file_lines b.
Proof.
  induction s as [|c s IH]; [reflexivity|].
  cbn [String.append file_lines].
  destruct (Nat.eqb (nat_of_ascii c) 10).
  - now rewrite IH.
  - rewrite IH. pose proof (file_lines_nonempty s).
    destruct (file_lines (s +++ PyStr.LF)); [contradiction|reflexivity].
Qed.

Lemma file_lines_line s :
  no_lf s = true -> file_lines (s +++ PyStr.LF) = [s +++ PyStr.LF].
Proof.
  induction s as [|c s IH]; [reflexivity|].
  unfold no_lf. simpl. intros H. apply andb_true_iff in H as [Hc Hs].
  unfold is_lf in Hc. apply negb_true_iff in Hc. rewrite Hc.
  now rewrite (IH Hs).
Qed.

Lemma join_file_lines s : PyStr.join (file_lines s) = s.
Proof.
  induction s as [|c s IH]; [reflexivity|]. simpl.
  destruct (Nat.eqb (nat_of_ascii c) 10).
  - rewrite join_cons, IH. reflexivity.
  - destruct (file_lines s) as [|l ls].
    + simpl in IH. now subst.
    + rewrite join_cons in *. simpl. now rewrite IH.
Qed.

Lemma lf_char c : is_lf c = true -> String c "" = PyStr.LF.
Proof.
  unfold is_lf, PyStr.LF. intros H. apply Nat.eqb_eq in H.
  f_equal. rewrite <- H. symmetry. apply ascii_nat_embedding.
Qed.

(** The last line of a text that ends with a line feed. *)
Lemma file_lines_last t :
  exists init seg,
    file_lines (t +++ PyStr.LF) = init ++ [seg +++ PyStr.LF]
    /\ t = PyStr.join init +++ seg
    /\ no_lf seg = true.
Proof.
  induction t as [|c t (init & seg & E & Et & Hs)].
  - exists [], "". auto.
  - cbn [String.append file_lines]. fold (is_lf c).
    destruct (is_lf c) eqn:Ec.
    + exists (String c "" :: init), seg. rewrite E. repeat split; auto.
      rewrite join_cons. simpl. now rewrite <- Et.
    + rewrite E. destruct init as [|l ls]; simpl.
      * exists [], (String c seg). repeat split.
        -- simpl. f_equal. simpl in Et. exact Et.
        -- unfold no_lf. simpl. rewrite Ec. exact Hs.
      * exists (String c l :: ls), seg. repeat split; auto.
        rewrite join_cons in *. simpl. now rewrite <- Et.
Qed.

Lemma rstrip_last_snoc init x :
  rstrip_last (init ++ [x]) = init ++ [PyStr.rstrip_by PyStr.is_eol x].
Proof.
  induction init as [|a init IH]; [reflexivity|].
  change ((a :: init) ++ [x]) with (a :: (init ++ [x])).
  destruct (init ++ [x]) as [|y l] eqn:E.
  - destruct init; discriminate.
  - change (rstrip_last (a :: y :: l)) with (a :: rstrip_last (y :: l)).
    now rewrite IH.
Qed.

Lemma rstrip_plain f s :
  forallb (fun c => negb (f c)) (list_ascii_of_string s) = true ->
  forall r, forallb f (list_ascii_of_string r) = true ->
  PyStr.rstrip_by f (s +++ r) = s.
Proof.
  intros Hs r Hr. induction s as [|c s IH]; simpl in *.
  - induction r as [|c r IHr]; simpl in *; auto.
    apply andb_true_iff in Hr as [Hc Hr]. now rewrite (IHr Hr), Hc.
  - apply andb_true_iff in Hs as [Hc Hs]. rewrite (IH Hs).
    apply negb_true_iff in Hc. destruct s; [now rewrite Hc|reflexivity].
Qed.

Lemma all_chars_append f a b :
  forallb f (list_ascii_of_string (a +++ b))
  = forallb f (list_ascii_of_string a) && forallb f (list_ascii_of_string b).
Proof. now rewrite chars_append, forallb_app. Qed.

(** What is left of the lines of a text, with a line feed after it,
    when the end of line is taken off the last of them, is the text. *)
Lemma join_rstrip_last t :
  forallb (fun c => negb (PyStr.is_eol c) || is_lf c)
    (list_ascii_of_string t) = true ->
  PyStr.join (rstrip_last (file_lines (t +++ PyStr.LF))) = t.
Proof.
  intros Hcr. destruct (file_lines_last t) as (init & seg & E & Et & Hs).
  rewrite E, rstrip_last_snoc, join_app.
  rewrite Et at 1. f_equal. rewrite join_cons.
  change (PyStr.join []) with "". rewrite append_nil_r.
  apply rstrip_plain; [|reflexivity].
  rewrite Et, all_chars_append in Hcr.
  apply andb_true_iff in Hcr as [_ Hcr].
  unfold no_lf in Hs. clear - Hs Hcr.
  induction (list_ascii_of_string seg) as [|c l IH]; simpl in *; auto.
  apply andb_true_iff in Hs as [Hc Hs].
  apply andb_true_iff in Hcr as [Hc' Hcr].
  rewrite (IH Hcr Hs), andb_true_r.
  apply negb_true_iff in Hc. rewrite Hc, orb_false_r in Hc'. exact Hc'.
Qed.

(** The digits of a number. *)
Lemma digits_plain u :
  forallb (fun c => negb (PyStr.isspace c) && negb (is_lf c))
    (list_ascii_of_string (NilEmpty.string_of_uint u)) = true.
Proof. induction u; simpl; auto. Qed.

Lemma little_succ_not_nil d : Decimal.Little.succ d <> Decimal.Nil.
Proof. destruct d; discriminate. Qed.

Lemma to_little_uint_not_nil n :
  forall acc, acc <> Decimal.Nil -> Nat.to_little_uint n acc <> Decimal.Nil.
Proof.
  induction n as [|n IH]; intros acc H; simpl; auto.
  apply IH, little_succ_not_nil.
Qed.

Lemma revapp_not_nil u :
  forall acc, u <> Decimal.Nil \/ acc <> Decimal.Nil ->
              Decimal.revapp u acc <> Decimal.Nil.
Proof.
  induction u; intros acc H; simpl;
    try (apply IHu; right; discriminate).
  destruct H; auto.
Qed.

Lemma str_of_nat_not_empty n : str_of_nat n <> "".
Proof.
  unfold str_of_nat, Nat.to_uint, Decimal.rev.
  assert (H : Decimal.revapp (Nat.to_little_uint n Decimal.zero) Decimal.Nil
              <> Decimal.Nil).
  { apply revapp_not_nil. left. apply to_little_uint_not_nil. discriminate. }
  destruct (Decimal.revapp _ _); [contradiction|discriminate..].
Qed.

Lemma fragment_name_chars a b :
  forallb (fun c => negb (PyStr.isspace c) && negb (is_lf c))
    (list_ascii_of_string (fragment_name a b)) = true.
Proof.
  unfold fragment_name.
  rewrite !all_chars_append. unfold str_of_nat. rewrite !digits_plain.
  reflexivity.
Qed.

Lemma forallb_weaken (f g : ascii -> bool) l :
  (forall c, f c = true -> g c = true) ->
  forallb f l = true -> forallb g l = true.
Proof.
  intros H. induction l as [|c l IH]; simpl; auto.
  intros E. apply andb_true_iff in E as [Hc Hl].
  now rewrite (H c Hc), (IH Hl).
Qed.

(** The line that [add_fragment] writes before the texts is read as the
    start of the fragment with the name that [add_fragment] returns. *)
Lemma header_name a b :
  PyStr.strip (PyStr.drop 1 (("# " +++ fragment_name a b) +++ PyStr.LF))
  = fragment_name a b.
Proof.
  change (PyStr.drop 1 (("# " +++ fragment_name a b) +++ PyStr.LF))
    with (String " " (fragment_name a b +++ PyStr.LF)).
  unfold PyStr.strip.
  change (PyStr.lstrip_by PyStr.isspace
            (String " " (fragment_name a b +++ PyStr.LF)))
    with (fragment_name a b +++ PyStr.LF).
  apply rstrip_plain; [|reflexivity].
  eapply forallb_weaken; [|apply fragment_name_chars].
  intros c H. now apply andb_true_iff in H.
Qed.

Lemma header_line a b :
  file_lines (("# " +++ fragment_name a b) +++ PyStr.LF)
  = [("# " +++ fragment_name a b) +++ PyStr.LF].
Proof.
  apply file_lines_line. unfold no_lf.
  change (list_ascii_of_string ("# " +++ fragment_name a b))
    with ("#"%char :: " "%char :: list_ascii_of_string (fragment_name a b)).
  simpl. eapply forallb_weaken; [|apply fragment_name_chars].
  intros c H. now apply andb_true_iff in H.
Qed.

Lemma read_line_header path cur a b :
  read_line path cur (("# " +++ fragment_name a b) +++ PyStr.LF)
  = (match cur with
     | Some (frag, content) => [mkCache path frag (rstrip_last content)]
     | None => []
     end,
     Some (fragment_name a b, [])).
Proof.
  unfold read_line. rewrite header_name.
  change (PyStr.startswith "#" (("# " +++ fragment_name a b) +++ PyStr.LF))
    with true.
  change (PyStr.startswith "##" (("# " +++ fragment_name a b) +++ PyStr.LF))
    with false.
  assert (Hn : String.eqb (fragment_name a b) ""
               || PyStr.startswith "#" (fragment_name a b) = false)
    by reflexivity.
  rewrite Hn. now destruct cur as [[frag content]|].
Qed.

Lemma read_from_content path frag ls :
  forallb (fun l => negb (is_header l)) ls = true ->
  forall content rest,
    read_from path (Some (frag, content)) (ls ++ rest)
    = read_from path (Some (frag, content ++ ls)) rest.
Proof.
  induction ls as [|l ls IH]; intros H content rest; simpl in H.
  - now rewrite app_nil_r.
  - apply andb_true_iff in H as [Hl Hls]. apply negb_true_iff in Hl.
    change ((l :: ls) ++ rest) with (l :: (ls ++ rest)).
    cbn [read_from]. unfold read_line. fold (is_header l). rewrite Hl.
    simpl. rewrite (IH Hls). now rewrite <- app_assoc.
Qed.

(** What [add_fragment] appends for the fragments of a list. *)
Definition blocks (l : list (nat * nat * string)) : string :=
  PyStr.join
    (map (fun '(a, b, t) =>
            PyStr.join ["# "; fragment_name a b; PyStr.LF; t; PyStr.LF]) l).

Lemma add_fragments_blocks l :
  forall file, add_fragments l file = file +++ blocks l.
Proof.
  induction l as [|[[a b] t] l IH]; intros file; simpl.
  - unfold blocks. simpl. now rewrite append_nil_r.
  - rewrite IH. unfold blocks. cbn [map]. rewrite (join_cons _ (map _ l)).
    now rewrite append_assoc.
Qed.

(** What [Cache.read] yields on the lines of the fragments of a list,
    from a fragment that it has in hand. *)
Fixpoint read_blocks (path : string) (cur : option (string * list string))
    (l : list (nat * nat * string)) : list Cache :=
  match l with
  | [] =>
      match cur with
      | Some (frag, content) => [mkCache path frag content]
      | None => []
      end
  | (a, b, t) :: rest =>
      match cur with
      | Some (frag, content) => [mkCache path frag (rstrip_last content)]
      | None => []
      end
      ++ read_blocks path
           (Some (fragment_name a b, file_lines (t +++ PyStr.LF))) rest
  end.

Lemma read_from_blocks path l :
  forallb (fun '(_, _, t) => plain_text t) l = true ->
  forall cur,
    read_from path cur (file_lines (blocks l)) = read_blocks path cur l.
Proof.
  induction l as [|[[a b] t] l IH]; intros H cur; [reflexivity|].
  simpl in H. apply andb_true_iff in H as [Ht Hl].
  unfold plain_text in Ht. apply andb_true_iff in Ht as [Hlines _].
  unfold blocks. cbn [map]. rewrite (join_cons _ (map _ l)).
  fold (blocks l). rewrite !join_cons.
  change (PyStr.join []) with "". rewrite append_nil_r.
  replace (("# " +++ fragment_name a b +++ PyStr.LF +++ t +++ PyStr.LF)
           +++ blocks l)
    with ((("# " +++ fragment_name a b) +++ PyStr.LF)
          +++ ((t +++ PyStr.LF) +++ blocks l))
    by now rewrite !append_assoc.
  rewrite file_lines_app, header_line, file_lines_app.
  cbn [app read_from]. rewrite read_line_header.
  rewrite (@read_from_content path _ _ Hlines). simpl app.
  now rewrite (IH Hl).
Qed.

(** The names and the contents that are read back. *)
Fixpoint read_back (path : string) (l : list (nat * nat * string))
    : list (string * string * string) :=
  match l with
  | [] => []
  | (a, b, t) :: rest =>
      match rest with
      | [] => [(path, fragment_name a b, t +++ PyStr.LF)]
      | _ => (path, fragment_name a b, t) :: read_back path rest
      end
  end.

Lemma read_blocks_back path l :
  forallb (fun '(_, _, t) => plain_text t) l = true ->
  forall a b t,
    plain_text t = true ->
    map (fun c => (absPath c, fragment c, PyStr.join (contentLines c)))
      (read_blocks path
         (Some (fragment_name a b, file_lines (t +++ PyStr.LF))) l)
    = read_back path ((a, b, t) :: l).
Proof.
  induction l as [|[[a' b'] t'] l IH]; intros H a b t Ht.
  - simpl. now rewrite join_file_lines.
  - simpl in H. apply andb_true_iff in H as [Ht' Hl].
    cbn [read_blocks read_back app map]. rewrite (IH Hl _ _ _ Ht').
    simpl. unfold plain_text in Ht. apply andb_true_iff in Ht as [_ Hcr].
    now rewrite (@join_rstrip_last _ Hcr).
Qed.

(** What [add_fragment] writes, [Cache.read] reads back: after the
    fragments of a list were added to an empty extract file, texts
    without carriage returns and without lines that start a fragment,
    reading the file yields a fragment for each, in order, with the name
    that [add_fragment] returned and with the texts as its content; but
    the last fragment of the file keeps the line feed that [add_fragment]
    wrote after its texts. *)
Theorem extract_file_round_trip
    (path : string) (l : list (nat * nat * string)) :
  forallb (fun '(_, _, t) => plain_text t) l = true ->
  map (fun c => (absPath c, fragment c, PyStr.join (contentLines c)))
    (Cache_read path (file_lines (add_fragments l "")))
  = read_back path l.
Proof.
  intros H. rewrite add_fragments_blocks. cbn [String.append].
  unfold Cache_read. rewrite (@read_from_blocks path _ H).
  destruct l as [|[[a b] t] l]; [reflexivity|].
  simpl in H. apply andb_true_iff in H as [Ht Hl].
  cbn [read_blocks app]. now apply read_blocks_back.
Qed.

End ExtractFacts.

Lemma extract_file_round_trip_witness :
  map (fun c => (DocGetter.absPath c, DocGetter.fragment c,
                 PyStr.join (DocGetter.contentLines c)))
    (DocGetter.Cache_read "/x.md"
       (Doctor.file_lines
          (Doctor.add_fragments
             [(3, 5, String.append "One." (String.append PyStr.LF "Two."));
              (9, 9, "Three.")] "")))
  = [("/x.md", "line-3-5",
      String.append "One." (String.append PyStr.LF "Two."));
     ("/x.md", "line-9-9", String.append "Three." PyStr.LF)].
Proof.
  rewrite (@extract_file_round_trip "/x.md"
             [(3, 5, String.append "One." (String.append PyStr.LF "Two."));
              (9, 9, "Three.")]).
  - vm_compute. reflexivity.
  - vm_compute. reflexivity.
Defined.
